(** * ddptensor JIT core: dependency manager, type synthesis, JIT engine cache

    A shallow embedding of [src/jit/mlir.cpp] (the current text, lines 1-729)
    and of the creation front-ends that follow it in the same source file
    ([Creator.cpp]), together with the service node of [Service.cpp], the
    dtype switch of [TypeDispatch.hpp], the constructor [JIT::JIT] with its
    pass pipelines, and (in [Module Earlier]) the dependency manager of the
    earlier text kept in the same source file (lines 730-1069).

    Conventions.
    - [uint64_t] values are integers of [Z]; where the source computes with
      them the wrap-around is written out as [to_uint64].
    - A C++ exception or a failed [assert] is a value [Err e]; assertions are
      modelled as enabled.
    - MLIR values, types and operations are first-order data: only what the
      dependency manager observes of them (type, rank, environments).
    - Callbacks are opaque identifiers; calling one is recorded as an event. *)

From Stdlib Require Import ZArith List String Ascii Lia Bool.
From stdpp Require Import base gmap list strings finite.

Local Open Scope Z_scope.

(** ** Machine integers *)

Definition to_uint64 (z : Z) : Z := z mod 2 ^ 64.

(** [reinterpret_cast<const int64_t *>] of a [uint64_t] word. *)
Definition to_int64 (z : Z) : Z :=
  let u := to_uint64 z in if u <? 2 ^ 63 then u else u - 2 ^ 64.

(** ** Failures *)

Inductive error : Type :=
| UnknownDtype        (* throw std::runtime_error("unknown dtype") *)
| UnknownGuid         (* Registry lookup miss *)
| UnknownService      (* "... unkown service operation requested." *)
| PassFailure         (* "failed to run pass manager" *)
| CompileFailure      (* assert(maybeEngine && ...) *)
| LookupFailure       (* "JIT invocation failed" *)
| InvariantViolation  (* a failed assert *)
| NullDereference.    (* use of a null mlir::Value or of a foreign type *)

(** The specification's section 4.3 calls the Registry miss observed through
    [getDependent] "MissingDependency"; its taxonomy (section 7) lists the
    same failure as UnknownGuid.  The code has one exception for both. *)
Definition MissingDependency : error := UnknownGuid.

Inductive result (A : Type) : Type :=
| Ok (a : A)
| Err (e : error).
Arguments Ok {A} a.
Arguments Err {A} e.

(** [result] is the error monad; [x ← r; k] is stdpp's bind notation. *)
#[global] Instance result_ret : MRet result := fun A a => Ok a.
#[global] Instance result_bind : MBind result := fun A B k r =>
  match r with
  | Ok a => k a
  | Err e => Err e
  end.

(** ** Element types and array types of the compiler IR *)

(** The dtype tags.  The enum's declaration is not among the sources; these
    are the enumerators [getTType] switches over, and [DTYPE_LAST], the
    sentinel [Deferred.hpp] uses for "no dtype". *)
Inductive DTypeId : Type :=
| FLOAT64 | FLOAT32
| INT64 | UINT64
| INT32 | UINT32
| INT16 | UINT16
| INT8 | UINT8
| BOOL
| DTYPE_LAST.

Inductive Signedness : Type := Signless | Signed | Unsigned.

Inductive Attribute : Type :=
| DistEnvAttr_rank (team : Z) (rank : Z)
| DistEnvAttr_parts (team : Z) (lOffs : list Z) (parts : list (list Z))
| GPUEnvAttr (device : string).

Inductive MType : Type :=
| F64Type
| F32Type
| IntegerType (width : Z) (sign : Signedness)
| PTensorType (shape : list Z) (elementType : MType) (envs : list Attribute).

(** [mlir::Builder] type constructors: all of them build signless integers. *)
Definition getF64Type : MType := F64Type.
Definition getF32Type : MType := F32Type.
Definition getIntegerType (width : Z) : MType := IntegerType width Signless.
Definition getI64Type : MType := getIntegerType 64.
Definition getI32Type : MType := getIntegerType 32.
Definition getI8Type : MType := getIntegerType 8.
Definition getI1Type : MType := getIntegerType 1.

Fixpoint makeSignlessType (type : MType) : MType :=
  match type with
  | PTensorType shape origElemType envs =>
      PTensorType shape (makeSignlessType origElemType) envs
  | IntegerType width sign =>
      match sign with
      | Signless => type
      | _ => IntegerType width Signless
      end
  | _ => type
  end.

(** No signed or unsigned integer type occurs in [t]. *)
Fixpoint is_signless (t : MType) : bool :=
  match t with
  | IntegerType _ Signless => true
  | IntegerType _ _ => false
  | PTensorType _ e _ => is_signless e
  | _ => true
  end.

Definition string_empty (s : string) : bool :=
  match s with
  | EmptyString => true
  | _ => false
  end.

Definition mkEnvs (rank : Z) (device : string) (team : Z) : list Attribute :=
  (if team =? 0 then [] else [DistEnvAttr_rank team rank]) ++
  (if string_empty device then [] else [GPUEnvAttr device]).

(** The switch of [getTType]. *)
Definition elementTypeOf (dtype : DTypeId) : result MType :=
  match dtype with
  | FLOAT64 => Ok getF64Type
  | FLOAT32 => Ok getF32Type
  | INT64 | UINT64 => Ok getI64Type
  | INT32 | UINT32 => Ok getI32Type
  | INT16 | UINT16 => Ok (getIntegerType 16)
  | INT8 | UINT8 => Ok getI8Type
  | BOOL => Ok getI1Type
  | DTYPE_LAST => Err UnknownDtype
  end.

(** convert ddpt's DTypeId into MLIR type *)
Definition getTType (dtype : DTypeId) (gShape lhShape ownShape rhShape : list Z)
    (device : string) (team : Z) (lOffs : list Z) : result MType :=
  etyp ← elementTypeOf dtype;
  let rank := length gShape in
  let envs := mkEnvs (Z.of_nat rank) device 0 in
  if negb (team =? 0) then
    if negb (Nat.eqb rank 0) then
      Ok (PTensorType gShape etyp
            (envs ++ [DistEnvAttr_parts team (map to_int64 (take rank lOffs))
                        [lhShape; ownShape; rhShape]]))
    else
      Ok (PTensorType [] etyp (envs ++ [DistEnvAttr_rank team 0]))
  else
    Ok (PTensorType ownShape etyp envs).

(** The dtypes the specification calls the closed supported set. *)
Definition supported (dtype : DTypeId) : bool :=
  match dtype with
  | DTYPE_LAST => false
  | _ => true
  end.

(** The element type the specification assigns to each dtype of the closed
    set (section 6, "Supported dtypes"); no type outside it. *)
Definition spec_element_type (dtype : DTypeId) : option MType :=
  match dtype with
  | INT64 | UINT64 => Some (IntegerType 64 Signless)
  | INT32 | UINT32 => Some (IntegerType 32 Signless)
  | INT16 | UINT16 => Some (IntegerType 16 Signless)
  | INT8 | UINT8 => Some (IntegerType 8 Signless)
  | BOOL => Some (IntegerType 1 Signless)
  | FLOAT32 => Some F32Type
  | FLOAT64 => Some F64Type
  | DTYPE_LAST => None
  end.

Definition elementTypeOfType (t : MType) : option MType :=
  match t with
  | PTensorType _ e _ => Some e
  | _ => None
  end.

(** ** Values, functions and the builder *)

Definition id_type : Type := Z.

(** An [mlir::Value]: null, an argument of the function being built, or the
    result of an operation a front-end created. *)
Inductive Value : Type :=
| NullValue
| BlockArgument (idx : nat) (ty : MType)
| OpResult (op : nat) (ty : MType).

Definition getType (v : Value) : option MType :=
  match v with
  | NullValue => None
  | BlockArgument _ ty => Some ty
  | OpResult _ ty => Some ty
  end.

(** The signature of [_func]: argument types and result types. *)
Record FuncOp : Type := mkFuncOp {
  fn_args : list MType;
  fn_results : list MType
}.

(** [insertArgument] and [insertResult] put the type before the element at
    [idx]; MLIR asserts [idx] is at most the current count
    ([DepManager_inv] below shows the manager never passes a larger one). *)
Definition insert_at {A : Type} (idx : nat) (x : A) (l : list A) : list A :=
  take idx l ++ x :: drop idx l.

Definition insertArgument (idx : nat) (typ : MType) (f : FuncOp) : FuncOp :=
  {| fn_args := insert_at idx typ (fn_args f); fn_results := fn_results f |}.

Definition insertResult (idx : nat) (typ : MType) (f : FuncOp) : FuncOp :=
  {| fn_args := fn_args f; fn_results := insert_at idx typ (fn_results f) |}.

Definition getArgument (idx : nat) (f : FuncOp) : Value :=
  match fn_args f !! idx with
  | Some ty => BlockArgument idx ty
  | None => NullValue
  end.

Inductive Operation : Type :=
| ConstantOp (res : nat) (attr : Z)
| CallOp (res : nat) (callee : string) (operands : list Value)
| ReturnOp (operands : list Value)
| FrontEndOp (res : nat).

(** The builder: the body of [jit_main] with the insertion point at its end,
    and the next free operation number. *)
Record OpBuilder : Type := mkOpBuilder {
  block : list Operation;
  next_op : nat
}.

(** ** Array handles and the Registry *)

(** What the manager reads of a future and of the array behind it
    ([DDPTensorImpl], whose header is not among the sources): the accessors
    [getDependent] and [store_inputs] call.  [descriptor] holds the words
    [add_to_args] appends. *)
Record Future : Type := mkFuture {
  dtype : DTypeId;
  ndims : nat;
  shape : list Z;
  local_shape : list Z;
  lh_shape : option (list Z);
  rh_shape : option (list Z);
  local_offsets : list Z;
  device : string;
  team : Z;
  descriptor : list Z
}.

Abbreviation Registry := (gmap Z Future).

(** Modelled from the spec: [Registry::get] and [Registry::del]
    ([Registry.cpp] is not among the sources).  Section 4.1: get "fails with
    UnknownGuid if absent"; del: "remove". *)
Definition Registry_get (reg : Registry) (guid : id_type) : result Future :=
  match reg !! guid with
  | Some fut => Ok fut
  | None => Err UnknownGuid
  end.

Definition Registry_del (reg : Registry) (guid : id_type) : Registry :=
  delete guid reg.

(** ** Sizes of returned descriptors *)

(** size of memreftype in number of intptr_t's *)
Definition memref_sz (rank : Z) : Z := 3 + 2 * rank.

(** Modelled from the spec: [ptensor_sz], declared in [jit/mlir.hpp], which is
    not among the sources.  Section 4.3: a distributed array of non-zero rank
    is returned as three memrefs (left halo, local data, right halo) followed
    by a rank-1 memref of local offsets; a local or 0-rank array as one
    memref. *)
Definition ptensor_sz (rank : Z) (isDist : bool) : Z :=
  if isDist && (0 <? rank) then 3 * memref_sz rank + memref_sz 1
  else memref_sz rank.

(** ** The dependency manager *)

(** Delivery and ready callbacks are closures of the front-ends; the manager
    only stores and calls them, so they are identified by a number. *)
Definition SetResFunc : Type := nat.
Definition ReadyFunc : Type := nat.

(** [imex::dist::isDist] (IMEX, outside the repository): a ptensor type is
    distributed when one of its environments is a distributed one. *)
Definition is_dist_env (a : Attribute) : bool :=
  match a with
  | GPUEnvAttr _ => false
  | _ => true
  end.

Definition isDist (t : MType) : bool :=
  match t with
  | PTensorType _ _ envs => existsb is_dist_env envs
  | _ => false
  end.

(** [type.cast<PTensorType>().getRank()]: the cast asserts the type is a
    ptensor type. *)
Definition getRank (t : MType) : result Z :=
  match t with
  | PTensorType shape _ _ => Ok (Z.of_nat (length shape))
  | _ => Err InvariantViolation
  end.

Record DepManager : Type := mkDepManager {
  _func : FuncOp;                      (* MLIR function to which ops are added *)
  _ivm : list (id_type * Value);       (* guid -> mlir::Value *)
  _icm : gmap Z SetResFunc;            (* guid -> deliver-callback *)
  _icr : gmap Z (list ReadyFunc);      (* guid -> ready-callbacks *)
  _irm : gmap Z (Z * bool);            (* guid -> (rank, isDist) *)
  _args : list (id_type * Future)      (* input arguments of the function *)
}.

(** Modelled from the spec: the container type of [_ivm], declared in
    [jit/mlir.hpp], which is not among the sources.  Section 3: "ordered
    mapping guid -> value ... insertion order is preserved".  The source uses
    [find], [operator[]], [erase] by key, [size] and iteration; here they are
    given on a list of pairs with distinct keys, kept in insertion order. *)
Fixpoint ivm_find (guid : id_type) (ivm : list (id_type * Value)) : option Value :=
  match ivm with
  | [] => None
  | (k, v) :: rest => if k =? guid then Some v else ivm_find guid rest
  end.

(** [_ivm[guid] = val]: overwrite in place, or append a new entry. *)
Fixpoint ivm_set (guid : id_type) (val : Value) (ivm : list (id_type * Value))
    : list (id_type * Value) :=
  match ivm with
  | [] => [(guid, val)]
  | (k, v) :: rest =>
      if k =? guid then (k, val) :: rest else (k, v) :: ivm_set guid val rest
  end.

Definition ivm_erase (guid : id_type) (ivm : list (id_type * Value))
    : list (id_type * Value) :=
  filter (λ kv, kv.1 ≠ guid) ivm.

Definition set_ivm (ivm : list (id_type * Value)) (dm : DepManager) : DepManager :=
  {| _func := _func dm; _ivm := ivm; _icm := _icm dm; _icr := _icr dm;
     _irm := _irm dm; _args := _args dm |}.

Definition set_icm (icm : gmap Z SetResFunc) (dm : DepManager) : DepManager :=
  {| _func := _func dm; _ivm := _ivm dm; _icm := icm; _icr := _icr dm;
     _irm := _irm dm; _args := _args dm |}.

Definition set_icr (icr : gmap Z (list ReadyFunc)) (dm : DepManager) : DepManager :=
  {| _func := _func dm; _ivm := _ivm dm; _icm := _icm dm; _icr := icr;
     _irm := _irm dm; _args := _args dm |}.

(** The manager of a new batch: section 4.2, "one function jit_main; no
    arguments, no results declared yet". *)
Definition new_DepManager : DepManager :=
  {| _func := mkFuncOp [] []; _ivm := []; _icm := ∅; _icr := ∅; _irm := ∅;
     _args := [] |}.

(** The first [n] elements of a C array. *)
Definition read_array (p : list Z) (n : nat) : list Z :=
  map (λ i, nth i p 0) (seq 0 n).

Definition read_array_or_zero (p : option (list Z)) (n : nat) : list Z :=
  map (λ i, match p with Some a => nth i a 0 | None => 0 end) (seq 0 n).

(** Lines 210-222 of [getDependent]: the type of the argument synthesised
    for the array behind a future. *)
Definition argument_type (fut : Future) : result MType :=
  let rank := ndims fut in
  let lhShape := read_array_or_zero (lh_shape fut) rank in
  let ownShape := read_array (local_shape fut) rank in
  let rhShape := read_array_or_zero (rh_shape fut) rank in
  getTType (dtype fut) (read_array (shape fut) rank)
    lhShape ownShape rhShape (device fut) (team fut) (local_offsets fut).

Definition getDependent (reg : Registry) (dm : DepManager) (guid : id_type)
    : result (Value * DepManager) :=
  match ivm_find guid (_ivm dm) with
  | None =>
      (* Not found -> this must be an input argument to the jit function *)
      let idx := length (_args dm) in
      fut ← Registry_get reg guid;
      typ ← argument_type fut;
      let func' := insertArgument idx typ (_func dm) in
      let val := getArgument idx func' in
      Ok (val,
          {| _func := func'; _ivm := ivm_set guid val (_ivm dm);
             _icm := _icm dm; _icr := _icr dm; _irm := _irm dm;
             _args := _args dm ++ [(guid, fut)] |})
  | Some v => Ok (v, dm)
  end.

Definition store_inputs_step (acc : list Z * DepManager) (a : id_type * Future)
    : list Z * DepManager :=
  let '(res, dm) := acc in
  (res ++ descriptor a.2,
   set_icm (delete a.1 (_icm dm)) (set_ivm (ivm_erase a.1 (_ivm dm)) dm)).

Definition store_inputs (dm : DepManager) : list Z * DepManager :=
  fold_left store_inputs_step (_args dm) ([], dm).

Definition addVal (dm : DepManager) (guid : id_type) (val : Value)
    (cb : SetResFunc) : result DepManager :=
  match ivm_find guid (_ivm dm) with
  | Some _ => Err InvariantViolation   (* assert(_ivm.find(guid) == _ivm.end()) *)
  | None =>
      Ok (set_icm (<[guid := cb]> (_icm dm))
            (set_ivm (ivm_set guid val (_ivm dm)) dm))
  end.

Definition addReady (dm : DepManager) (guid : id_type) (cb : ReadyFunc)
    : DepManager :=
  set_icr (<[guid := default [] (_icr dm !! guid) ++ [cb]]> (_icr dm)) dm.

(** [DepManager::drop] (the plain name is the list function of the library). *)
Definition DepManager_drop (reg : Registry) (dm : DepManager) (guid : id_type)
    : Registry * DepManager :=
  (Registry_del reg guid,
   set_icr (delete guid (_icr dm))
     (set_icm (delete guid (_icm dm))
        (set_ivm (ivm_erase guid (_ivm dm)) dm))).

(** *** handleResult *)

Fixpoint foldM {A B : Type} (f : B -> A -> result B) (l : list A) (b : B)
    : result B :=
  match l with
  | [] => Ok b
  | x :: rest => b' ← f b x; foldM f rest b'
  end.

(** The locals of [handleResult]'s loop, and the entries of [_ivm] already
    visited (their value cleared). *)
Record HRState : Type := mkHRState {
  hr_ret_values : list Value;
  hr_func : FuncOp;
  hr_irm : gmap Z (Z * bool);
  hr_sz : Z;
  hr_idx : nat;
  hr_ivm : list (id_type * Value)
}.

Definition handleResult_step (st : HRState) (v : id_type * Value)
    : result HRState :=
  match getType v.2 with
  | None => Err NullDereference
  | Some ty =>
      let isD := isDist ty in
      let idx := hr_idx st in
      rank ← getRank ty;
      Ok {| hr_ret_values := <[idx := v.2]> (hr_ret_values st);
            hr_func := insertResult idx ty (hr_func st);
            hr_irm := <[v.1 := (rank, isD)]> (hr_irm st);
            (* add sizes of tensor *)
            hr_sz := to_uint64 (hr_sz st + ptensor_sz rank isD);
            hr_idx := S idx;
            (* clear reference to MLIR value *)
            hr_ivm := hr_ivm st ++ [(v.1, NullValue)] |}
  end.

Definition create (op : nat -> Operation) (b : OpBuilder) : nat * OpBuilder :=
  (next_op b, {| block := block b ++ [op (next_op b)]; next_op := S (next_op b) |}).

(** The instrumentation added under [HAS_ITAC()]: a constant and a call of
    [VT_end] at the insertion point, a call of [VT_begin] at the start of the
    block; the guard puts the insertion point back. *)
Definition itac_wrap (vtExeSym : Z) (b : OpBuilder) : OpBuilder :=
  let '(c, b1) := create (λ n, ConstantOp n vtExeSym) b in
  let s := OpResult c (getIntegerType 32) in
  let '(_, b2) := create (λ n, CallOp n "VT_end" [s]) b1 in
  {| block := CallOp (next_op b2) "VT_begin" [s] :: block b2;
     next_op := S (next_op b2) |}.

(** [if (HAS_ITAC()) { ... }]: [itac] is [Some vtExeSym] when it holds. *)
Definition before_return (itac : option Z) (b : OpBuilder) : OpBuilder :=
  match itac with
  | Some vtExeSym => itac_wrap vtExeSym b
  | None => b
  end.

Definition handleResult (itac : option Z) (builder : OpBuilder) (dm : DepManager)
    : result (Z * OpBuilder * DepManager) :=
  st ← foldM handleResult_step (_ivm dm)
         {| hr_ret_values := replicate (length (_ivm dm)) NullValue;
            hr_func := _func dm; hr_irm := _irm dm; hr_sz := 0; hr_idx := 0%nat;
            hr_ivm := [] |};
  let builder1 := before_return itac builder in
  (* add return statement *)
  let '(_, builder2) := create (λ _, ReturnOp (hr_ret_values st)) builder1 in
  (* _ivm defines the order of return values -> do not clear *)
  Ok (to_uint64 (2 * hr_sz st), builder2,
      {| _func := hr_func st; _ivm := hr_ivm st; _icm := _icm dm;
         _icr := _icr dm; _irm := hr_irm st; _args := _args dm |}).

(** *** deliver *)

Record MemRefDescriptor : Type := mkMemRef {
  allocated : Z;
  aligned : Z;
  offset : Z;
  sizes : list Z;
  strides : list Z
}.

(** The lambda [getMR]: [buff] is the buffer from the current position on;
    [sizes] and [strides] point at [buff[3]] and [buff[3 + rank]], [rank]
    words each.  A read past the end of the buffer (undefined in C++) gives
    0 here. *)
Definition getMR (rank : Z) (buff : list Z) : MemRefDescriptor * Z :=
  ({| allocated := nth 0 buff 0;
      aligned := nth 1 buff 0;
      offset := nth 2 buff 0;
      sizes := take (Z.to_nat rank) (skipn 3 buff);
      strides := take (Z.to_nat rank) (skipn (3 + Z.to_nat rank) buff) |},
   memref_sz rank).

(** What [deliver] does to the outside: calls of callbacks.  A halo passed as
    [(nullptr, nullptr, 0, nullptr, nullptr)] and null local offsets are
    [None]. *)
Inductive Event : Type :=
| SetRes (cb : SetResFunc) (rank : Z)
    (lhsHalo : option MemRefDescriptor) (lData : MemRefDescriptor)
    (rhsHalo : option MemRefDescriptor)
    (lo_allocated lo_aligned : option Z)
| Ready (cb : ReadyFunc) (guid : id_type).

(** One result: decode it at [pos], call the callback, return the position
    after it.  [pos] is a [size_t] index into [outputV]; a position of 2^64
    or more cannot arise before a read past the end of the buffer, so it is
    kept as it is. *)
Definition deliver_entry (cb : SetResFunc) (rank : Z) (isD : bool)
    (output : list Z) (pos : Z) : Event * Z :=
  if (0 <? rank) && isD then
    let '(t0, n0) := getMR rank (skipn (Z.to_nat pos) output) in
    let pos := pos + n0 in
    let '(t1, n1) := getMR rank (skipn (Z.to_nat pos) output) in
    let pos := pos + n1 in
    let '(t2, n2) := getMR rank (skipn (Z.to_nat pos) output) in
    let pos := pos + n2 in
    (* lastly extract local offsets *)
    let lo_allocated := nth (Z.to_nat pos) output 0 in
    let lo_aligned := nth (Z.to_nat (pos + 1)) output 0 in
    let lo_offset := nth (Z.to_nat (pos + 2)) output 0 in
    (* no sizes/stride needed, just skip *)
    let pos := pos + memref_sz 1 in
    (SetRes cb rank (Some t0) t1 (Some t2)
       (Some lo_allocated) (Some (lo_aligned + 8 * lo_offset)), pos)
  else (* 0d tensor or non-dist *)
    let '(t1, n1) := getMR rank (skipn (Z.to_nat pos) output) in
    (SetRes cb rank None t1 None None None, pos + n1).

(** [_irm[guid]] read as [operator[]] does: (0, false) for a missing guid. *)
Definition irm_at (irm : gmap Z (Z * bool)) (guid : id_type) : Z * bool :=
  default (0, false) (irm !! guid).

Record DeliverState : Type := mkDeliverState {
  dl_pos : Z;
  dl_events : list Event;
  dl_irm : gmap Z (Z * bool)
}.

Definition deliver_step (icm : gmap Z SetResFunc) (output : list Z)
    (st : DeliverState) (r : id_type * Value) : result DeliverState :=
  let guid := r.1 in
  match icm !! guid with
  | Some cb =>
      (* _irm[guid]: a missing entry is created with (0, false) *)
      let tmp := irm_at (dl_irm st) guid in
      let '(ev, pos) := deliver_entry cb tmp.1 tmp.2 output (dl_pos st) in
      Ok {| dl_pos := pos; dl_events := dl_events st ++ [ev];
            dl_irm := <[guid := tmp]> (dl_irm st) |}
  | None => Err InvariantViolation   (* assert(false) *)
  end.

Definition ready_events (icr : gmap Z (list ReadyFunc)) : list Event :=
  flat_map (λ readyV, map (λ cb, Ready cb readyV.1) readyV.2) (map_to_list icr).

(** [deliver(outputV, sz)]: the events in call order, the number of words
    walked, and the manager ([_irm] may have gained default entries). *)
Definition deliver (dm : DepManager) (outputV : list Z) (sz : Z)
    : result (list Event * Z * DepManager) :=
  st ← foldM (deliver_step (_icm dm) outputV) (_ivm dm)
         {| dl_pos := 0; dl_events := []; dl_irm := _irm dm |};
  Ok (dl_events st ++ ready_events (_icr dm), dl_pos st,
      {| _func := _func dm; _ivm := _ivm dm; _icm := _icm dm; _icr := _icr dm;
         _irm := dl_irm st; _args := _args dm |}).

(** ** The JIT engine *)

(** What [JIT::run] uses of MLIR and LLVM, none of it code of the repository:
    - [sha1]: [llvm::raw_sha1_ostream] over the printed module, the 20-byte
      digest ([std::array<unsigned char, 20>]) read as a number, which is
      therefore below 2^160 ([sha1_range]);
    - [pm_run]: [_pm.run(module)], the lowered module or a failure;
    - [engine_create]: whether [mlir::ExecutionEngine::create] succeeds;
    - [lookupPacked]: whether the engine knows the symbol;
    - [compiled]: the words the compiled function writes through the result
      pointer, given the symbol and the input words;
    - [vt_decls]: the module with the two private declarations [VT_begin]
      and [VT_end] added. *)
Class Backend : Type := mkBackend {
  sha1 : string -> Z;
  sha1_range : forall text, 0 <= sha1 text < 2 ^ 160;
  pm_run : string -> option string;
  engine_create : string -> bool;
  lookupPacked : string -> string -> bool;
  compiled : string -> string -> list Z -> list Z;
  vt_decls : string -> string
}.

(** An execution engine: the lowered module it holds, and its identity, the
    number of engines built before it in the process. *)
Record ExecutionEngine : Type := mkEngine {
  engine_id : nat;
  engine_module : string
}.

(** The process-wide state of the engine: the function-local static
    [engineCache], and how many calls of [createExecutionEngine] have
    returned an engine. *)
Record JitState : Type := mkJitState {
  engineCache : gmap Z ExecutionEngine;
  engines_built : nat
}.

Definition new_JitState : JitState := {| engineCache := ∅; engines_built := 0 |}.

(** A module is its textual form, [module->print]. *)
Definition ModuleOp : Type := string.

(** [createExecutionEngine]: lowers the module in place and builds an engine
    from it.  Gives the engine, the lowered module and the new count. *)
Definition createExecutionEngine `{Backend} (built : nat) (module : ModuleOp)
    : result (ExecutionEngine * ModuleOp * nat) :=
  (* lower to LLVM *)
  match pm_run module with
  | None => Err PassFailure
  | Some lowered =>
      if engine_create lowered
      then Ok ({| engine_id := built; engine_module := lowered |}, lowered, S built)
      else Err CompileFailure
  end.

(** Lines 415-443 of [JIT::run]: the engine to call. *)
Definition run_engine `{Backend} (_useCache : bool) (st : JitState)
    (module : ModuleOp) : result (ExecutionEngine * ModuleOp * JitState) :=
  if _useCache then
    let cksm := sha1 module in
    match engineCache st !! cksm with
    | None =>
        '(engine, lowered, built) ← createExecutionEngine (engines_built st) module;
        Ok (engine, lowered,
            {| engineCache := <[cksm := engine]> (engineCache st);
               engines_built := built |})
    | Some engine => Ok (engine, module, st)
    end
  else
    '(engine, lowered, built) ← createExecutionEngine (engines_built st) module;
    Ok (engine, lowered,
        {| engineCache := engineCache st; engines_built := built |}).

(** An element of the packed argument vector: the address of the local that
    points at the output buffer, or of a slot of [inp]. *)
Inductive PackedArg : Type :=
| AddrOfOutput
| AddrOfInput (slot : nat).

(** Lines 454-466: pack function arguments. *)
Definition pack_args (osz : Z) (inp : list Z) : list PackedArg :=
  (* first arg must be the result ptr *)
  (if osz =? 0 then [] else [AddrOfOutput]) ++
  (* we need a void*& for every input tensor *)
  imap (λ i _, AddrOfInput i) inp.

(** Writing [ws] from the start of the buffer [out]; the buffer keeps its
    size (a write past its end is undefined in C++ and left out). *)
Definition write_words (ws out : list Z) : list Z :=
  take (length out) (ws ++ skipn (length ws) out).

(** The call through the packed entry point: results land in the buffer the
    first argument points at, if there is one. *)
Definition call_packed `{Backend} (engine : ExecutionEngine) (fname : string)
    (args : list PackedArg) (inp out : list Z) : list Z :=
  match args with
  | AddrOfOutput :: _ => write_words (compiled (engine_module engine) fname inp) out
  | _ => out
  end.

(** What a call of [JIT::run] leaves behind: the returned buffer, and for the
    statements below the engine it called, the argument vector it passed,
    the module as it left it and the process state. *)
Record RunResult : Type := mkRunResult {
  rr_out : list Z;
  rr_engine : ExecutionEngine;
  rr_args : list PackedArg;
  rr_module : ModuleOp;
  rr_state : JitState
}.

Definition run `{Backend} (has_itac _useCache : bool) (st : JitState)
    (module : ModuleOp) (fname : string) (inp : list Z) (osz : Z)
    : result RunResult :=
  let module := if has_itac then vt_decls module else module in
  '(engine, module, st) ← run_engine _useCache st module;
  if negb (lookupPacked (engine_module engine) ("_mlir_ciface_" +:+ fname))
  then Err LookupFailure
  else
    let args := pack_args osz inp in
    let out := replicate (Z.to_nat osz) 0 in
    (* call function *)
    let out := call_packed engine fname args inp out in
    Ok {| rr_out := out; rr_engine := engine; rr_args := args;
          rr_module := module; rr_state := st |}.

(** ** Creation front-ends ([Creator.cpp]) *)

(** The transceiver, as the front-ends see it: a non-null handle and its
    number of ranks ([getTransceiver()->nranks()]). *)
Record Transceiver : Type := mkTransceiver {
  handle : Z;
  nranks : Z
}.

Definition mkTeam (tc : Transceiver) (team : Z) : Z :=
  if negb (team =? 0) && (1 <? nranks tc) then 1 else 0.

(** The base of a deferred node.  [Creator.cpp] passes [(dtype, rank, team,
    balanced)] to its constructor and reads [_team] back in [generate_mlir];
    the header with that constructor is not among the sources (the
    [Deferred.hpp] there is an earlier text without the team), so the field
    is taken from those uses.  [_guid] starts as [Registry::NOGUID]. *)
Record Deferred : Type := mkDeferred {
  _guid : option id_type;
  _dtype : DTypeId;
  _rank : Z;
  _team : Z;
  _balanced : bool
}.

Definition Deferred_ctor (dt : DTypeId) (rank : Z) (team : Z) (balanced : bool)
    : Deferred :=
  {| _guid := None; _dtype := dt; _rank := rank; _team := team;
     _balanced := balanced |}.

(** The three creation nodes; [V] is [PyScalar], [F] is [double]. *)
Inductive CreatorNode (V F : Type) : Type :=
| DeferredFull (base : Deferred) (_shape : list Z) (_val : V)
| DeferredArange (base : Deferred) (_start _end _step : Z)
| DeferredLinspace (base : Deferred) (_start _end : F) (_num : Z) (_endpoint : bool).
Arguments DeferredFull {V F} base _shape _val.
Arguments DeferredArange {V F} base _start _end _step.
Arguments DeferredLinspace {V F} base _start _end _num _endpoint.

Definition node_base {V F : Type} (n : CreatorNode V F) : Deferred :=
  match n with
  | DeferredFull base _ _ => base
  | DeferredArange base _ _ _ => base
  | DeferredLinspace base _ _ _ _ => base
  end.

(** [Creator::full]; [v] is [mk_scalar(val, dtype)]. *)
Definition Creator_full {V F : Type} (tc : Transceiver) (shape : list Z) (v : V)
    (dtype : DTypeId) (team : Z) : CreatorNode V F :=
  DeferredFull (Deferred_ctor dtype (Z.of_nat (length shape)) (mkTeam tc team) true)
    shape v.

Definition Creator_arange {V F : Type} (tc : Transceiver) (start end_ step : Z)
    (dtype : DTypeId) (team : Z) : CreatorNode V F :=
  DeferredArange (Deferred_ctor dtype 1 (mkTeam tc team) true) start end_ step.

Definition Creator_linspace {V F : Type} (tc : Transceiver) (start end_ : F)
    (num : Z) (endpoint : bool) (dtype : DTypeId) (team : Z) : CreatorNode V F :=
  DeferredLinspace (Deferred_ctor dtype 1 (mkTeam tc team) true)
    start end_ num endpoint.

(** The team operand each [generate_mlir] hands to the creating operation:
    [_team == 0 ? mlir::Value() : createIndex(..., getTransceiver())].  A
    null operand ([None]) asks for a non-distributed array. *)
Definition team_operand {V F : Type} (tc : Transceiver) (n : CreatorNode V F)
    : option Z :=
  if _team (node_base n) =? 0 then None else Some (handle tc).

(** ** The service node ([Service.cpp]) *)

Inductive Op : Type := DROP | RUN | SERVICE_LAST.

(** [DeferredService::generate_mlir]: the returned flag, the value the
    promise was set to (if it was), the Registry and the manager. *)
Definition DeferredService_generate_mlir (_op : Op) (_a : id_type)
    (reg : Registry) (dm : DepManager)
    : result (bool * option bool * Registry * DepManager) :=
  match _op with
  | DROP =>
      let '(reg', dm') := DepManager_drop reg dm _a in
      Ok (false, Some true, reg', dm')
  | RUN => Ok (true, None, reg, dm)
  | SERVICE_LAST => Err UnknownService
  end.

(** ** A batch of manager calls *)

(** The calls front-ends make while the worker emits a batch. *)
Inductive Call : Type :=
| CallGetDependent (guid : id_type)
| CallAddVal (guid : id_type) (val : Value) (cb : SetResFunc)
| CallAddReady (guid : id_type) (cb : ReadyFunc)
| CallDrop (guid : id_type).

Definition do_call (st : Registry * DepManager) (c : Call)
    : result (Registry * DepManager) :=
  let '(reg, dm) := st in
  match c with
  | CallGetDependent guid =>
      '(_, dm') ← getDependent reg dm guid; Ok (reg, dm')
  | CallAddVal guid val cb => dm' ← addVal dm guid val cb; Ok (reg, dm')
  | CallAddReady guid cb => Ok (reg, addReady dm guid cb)
  | CallDrop guid => Ok (DepManager_drop reg dm guid)
  end.

Definition do_calls (calls : list Call) (st : Registry * DepManager)
    : result (Registry * DepManager) :=
  foldM do_call calls st.

(** ** Vocabulary of the statements *)

(** What [handleResult] reads of a value: its type, and the rank and the
    distribution flag of that type. *)
Definition result_info (v : Value) : option (MType * (Z * bool)) :=
  match getType v with
  | Some ty =>
      match getRank ty with
      | Ok rank => Some (ty, (rank, isDist ty))
      | Err _ => None
      end
  | None => None
  end.

(** The words of a sequence of results, each given by (rank, isDist). *)
Definition total_words (infos : list (Z * bool)) : Z :=
  foldr (λ i acc, ptensor_sz i.1 i.2 + acc) 0 infos.

(** The [SetRes] calls among events. *)
Definition is_SetRes (e : Event) : bool :=
  match e with
  | SetRes _ _ _ _ _ _ _ => true
  | Ready _ _ => false
  end.

(** The descriptor of rank [rank] that starts at word [p] of the buffer, in
    the specification's layout: allocated, aligned, offset, [rank] sizes,
    [rank] strides. *)
Definition memref_at (rank : Z) (output : list Z) (p : Z) : MemRefDescriptor :=
  {| allocated := nth (Z.to_nat p) output 0;
     aligned := nth (Z.to_nat (p + 1)) output 0;
     offset := nth (Z.to_nat (p + 2)) output 0;
     sizes := take (Z.to_nat rank) (skipn (Z.to_nat (p + 3)) output);
     strides := take (Z.to_nat rank) (skipn (Z.to_nat (p + 3 + rank)) output) |}.

(** A value a front-end may register without bringing a signed or unsigned
    integer type into the function. *)
Definition value_signless (v : Value) : Prop :=
  forall ty, getType v = Some ty -> is_signless ty = true.

Definition call_signless (c : Call) : Prop :=
  match c with
  | CallAddVal _ val _ => value_signless val
  | _ => True
  end.

(** The states of the engine cache over the life of a process: any number
    of calls of [JIT::run], cached or not, that got to an engine. *)
Inductive jit_reaches `{Backend} : JitState -> JitState -> Prop :=
| reaches_refl st : jit_reaches st st
| reaches_run st st1 st2 useCache module engine module' :
    jit_reaches st st1 ->
    run_engine useCache st1 module = Ok (engine, module', st2) ->
    jit_reaches st st2.

(** A call that does not drop [guid]. *)
Definition keeps (guid : id_type) (c : Call) : Prop :=
  match c with
  | CallDrop g => g <> guid
  | _ => True
  end.

(** What holds of the manager at every point of a batch. *)
Record batch_inv (dm : DepManager) : Prop := mk_batch_inv {
  (* the declared arguments are the types of the futures of _args, in order *)
  inv_args : Forall2 (λ t a, argument_type a.2 = Ok t) (fn_args (_func dm)) (_args dm);
  (* no result is declared before handleResult *)
  inv_results : fn_results (_func dm) = [];
  (* a guid has one entry in _ivm *)
  inv_nodup : NoDup (_ivm dm).*1;
  (* an entry of _ivm is an imported argument or has a delivery callback *)
  inv_owner : forall g, g ∈ (_ivm dm).*1 ->
                        g ∈ (_args dm).*1 \/ is_Some (_icm dm !! g)
}.

(** Engines of the cache were built by this process, and two keys never
    hold the same engine. *)
Definition jit_inv (st : JitState) : Prop :=
  (forall k e, engineCache st !! k = Some e -> (engine_id e < engines_built st)%nat) /\
  (forall k1 k2 e1 e2,
     engineCache st !! k1 = Some e1 -> engineCache st !! k2 = Some e2 ->
     engine_id e1 = engine_id e2 -> k1 = k2).

(** ** Dispatch on the dtype ([TypeDispatch.hpp]) *)

(** The C++ types [dispatch] reinterprets the pointer at. *)
Inductive CType : Type :=
| c_double | c_float
| c_int64_t | c_int32_t | c_int16_t | c_int8_t
| c_uint64_t | c_uint32_t | c_uint16_t | c_uint8_t
| c_bool.

(** [dispatch(dt, ptr, func)]: [func] is called with the pointer cast to the
    type that goes with [dt]; any other tag is "unknown dtype". *)
Definition dispatch {P R : Type} (dt : DTypeId) (ptr : P) (func : CType -> P -> R)
    : result R :=
  match dt with
  | FLOAT64 => Ok (func c_double ptr)
  | FLOAT32 => Ok (func c_float ptr)
  | INT64 => Ok (func c_int64_t ptr)
  | INT32 => Ok (func c_int32_t ptr)
  | INT16 => Ok (func c_int16_t ptr)
  | INT8 => Ok (func c_int8_t ptr)
  | UINT64 => Ok (func c_uint64_t ptr)
  | UINT32 => Ok (func c_uint32_t ptr)
  | UINT16 => Ok (func c_uint16_t ptr)
  | UINT8 => Ok (func c_uint8_t ptr)
  | BOOL => Ok (func c_bool ptr)
  | DTYPE_LAST => Err UnknownDtype
  end.

(** What C++ fixes of these types: [std::is_floating_point_v], and the
    number of value bits ([bool] holds one). *)
Definition is_floating_point (c : CType) : bool :=
  match c with
  | c_double | c_float => true
  | _ => false
  end.

Definition value_bits (c : CType) : Z :=
  match c with
  | c_double | c_int64_t | c_uint64_t => 64
  | c_float | c_int32_t | c_uint32_t => 32
  | c_int16_t | c_uint16_t => 16
  | c_int8_t | c_uint8_t => 8
  | c_bool => 1
  end.

(** The signless IR type with the bits of a C++ type. *)
Definition signless_type_of (c : CType) : MType :=
  if is_floating_point c then
    if value_bits c =? 64 then F64Type else F32Type
  else IntegerType (value_bits c) Signless.

(** ** Construction of the engine ([JIT::JIT]) *)

Definition cpu_pipeline : string :=
  String.concat ""
    ["ptensor-dist,";
     "func.func(dist-coalesce),";
     "func.func(dist-infer-elementwise-cores),";
     "convert-dist-to-standard,";
     "canonicalize,";
     "overlap-comm-and-compute,";
     "add-comm-cache-keys,";
     "lower-distruntime-to-idtr,";
     "convert-ptensor-to-linalg,";
     "canonicalize,";
     "func.func(tosa-to-linalg),";
     "func.func(tosa-to-tensor),";
     "canonicalize,";
     "linalg-fuse-elementwise-ops,";
     "arith-expand,";
     "memref-expand,";
     "arith-bufferize,";
     "func.func(empty-tensor-to-alloc-tensor),";
     "func.func(scf-bufferize),";
     "func.func(tensor-bufferize),";
     "func.func(bufferization-bufferize),";
     "func.func(linalg-bufferize),";
     "func.func(linalg-detensorize),";
     "func.func(tensor-bufferize),";
     "func.func(finalizing-bufferize),";
     "func.func(buffer-deallocation),";
     "imex-remove-temporaries,";
     "func.func(convert-linalg-to-parallel-loops),";
     "func.func(scf-parallel-loop-fusion),";
     "canonicalize,";
     "fold-memref-alias-ops,";
     "expand-strided-metadata,";
     "convert-math-to-funcs,";
     "lower-affine,";
     "convert-scf-to-cf,";
     "finalize-memref-to-llvm,";
     "convert-math-to-llvm,";
     "convert-math-to-libm,";
     "convert-func-to-llvm,";
     "reconcile-unrealized-casts"].

Definition gpu_pipeline : string :=
  String.concat ""
    ["ptensor-dist,";
     "func.func(dist-coalesce),";
     "func.func(dist-infer-elementwise-cores),";
     "convert-dist-to-standard,";
     "canonicalize,";
     "overlap-comm-and-compute,";
     "add-comm-cache-keys,";
     "lower-distruntime-to-idtr,";
     "convert-ptensor-to-linalg,";
     "canonicalize,";
     "func.func(tosa-make-broadcastable),";
     "func.func(tosa-to-linalg),";
     "func.func(tosa-to-tensor),";
     "canonicalize,";
     "linalg-fuse-elementwise-ops,";
     "arith-expand,";
     "memref-expand,";
     "arith-bufferize,";
     "func-bufferize,";
     "func.func(empty-tensor-to-alloc-tensor),";
     "func.func(scf-bufferize),";
     "func.func(tensor-bufferize),";
     "func.func(bufferization-bufferize),";
     "func.func(linalg-bufferize),";
     "func.func(linalg-detensorize),";
     "func.func(tensor-bufferize),";
     "func.func(finalizing-bufferize),";
     "imex-remove-temporaries,";
     "func.func(convert-linalg-to-parallel-loops),";
     "func.func(scf-parallel-loop-fusion),";
     "func.func(imex-add-outer-parallel-loop),";
     "func.func(gpu-map-parallel-loops),";
     "func.func(convert-parallel-loops-to-gpu),";
     "func.func(insert-gpu-allocs{client-api=opencl}),";
     "canonicalize,";
     "normalize-memrefs,";
     "func.func(lower-affine),";
     "gpu-kernel-outlining,";
     "canonicalize,";
     "cse,";
     "set-spirv-capabilities{client-api=opencl},";
     "gpu.module(set-spirv-abi-attrs{client-api=opencl}),";
     "canonicalize,";
     "fold-memref-alias-ops,";
     "imex-convert-gpu-to-spirv,";
     "spirv.module(spirv-lower-abi-attrs),";
     "spirv.module(spirv-update-vce),";
     "serialize-spirv,";
     "expand-strided-metadata,";
     "lower-affine,";
     "convert-gpu-to-gpux,";
     "convert-func-to-llvm,";
     "convert-math-to-llvm,";
     "convert-gpux-to-llvm,";
     "finalize-memref-to-llvm,";
     "reconcile-unrealized-casts"].

(** What the constructor takes from outside the repository: the environment
    ([getenv], [None] for a null pointer), [std::stoi] ([None] when it
    throws), whether a pipeline text parses, the two roots fixed at build
    time, and whether LLVM finds the host and builds a target machine. *)
Record Host : Type := mkHost {
  getenv : string -> option string;
  stoi : string -> option Z;
  parsePassPipeline : string -> bool;
  CMAKE_MLIR_ROOT : string;
  CMAKE_IMEX_ROOT : string;
  detectHost : bool;
  createTargetMachine : bool
}.

(** The static [pass_pipeline]. *)
Definition pass_pipeline (h : Host) : string :=
  match getenv h "DDPT_PASSES" with
  | Some passes => passes
  | None =>
      match getenv h "DDPT_USE_GPU" with
      | Some _ => gpu_pipeline
      | None => cpu_pipeline
      end
  end.

Inductive ctor_error : Type :=
| PipelineParseFailure          (* "failed to parse pass pipeline" *)
| StoiFailure                   (* std::invalid_argument, std::out_of_range *)
| BadOptLevel (ol_ : string)    (* "Bad optimization level: " + ol_ *)
| NoTargetMachineBuilder        (* "Failed to create a JITTargetMachineBuilder ..." *)
| NoTargetMachine.              (* "Failed to create a TargetMachine ..." *)

(** The members the constructor sets, and what it switched on in the pass
    manager.  [_optPipeline] is given by the two levels it was made with.
    What it writes to [std::cerr] is left out. *)
Record JIT : Type := mkJIT {
  _pm : string;
  pm_timing : bool;
  pm_ir_printing : bool;
  _verbose : Z;
  _jit_opt_level : Z;
  _useCache : bool;
  _crunnerlib : string;
  _runnerlib : string;
  _gpulib : string;
  _sharedLibPaths : list string;
  _optPipeline : Z * Z
}.

(** Lines 638-641: [_verbose], 0 unless [DDPT_VERBOSE] is set. *)
Definition read_verbose (h : Host) : ctor_error + Z :=
  match getenv h "DDPT_VERBOSE" with
  | Some v_ =>
      match stoi h v_ with
      | Some v => inr v
      | None => inl StoiFailure
      end
  | None => inr 0
  end.

(** Lines 654-660. *)
Definition read_useCache (h : Host) : bool :=
  let c := default "1" (getenv h "DDPT_USE_CACHE") in
  String.eqb c "1" || String.eqb c "y" || String.eqb c "Y" ||
  String.eqb c "on" || String.eqb c "ON".

(** Lines 661-667: [_jit_opt_level], 3 unless [DDPT_OPT_LEVEL] is set. *)
Definition read_opt_level (h : Host) : ctor_error + Z :=
  match getenv h "DDPT_OPT_LEVEL" with
  | Some ol_ =>
      match stoi h ol_ with
      | Some level =>
          if (level <? 0) || (3 <? level) then inl (BadOptLevel ol_)
          else inr level
      | None => inl StoiFailure
      end
  | None => inr 3
  end.

(** Lines 677-691: [_gpulib] and [_sharedLibPaths]. *)
Definition read_libs (h : Host) (crunnerlib runnerlib : string)
    : string * list string :=
  let idtrlib := default "libidtr.so" (getenv h "DDPT_IDTR_SO") in
  match getenv h "DDPT_USE_GPU" with
  | Some _ =>
      let gpulib :=
        match getenv h "DDPT_GPUX_SO" with
        | Some gpuxlibstr => gpuxlibstr
        | None =>
            default (CMAKE_IMEX_ROOT h) (getenv h "IMEXROOT")
              +:+ "/lib/liblevel-zero-runtime.so"
        end in
      (gpulib, [crunnerlib; runnerlib; idtrlib; gpulib])
  | None => ("", [crunnerlib; runnerlib; idtrlib])
  end.

Definition JIT_ctor (h : Host) : ctor_error + JIT :=
  (* create the pass pipeline from string *)
  if negb (parsePassPipeline h (pass_pipeline h)) then inl PipelineParseFailure
  else
    match read_verbose h with
    | inl e => inl e
    | inr verbose =>
        (* some verbosity *)
        let timing := negb (verbose =? 0) && (2 <? verbose) in
        let ir_printing := negb (verbose =? 0) && (3 <? verbose) in
        let useCache := read_useCache h in
        match read_opt_level h with
        | inl e => inl e
        | inr opt_level =>
            let mlirRoot := default (CMAKE_MLIR_ROOT h) (getenv h "MLIRROOT") in
            let crunnerlib := mlirRoot +:+ "/lib/libmlir_c_runner_utils.so" in
            let runnerlib := mlirRoot +:+ "/lib/libmlir_runner_utils.so" in
            let '(gpulib, libs) := read_libs h crunnerlib runnerlib in
            (* detect target architecture *)
            if negb (detectHost h) then inl NoTargetMachineBuilder
            (* build TargetMachine *)
            else if negb (createTargetMachine h) then inl NoTargetMachine
            else
              inr {| _pm := pass_pipeline h; pm_timing := timing;
                     pm_ir_printing := ir_printing; _verbose := verbose;
                     _jit_opt_level := opt_level; _useCache := useCache;
                     _crunnerlib := crunnerlib; _runnerlib := runnerlib;
                     _gpulib := gpulib; _sharedLibPaths := libs;
                     (* build optimizing pipeline *)
                     _optPipeline := (opt_level, 0) |}
        end
    end.

(** ** More of the front-ends and of the service node *)

(** [DeferredArange::generate_mlir], lines 1202-1206 of the source file: the
    number of elements and the stop value handed to the creating operation.
    [_start], [_end] and [_step] are [uint64_t], so the sum wraps around and
    [_step < 0] compares an unsigned number.  [None]: a division by zero. *)
Definition DeferredArange_num (_start _end _step : Z) : option Z :=
  if _step =? 0 then None
  else
    Some (to_uint64 (_end - _start + _step +
                     (if to_uint64 _step <? 0 then 1 else -1)) / _step).

Definition DeferredArange_stop (_start _num _step : Z) : Z :=
  to_uint64 (_start + _num * _step).

(** [DeferredService::run]: the value the promise is set to. *)
Definition DeferredService_run (_op : Op) : result bool :=
  match _op with
  | RUN => Ok true
  | _ => Err UnknownService
  end.

(** ** The earlier text of [jit/mlir.cpp]

    The source file holds, after the current text, an earlier text of the
    same file (lines 730-1069).  In it an array is returned as one memref,
    [handleResult] reports the words themselves, and the manager keeps the
    rank of an imported array instead of its future.  Its header is not
    among the sources: of [_ivm] only what holds for every container is
    used, iteration (the list is the sequence of its entries) and erasure
    by key; [getDependent] and [addVal], which insert into it, are left
    out. *)
Module Earlier.

(** [int] has 32 bits: an integer converted to [int] keeps its low 32 bits,
    read in two's complement. *)
Definition to_int32 (z : Z) : Z :=
  let u := z mod 2 ^ 32 in if u <? 2 ^ 31 then u else u - 2 ^ 32.

(** A ranked tensor type, and the types of values: such a tensor, or the
    ptensor type that wraps one,
    [PTensorType::get(ctx, rtensor, onDevice, dist)]. *)
Record RankedTensorType : Type := mkRankedTensorType {
  getShape : list Z;
  getElementType : MType
}.

Inductive Type_ : Type :=
| TensorType (t : RankedTensorType)
| PTensorType (getRtensor : RankedTensorType) (onDevice dist : bool).

(** The switch of [getPTType]. *)
Definition elementTypeOf (dtype : DTypeId) : result MType :=
  match dtype with
  | FLOAT64 => Ok getF64Type
  | FLOAT32 => Ok getF32Type
  | INT64 | UINT64 => Ok getI64Type
  | INT32 | UINT32 => Ok getI32Type
  | INT16 | UINT16 => Ok (getIntegerType 16)
  | INT8 | UINT8 => Ok getI8Type
  | BOOL => Ok getI1Type
  | DTYPE_LAST => Err UnknownDtype
  end.

(** How [getPTType] fails. *)
Inductive getPTType_error : Type :=
| unknown_dtype    (* throw std::runtime_error("unknown dtype") *)
| size_overflow.   (* SmallVector: a size above the maximum of its size type *)

(** [getPTType(builder, dtype, int rank)].  The switch comes first.  Then
    [llvm::SmallVector<int64_t> shape(rank, -1)] takes its size as a
    [size_t], so that a negative [rank] arrives as [2^64 + rank]; a
    [SmallVector<int64_t>] counts its elements in 32 bits and gives up on a
    larger size.  Otherwise the shape is [rank] dynamic sizes. *)
Definition getPTType (dtype : DTypeId) (rank : Z) : getPTType_error + Type_ :=
  match elementTypeOf dtype with
  | Err _ => inl unknown_dtype
  | Ok etyp =>
      let size := to_uint64 rank in
      if 2 ^ 32 <=? size then inl size_overflow
      else
        let shape := replicate (Z.to_nat size) (-1) in
        inr (PTensorType (mkRankedTensorType shape etyp) false true)
  end.

Inductive Value : Type :=
| NullValue
| BlockArgument (idx : nat) (ty : Type_)
| OpResult (op : nat) (ty : Type_).

Definition getType (v : Value) : option Type_ :=
  match v with
  | NullValue => None
  | BlockArgument _ ty => Some ty
  | OpResult _ ty => Some ty
  end.

Record FuncOp : Type := mkFuncOp {
  fn_args : list Type_;
  fn_results : list Type_
}.

Definition insertResult (idx : nat) (typ : Type_) (f : FuncOp) : FuncOp :=
  {| fn_args := fn_args f; fn_results := insert_at idx typ (fn_results f) |}.

Inductive Operation : Type :=
| ExtractRTensorOp (res : nat) (resultType : RankedTensorType) (input : Value)
| ReturnOp (operands : list Value).

Record OpBuilder : Type := mkOpBuilder {
  block : list Operation;
  next_op : nat
}.

(** What the manager uses of a future and of the array behind it: the
    words [store_memref(buff, rank)] writes.  [rank()] is an [int]. *)
Record Future : Type := mkFuture {
  dtype : DTypeId;
  rank : Z;
  store_memref : Z -> list Z
}.

(** [Registry::get], as for the current text. *)
Definition Registry_get (reg : gmap Z Future) (guid : id_type) : result Future :=
  match reg !! guid with
  | Some fut => Ok fut
  | None => Err UnknownGuid
  end.

Record DepManager : Type := mkDepManager {
  _func : FuncOp;
  (* guid -> (value, deliver-callback); no callback for an imported array *)
  _ivm : list (id_type * (Value * option SetResFunc));
  (* guid -> rank, kept as [handleResult] computes it: the mapped type is
     declared in the header *)
  _irm : gmap Z Z;
  _args : list (id_type * Z)           (* (guid, rank) of the arguments *)
}.

Definition set_ivm (ivm : list (id_type * (Value * option SetResFunc)))
    (dm : DepManager) : DepManager :=
  {| _func := _func dm; _ivm := ivm; _irm := _irm dm; _args := _args dm |}.

(** [static inline uint64_t memref_sz(int rank) { return 3 + 2 * rank; }]:
    the argument is converted to [int], the sum is computed in [int] and
    then widened to [uint64_t], so that a negative sum becomes a number
    just below 2^64.  Where the sum leaves the range of [int] the language
    leaves the result open; the two's complement result is taken here. *)
Definition memref_sz (rank : Z) : Z := to_uint64 (to_int32 (3 + 2 * rank)).

Definition arg_size (dm : DepManager) : Z :=
  fold_left (λ sz a, to_uint64 (sz + memref_sz a.2)) (_args dm) 0.

(** How [store_inputs] fails. *)
Inductive store_inputs_error : Type :=
| unknown_guid            (* Registry::get on a guid it does not hold *)
| bad_array_new_length.   (* new intptr_t[n] with 8 * n above the range of size_t *)

(** [store_inputs]: per argument the future is looked up, which throws for
    a guid that has left the Registry; then a new buffer of
    [memref_sz(rank)] words is allocated, which throws when the number of
    bytes does not fit [size_t] and is taken to succeed otherwise, and
    filled by [store_memref]; what that call does not write is taken as
    0. *)
Definition store_inputs_step (reg : gmap Z Future)
    (acc : list (list Z) * DepManager) (a : id_type * Z)
    : store_inputs_error + (list (list Z) * DepManager) :=
  let '(res, dm) := acc in
  match Registry_get reg a.1 with
  | Err _ => inl unknown_guid
  | Ok f =>
      let n := memref_sz a.2 in
      if 2 ^ 64 <=? 8 * n then inl bad_array_new_length
      else
        let buff := write_words (store_memref f a.2) (replicate (Z.to_nat n) 0) in
        inr (res ++ [buff],
             (* inputs need no delivery *)
             set_ivm (filter (λ kv, kv.1 ≠ a.1) (_ivm dm)) dm)
  end.

Fixpoint store_inputs_loop (reg : gmap Z Future) (args : list (id_type * Z))
    (acc : list (list Z) * DepManager)
    : store_inputs_error + (list (list Z) * DepManager) :=
  match args with
  | [] => inr acc
  | a :: rest =>
      match store_inputs_step reg acc a with
      | inr acc' => store_inputs_loop reg rest acc'
      | inl e => inl e
      end
  end.

Definition store_inputs (reg : gmap Z Future) (dm : DepManager)
    : store_inputs_error + (list (list Z) * DepManager) :=
  store_inputs_loop reg (_args dm) ([], dm).

Definition drop (dm : DepManager) (guid : id_type) : DepManager :=
  set_ivm (filter (λ kv, kv.1 ≠ guid) (_ivm dm)) dm.

Record HRState : Type := mkHRState {
  hr_ret_values : list Value;
  hr_func : FuncOp;
  hr_irm : gmap Z Z;
  hr_sz : Z;
  hr_idx : nat;
  hr_builder : OpBuilder
}.

Definition handleResult_step (st : HRState)
    (v : id_type * (Value * option SetResFunc)) : result HRState :=
  let value := v.2.1 in
  match getType value with
  | None => Err NullDereference
  | Some (PTensorType rtensor _ _) =>
      (* append the type and array/value; the dump of the function type to
         stderr is not kept *)
      let b := hr_builder st in
      let retValue := OpResult (next_op b) (TensorType rtensor) in
      let idx := hr_idx st in
      let rank := Z.of_nat (length (getShape rtensor)) in
      Ok {| hr_ret_values := <[idx := retValue]> (hr_ret_values st);
            hr_func := insertResult idx (TensorType rtensor) (hr_func st);
            hr_irm := <[v.1 := rank]> (hr_irm st);
            (* add sizeof(MemRefDescriptor<elementtype, rank>) to sz *)
            hr_sz := to_uint64 (hr_sz st + memref_sz rank);
            hr_idx := S idx;
            hr_builder :=
              {| block := block b ++ [ExtractRTensorOp (next_op b) rtensor value];
                 next_op := S (next_op b) |} |}
  | Some (TensorType _) => Err InvariantViolation   (* assert(retPtTyp) *)
  end.

Definition handleResult (builder : OpBuilder) (dm : DepManager)
    : result (Z * OpBuilder * DepManager) :=
  st ← foldM handleResult_step (_ivm dm)
         {| hr_ret_values := replicate (length (_ivm dm)) NullValue;
            hr_func := _func dm; hr_irm := _irm dm; hr_sz := 0; hr_idx := 0%nat;
            hr_builder := builder |};
  (* add return statement *)
  let b := hr_builder st in
  Ok (hr_sz st,
      {| block := block b ++ [ReturnOp (hr_ret_values st)]; next_op := S (next_op b) |},
      {| _func := hr_func st; _ivm := _ivm dm; _irm := hr_irm st;
         _args := _args dm |}).

(** A call of a delivery callback: [cb(rank, allocated, aligned, offset,
    sizes, stride)]. *)
Inductive Event : Type :=
| SetRes (cb : SetResFunc) (rank : Z) (memref : MemRefDescriptor).

Inductive deliver_error : Type :=
| bad_function_call.    (* the call of an empty std::function *)

Record DeliverState : Type := mkDeliverState {
  dl_pos : Z;
  dl_events : list Event;
  dl_irm : gmap Z Z
}.

Definition deliver_step (output : list Z) (st : DeliverState)
    (v : id_type * (Value * option SetResFunc)) : deliver_error + DeliverState :=
  (* _irm[v.first]: a missing entry is created with 0 *)
  let rank := default 0 (dl_irm st !! v.1) in
  let pos := dl_pos st in
  let memref :=
    {| allocated := nth (Z.to_nat pos) output 0;
       aligned := nth (Z.to_nat (pos + 1)) output 0;
       offset := nth (Z.to_nat (pos + 2)) output 0;
       sizes := take (Z.to_nat rank) (skipn (Z.to_nat (pos + 3)) output);
       strides := take (Z.to_nat rank) (skipn (Z.to_nat (pos + 3 + rank)) output) |} in
  match v.2.2 with
  | Some cb =>
      (* pos is a size_t *)
      inr {| dl_pos := to_uint64 (pos + memref_sz rank);
             dl_events := dl_events st ++ [SetRes cb rank memref];
             dl_irm := <[v.1 := rank]> (dl_irm st) |}
  | None => inl bad_function_call
  end.

Fixpoint deliver_loop (output : list Z)
    (ivm : list (id_type * (Value * option SetResFunc))) (st : DeliverState)
    : deliver_error + DeliverState :=
  match ivm with
  | [] => inr st
  | v :: rest =>
      match deliver_step output st v with
      | inr st' => deliver_loop output rest st'
      | inl e => inl e
      end
  end.

Definition deliver (dm : DepManager) (output : list Z) (sz : Z)
    : deliver_error + (list Event * Z * DepManager) :=
  match deliver_loop output (_ivm dm)
          {| dl_pos := 0; dl_events := []; dl_irm := _irm dm |} with
  | inr st =>
      inr (dl_events st, dl_pos st,
           {| _func := _func dm; _ivm := _ivm dm; _irm := dl_irm st;
              _args := _args dm |})
  | inl e => inl e
  end.

End Earlier.

(** ** Vocabulary of the further statements *)

(** The ready callbacks that the events call for [guid], in call order. *)
Definition ready_calls_of (guid : id_type) (events : list Event) : list ReadyFunc :=
  omap (λ e, match e with
             | Ready cb g => if g =? guid then Some cb else None
             | SetRes _ _ _ _ _ _ _ => None
             end) events.

(** The ready callbacks in force for [guid] after a sequence of calls: each
    [addReady] of the guid adds one at the end, a [drop] of the guid
    forgets them. *)
Definition ready_step (guid : id_type) (cbs : list ReadyFunc) (c : Call)
    : list ReadyFunc :=
  match c with
  | CallAddReady g cb => if g =? guid then cbs ++ [cb] else cbs
  | CallDrop g => if g =? guid then [] else cbs
  | _ => cbs
  end.

Definition ready_after (guid : id_type) (calls : list Call) : list ReadyFunc :=
  fold_left (ready_step guid) calls [].

(** The words of the values of [_ivm] that have a ptensor type. *)
Definition result_words (ivm : list (id_type * Value)) : Z :=
  total_words (omap (λ kv, snd <$> result_info kv.2) ivm).

(** Successive calls of [JIT::run], as far as the choice of the engine. *)
Definition run_engines `{Backend} (useCache : bool) (modules : list ModuleOp)
    (st : JitState) : result JitState :=
  foldM (λ st module, '(_, _, st') ← run_engine useCache st module; Ok st')
    modules st.

(** ** Sample inputs

    The batch of scenarios S2 and S3 of the specification in one: an array
    [1] found in the Registry is imported, a local rank-1 array [3] and a
    distributed rank-1 array [4] are created, a ready callback is attached
    to [3]. *)

Definition sample_future : Future :=
  {| dtype := UINT32; ndims := 1; shape := [10]; local_shape := [10];
     lh_shape := None; rh_shape := None; local_offsets := [0];
     device := ""; team := 0; descriptor := [4096; 4096; 0; 10; 1] |}.

Definition sample_unknown_future : Future :=
  {| dtype := DTYPE_LAST; ndims := 0; shape := []; local_shape := [];
     lh_shape := None; rh_shape := None; local_offsets := [];
     device := ""; team := 0; descriptor := [8192; 8192; 0] |}.

Definition sample_registry : Registry :=
  <[1 := sample_future]> (<[2 := sample_unknown_future]> ∅).

Definition sample_value : Value :=
  OpResult 0 (PTensorType [10] (IntegerType 32 Signless) []).

Definition sample_dist_value : Value :=
  OpResult 1 (PTensorType [10] F64Type [DistEnvAttr_rank 1 1]).

Definition sample_calls : list Call :=
  [CallGetDependent 1; CallAddVal 3 sample_value 30%nat;
   CallAddVal 4 sample_dist_value 40%nat; CallAddReady 3 31%nat].

Definition sample_builder : OpBuilder := {| block := []; next_op := 2 |}.

Definition sample_dm1 : DepManager :=
  Eval vm_compute in
    match do_calls sample_calls (sample_registry, new_DepManager) with
    | Ok (_, dm) => dm
    | Err _ => new_DepManager
    end.

Definition sample_dm2 : DepManager := Eval vm_compute in (store_inputs sample_dm1).2.

Definition sample_builder3 : OpBuilder :=
  Eval vm_compute in
    match handleResult None sample_builder sample_dm2 with
    | Ok (_, b, _) => b
    | Err _ => sample_builder
    end.

Definition sample_dm3 : DepManager :=
  Eval vm_compute in
    match handleResult None sample_builder sample_dm2 with
    | Ok (_, _, dm) => dm
    | Err _ => sample_dm2
    end.

(** A flat output buffer of 50 words: word [i] holds [100 + i]. *)
Definition sample_output : list Z := Eval vm_compute in map Z.of_nat (seq 100 50).

(** A stand-in for the external parts: the digest of a text is its length
    (reduced to 160 bits),
    lowering prefixes the text, engines and symbols are always found, the
    compiled function writes three words. *)
Definition sample_backend : Backend :=
  {| sha1 := λ s, Z.of_nat (String.length s) mod 2 ^ 160;
     sha1_range := λ s, Z.mod_pos_bound _ (2 ^ 160) eq_refl;
     pm_run := λ s, Some ("llvm " +:+ s);
     engine_create := λ _, true;
     lookupPacked := λ _ _, true;
     compiled := λ _ _ _, [7; 8; 9];
     vt_decls := λ s, s +:+ " vt" |}.

(** SHA-1 (FIPS 180-4), the digest [llvm::raw_sha1_ostream] computes over
    the bytes printed to it. *)
Module SHA1.

Definition w32 (z : Z) : Z := z mod 2 ^ 32.

Definition rotl (n x : Z) : Z :=
  w32 (Z.lor (Z.shiftl x n) (Z.shiftr x (32 - n))).

Definition bytes_of (s : string) : list Z :=
  map (λ c, Z.of_nat (nat_of_ascii c)) (list_ascii_of_string s).

(** The message, the byte 0x80, zeros up to 56 modulo 64, and the length in
    bits as 8 bytes, most significant first. *)
Definition pad (msg : list Z) : list Z :=
  let len := length msg in
  msg ++ [128] ++ replicate ((119 - len mod 64) mod 64)%nat 0
      ++ map (λ i, (8 * Z.of_nat len / 2 ^ (8 * i)) mod 256) [7; 6; 5; 4; 3; 2; 1; 0].

Fixpoint words (fuel : nat) (bs : list Z) : list Z :=
  match fuel, bs with
  | S k, b0 :: b1 :: b2 :: b3 :: rest =>
      (b0 * 2 ^ 24 + b1 * 2 ^ 16 + b2 * 2 ^ 8 + b3) :: words k rest
  | _, _ => []
  end.

Fixpoint blocks (fuel : nat) (ws : list Z) : list (list Z) :=
  match fuel, ws with
  | S k, _ :: _ => take 16 ws :: blocks k (drop 16 ws)
  | _, _ => []
  end.

(** The 80 words of the message schedule. *)
Definition schedule (block : list Z) : list Z :=
  fold_left
    (λ w t, w ++ [rotl 1 (Z.lxor (Z.lxor (nth (t - 3) w 0) (nth (t - 8) w 0))
                                 (Z.lxor (nth (t - 14) w 0) (nth (t - 16) w 0)))])
    (seq 16 64) block.

Definition round (st : Z * Z * Z * Z * Z) (tw : nat * Z) : Z * Z * Z * Z * Z :=
  let '(a, b, c, d, e) := st in
  let '(t, w) := tw in
  let '(f, k) :=
    if (t <? 20)%nat then (Z.lor (Z.land b c) (Z.land (Z.lxor b (2 ^ 32 - 1)) d), 0x5A827999)
    else if (t <? 40)%nat then (Z.lxor (Z.lxor b c) d, 0x6ED9EBA1)
    else if (t <? 60)%nat
         then (Z.lor (Z.lor (Z.land b c) (Z.land b d)) (Z.land c d), 0x8F1BBCDC)
    else (Z.lxor (Z.lxor b c) d, 0xCA62C1D6) in
  (w32 (rotl 5 a + f + e + k + w), a, rotl 30 b, c, d).

Definition compress (h : Z * Z * Z * Z * Z) (block : list Z) : Z * Z * Z * Z * Z :=
  let '(h0, h1, h2, h3, h4) := h in
  let '(a, b, c, d, e) :=
    fold_left round (combine (seq 0 80) (schedule block)) h in
  (w32 (h0 + a), w32 (h1 + b), w32 (h2 + c), w32 (h3 + d), w32 (h4 + e)).

(** The 20 bytes of the digest, read as one number of 160 bits. *)
Definition number (h : Z * Z * Z * Z * Z) : Z :=
  let '(h0, h1, h2, h3, h4) := h in
  h0 * 2 ^ 128 + h1 * 2 ^ 96 + h2 * 2 ^ 64 + h3 * 2 ^ 32 + h4.

Definition digest (s : string) : Z :=
  number
    (let bs := pad (bytes_of s) in
     fold_left compress (blocks (length bs) (words (length bs) bs))
       (0x67452301, 0xEFCDAB89, 0x98BADCFE, 0x10325476, 0xC3D2E1F0))
  mod 2 ^ 160.

End SHA1.

(** The stand-in with SHA-1 itself as the digest. *)
Definition sha1_backend : Backend :=
  {| sha1 := SHA1.digest;
     sha1_range := λ s, Z.mod_pos_bound _ (2 ^ 160) eq_refl;
     pm_run := λ s, Some ("llvm " +:+ s);
     engine_create := λ _, true;
     lookupPacked := λ _ _, true;
     compiled := λ _ _ _, [7; 8; 9];
     vt_decls := λ s, s +:+ " vt" |}.

Definition sample_engine_b : ExecutionEngine :=
  {| engine_id := 1; engine_module := "llvm module b" |}.

Definition sample_engine : ExecutionEngine :=
  {| engine_id := 0; engine_module := "llvm module a" |}.

Definition sample_jit1 : JitState :=
  {| engineCache := <[8 := sample_engine]> ∅; engines_built := 1 |}.

Definition sample_engine2 : ExecutionEngine :=
  {| engine_id := 1; engine_module := "llvm module bb" |}.

Definition sample_jit2 : JitState :=
  {| engineCache := <[9 := sample_engine2]> (<[8 := sample_engine]> ∅);
     engines_built := 2 |}.

(** The cache after "module a", and after "module b" as well, under SHA-1. *)
Definition sample_sha1_jit1 : JitState :=
  {| engineCache := <[SHA1.digest "module a" := sample_engine]> ∅;
     engines_built := 1 |}.

Definition sample_sha1_jit2 : JitState :=
  {| engineCache :=
       <[SHA1.digest "module b" := sample_engine_b]>
         (<[SHA1.digest "module a" := sample_engine]> ∅);
     engines_built := 2 |}.

Definition sample_run : RunResult :=
  {| rr_out := [7; 8; 9; 0];
     rr_engine := sample_engine;
     rr_args := [AddrOfOutput; AddrOfInput 0; AddrOfInput 1];
     rr_module := "llvm module a";
     rr_state := sample_jit1 |}.

Definition sample_transceiver : Transceiver := {| handle := 4242; nranks := 1 |}.

(** ** Sample inputs of the further statements *)

(** A distributed rank-2 array on a GPU, with a right halo only. *)
Definition sample_dist_future : Future :=
  {| dtype := FLOAT64; ndims := 2; shape := [8; 6]; local_shape := [4; 6];
     lh_shape := None; rh_shape := Some [1; 6]; local_offsets := [4; 0];
     device := "GPU"; team := 1; descriptor := [] |}.

(** A batch in which guid 3 is created, given a ready callback, dropped and
    created again, and in which guid 8, unknown to the manager, gets a
    ready callback too. *)
Definition sample_ready_calls : list Call :=
  [CallAddVal 3 sample_value 30%nat; CallAddReady 3 31%nat; CallDrop 3;
   CallAddVal 3 sample_value 30%nat; CallAddReady 3 32%nat;
   CallAddReady 8 80%nat; CallAddReady 3 33%nat].

Definition sample_ready_dm1 : DepManager :=
  Eval vm_compute in
    match do_calls sample_ready_calls (sample_registry, new_DepManager) with
    | Ok (_, dm) => dm
    | Err _ => new_DepManager
    end.

Definition sample_ready_dm3 : DepManager :=
  Eval vm_compute in
    match handleResult None sample_builder (store_inputs sample_ready_dm1).2 with
    | Ok (_, _, dm) => dm
    | Err _ => sample_ready_dm1
    end.

Definition sample_ready_delivery : list Event * Z * DepManager :=
  Eval vm_compute in
    match deliver sample_ready_dm3 sample_output 10 with
    | Ok r => r
    | Err _ => ([], 0, sample_ready_dm3)
    end.

(** What [deliver] gives on the sample batch. *)
Definition sample_delivery : list Event * Z * DepManager :=
  Eval vm_compute in
    match deliver sample_dm3 sample_output 50 with
    | Ok r => r
    | Err _ => ([], 0, sample_dm3)
    end.

(** An environment that sets the optimisation level and the verbosity, on a
    host where everything else works. *)
Definition sample_host : Host :=
  {| getenv := λ name,
       if String.eqb name "DDPT_OPT_LEVEL" then Some "2"
       else if String.eqb name "DDPT_VERBOSE" then Some "4"
       else None;
     stoi := λ text,
       if String.eqb text "2" then Some 2
       else if String.eqb text "4" then Some 4
       else if String.eqb text "7" then Some 7
       else None;
     parsePassPipeline := λ _, true;
     CMAKE_MLIR_ROOT := "/opt/mlir";
     CMAKE_IMEX_ROOT := "/opt/imex";
     detectHost := true;
     createTargetMachine := true |}.

Definition sample_jit : JIT :=
  Eval vm_compute in
    match JIT_ctor sample_host with
    | inr jit => jit
    | inl _ => mkJIT "" false false 0 0 false "" "" "" [] (0, 0)
    end.

(** The same host with an optimisation level of 7. *)
Definition sample_bad_host : Host :=
  {| getenv := λ name,
       if String.eqb name "DDPT_OPT_LEVEL" then Some "7" else None;
     stoi := stoi sample_host;
     parsePassPipeline := λ _, true;
     CMAKE_MLIR_ROOT := "/opt/mlir";
     CMAKE_IMEX_ROOT := "/opt/imex";
     detectHost := true;
     createTargetMachine := true |}.

(** A manager of the earlier text with two imported arrays, of ranks 1 and
    0, and two created ones, of ranks 1 and 2. *)
Definition sample_earlier_registry : gmap Z Earlier.Future :=
  <[1 := Earlier.mkFuture INT32 1 (λ _, [4096; 4096; 0; 10; 1])]>
    (<[2 := Earlier.mkFuture FLOAT64 0 (λ _, [8192; 8192; 0])]> ∅).

Definition sample_earlier_type (rank : nat) : Earlier.Type_ :=
  Earlier.PTensorType
    (Earlier.mkRankedTensorType (replicate rank (-1)) (IntegerType 32 Signless))
    false true.

Definition sample_earlier_dm : Earlier.DepManager :=
  {| Earlier._func :=
       Earlier.mkFuncOp [sample_earlier_type 1; sample_earlier_type 0] [];
     Earlier._ivm :=
       [(1, (Earlier.BlockArgument 0 (sample_earlier_type 1), None));
        (2, (Earlier.BlockArgument 1 (sample_earlier_type 0), None));
        (3, (Earlier.OpResult 0 (sample_earlier_type 1), Some 30%nat));
        (4, (Earlier.OpResult 1 (sample_earlier_type 2), Some 40%nat))];
     Earlier._irm := ∅;
     Earlier._args := [(1, 1); (2, 0)] |}.

Definition sample_earlier_dm2 : Earlier.DepManager :=
  Eval vm_compute in
    match Earlier.store_inputs sample_earlier_registry sample_earlier_dm with
    | inr (_, dm) => dm
    | inl _ => sample_earlier_dm
    end.

Definition sample_earlier_builder : Earlier.OpBuilder :=
  {| Earlier.block := []; Earlier.next_op := 2 |}.

Definition sample_earlier_result : Z * Earlier.OpBuilder * Earlier.DepManager :=
  Eval vm_compute in
    match Earlier.handleResult sample_earlier_builder sample_earlier_dm2 with
    | Ok r => r
    | Err _ => (0, sample_earlier_builder, sample_earlier_dm2)
    end.

Definition sample_earlier_delivery
    : list Earlier.Event * Z * Earlier.DepManager :=
  Eval vm_compute in
    match Earlier.deliver sample_earlier_result.2 sample_output 12 with
    | inr r => r
    | inl _ => ([], 0, sample_earlier_result.2)
    end.

(** The compiled function of the stand-in backend called for the sample
    batch, with the size [handleResult] reported, and the delivery from the
    buffer it returns. *)
Definition sample_run50 : RunResult :=
  Eval vm_compute in
    match run (H := sample_backend) false true new_JitState "module a" "jit_main"
            [4096; 4096; 0; 10; 1] 50 with
    | Ok r => r
    | Err _ => sample_run
    end.

Definition sample_delivery50 : list Event * Z * DepManager :=
  Eval vm_compute in
    match deliver sample_dm3 (rr_out sample_run50) 50 with
    | Ok r => r
    | Err _ => ([], 0, sample_dm3)
    end.

(** * Properties *)

(** ** Basic facts *)

Lemma bind_Ok {A B : Type} (r : result A) (k : A -> result B) (b : B) :
  (x ← r; k x) = Ok b -> exists a, r = Ok a /\ k a = Ok b.
Proof. destruct r as [a|e]; simpl; [eauto | discriminate]. Qed.

Lemma foldM_app {A B : Type} (f : B -> A -> result B) (l1 l2 : list A) (b : B) :
  foldM f (l1 ++ l2) b = (b' ← foldM f l1 b; foldM f l2 b').
Proof.
  revert b. induction l1 as [|x l1 IH]; intros b; simpl; [reflexivity|].
  destruct (f b x) as [b1|e]; simpl; [apply IH | reflexivity].
Qed.

(** An invariant kept by every step is kept by the loop. *)
Lemma foldM_invariant {A B : Type} (P : B -> Prop) (f : B -> A -> result B)
    (l : list A) :
  (forall b x b', P b -> f b x = Ok b' -> P b') ->
  forall b b', P b -> foldM f l b = Ok b' -> P b'.
Proof.
  intros Hstep. induction l as [|x l IH]; intros b b' HP Hrun; simpl in Hrun.
  - congruence.
  - apply bind_Ok in Hrun as (b1 & H1 & H2). eauto.
Qed.

Lemma insert_at_end {A : Type} (x : A) (l : list A) :
  insert_at (length l) x l = l ++ [x].
Proof.
  unfold insert_at. rewrite firstn_all, skipn_all. reflexivity.
Qed.

Lemma insert_at_middle {A : Type} (x : A) (pre post : list A) :
  insert_at (length pre) x (pre ++ post) = (pre ++ [x]) ++ post.
Proof.
  unfold insert_at.
  rewrite take_app_length, drop_app_length, <- app_assoc. reflexivity.
Qed.

(** ** Signless types *)

Lemma is_signless_fixed t : is_signless t = true <-> makeSignlessType t = t.
Proof.
  induction t as [| |w s|sh e IH envs]; simpl; try tauto.
  - destruct s; split; intros; congruence.
  - rewrite IH. split; intros H; [rewrite H; reflexivity | congruence].
Qed.

Lemma elementTypeOf_spec dtype :
  elementTypeOf dtype =
  match spec_element_type dtype with
  | Some e => Ok e
  | None => Err UnknownDtype
  end.
Proof. destruct dtype; reflexivity. Qed.

Lemma getTType_Ok dtype gShape lhShape ownShape rhShape device team lOffs t :
  getTType dtype gShape lhShape ownShape rhShape device team lOffs = Ok t ->
  exists e, spec_element_type dtype = Some e /\ elementTypeOfType t = Some e /\
            is_signless t = true.
Proof.
  unfold getTType. rewrite elementTypeOf_spec.
  destruct (spec_element_type dtype) as [e|] eqn:He; simpl; [|discriminate].
  intros Ht. exists e.
  assert (is_signless e = true) by (destruct dtype; inversion He; reflexivity).
  destruct (negb (team =? 0)); [destruct (negb (length gShape =? 0)%nat)|];
    inversion Ht; subst; simpl; auto.
Qed.

(** ** The ordered map [_ivm] *)

Lemma ivm_find_None guid ivm : ivm_find guid ivm = None <-> guid ∉ ivm.*1.
Proof.
  induction ivm as [|[k v] rest IH]; simpl.
  - split; [intros _; apply not_elem_of_nil | reflexivity].
  - rewrite not_elem_of_cons. destruct (Z.eqb_spec k guid) as [->|Hne].
    + split; [discriminate | intros [H _]; congruence].
    + rewrite IH. split; [intros H; split; [congruence | exact H] | tauto].
Qed.

Lemma ivm_find_Some guid v ivm : ivm_find guid ivm = Some v -> (guid, v) ∈ ivm.
Proof.
  induction ivm as [|[k x] rest IH]; simpl; [discriminate|].
  destruct (Z.eqb_spec k guid) as [->|Hne].
  - intros [= ->]. apply elem_of_cons; left; reflexivity.
  - intros H. apply elem_of_cons; right; apply IH, H.
Qed.

Lemma ivm_find_elem_of guid v ivm :
  NoDup ivm.*1 -> (guid, v) ∈ ivm -> ivm_find guid ivm = Some v.
Proof.
  induction ivm as [|[k x] rest IH]; simpl; intros Hnd Hin.
  - apply elem_of_nil in Hin as [].
  - apply NoDup_cons in Hnd as [Hk Hnd].
    apply elem_of_cons in Hin as [[= <- <-]|Hin].
    + rewrite Z.eqb_refl. reflexivity.
    + destruct (Z.eqb_spec k guid) as [->|Hne]; [|auto].
      exfalso. apply Hk. apply list_elem_of_fmap. exists (guid, v). auto.
Qed.

Lemma ivm_set_fresh guid val ivm :
  ivm_find guid ivm = None -> ivm_set guid val ivm = ivm ++ [(guid, val)].
Proof.
  induction ivm as [|[k x] rest IH]; simpl; [reflexivity|].
  destruct (k =? guid); [discriminate|]. intros H. rewrite IH by exact H.
  reflexivity.
Qed.

Lemma ivm_find_set_eq guid val ivm : ivm_find guid (ivm_set guid val ivm) = Some val.
Proof.
  induction ivm as [|[k x] rest IH]; simpl.
  - rewrite Z.eqb_refl. reflexivity.
  - destruct (k =? guid) eqn:E; simpl; rewrite E; [reflexivity | exact IH].
Qed.

Lemma ivm_find_set_ne guid guid' val ivm :
  guid <> guid' -> ivm_find guid' (ivm_set guid val ivm) = ivm_find guid' ivm.
Proof.
  intros Hne. induction ivm as [|[k x] rest IH]; simpl.
  - destruct (Z.eqb_spec guid guid'); [contradiction | reflexivity].
  - destruct (Z.eqb_spec k guid) as [->|Hk]; simpl.
    + destruct (Z.eqb_spec guid guid'); [contradiction | reflexivity].
    + rewrite IH. reflexivity.
Qed.

Lemma ivm_erase_keys guid ivm :
  (ivm_erase guid ivm).*1 = filter (λ k, k ≠ guid) ivm.*1.
Proof.
  unfold ivm_erase. induction ivm as [|[k x] rest IH]; [reflexivity|].
  rewrite (fmap_cons fst (k, x) rest). simpl fst.
  destruct (decide (k ≠ guid)) as [Hk|Hk].
  - rewrite !filter_cons_True by exact Hk. rewrite fmap_cons, IH. reflexivity.
  - rewrite !filter_cons_False by exact Hk. exact IH.
Qed.

Lemma ivm_find_erase_eq guid ivm : ivm_find guid (ivm_erase guid ivm) = None.
Proof.
  apply ivm_find_None. rewrite ivm_erase_keys, list_elem_of_filter. tauto.
Qed.

Lemma ivm_find_erase_ne guid guid' ivm :
  guid <> guid' -> ivm_find guid' (ivm_erase guid ivm) = ivm_find guid' ivm.
Proof.
  intros Hne. unfold ivm_erase. induction ivm as [|[k x] rest IH]; [reflexivity|].
  rewrite filter_cons. simpl. destruct (decide (k ≠ guid)) as [Hk|Hk]; simpl.
  - rewrite IH. reflexivity.
  - apply dec_stable in Hk. subst k.
    destruct (Z.eqb_spec guid guid'); [contradiction | exact IH].
Qed.

Lemma ivm_erase_NoDup guid ivm : NoDup ivm.*1 -> NoDup (ivm_erase guid ivm).*1.
Proof. intros H. rewrite ivm_erase_keys. apply NoDup_filter, H. Qed.

(** ** One call of the manager *)

Lemma getDependent_known reg dm guid v :
  ivm_find guid (_ivm dm) = Some v -> getDependent reg dm guid = Ok (v, dm).
Proof. unfold getDependent. intros ->. reflexivity. Qed.

Lemma getDependent_new reg dm guid fut typ :
  ivm_find guid (_ivm dm) = None ->
  reg !! guid = Some fut ->
  argument_type fut = Ok typ ->
  getDependent reg dm guid =
  Ok (getArgument (length (_args dm)) (insertArgument (length (_args dm)) typ (_func dm)),
      {| _func := insertArgument (length (_args dm)) typ (_func dm);
         _ivm := _ivm dm ++
                 [(guid, getArgument (length (_args dm))
                           (insertArgument (length (_args dm)) typ (_func dm)))];
         _icm := _icm dm; _icr := _icr dm; _irm := _irm dm;
         _args := _args dm ++ [(guid, fut)] |}).
Proof.
  intros Hfind Hreg Htyp. unfold getDependent, Registry_get.
  rewrite Hfind, Hreg. simpl. rewrite Htyp. simpl.
  rewrite ivm_set_fresh by exact Hfind. reflexivity.
Qed.

Lemma getDependent_inv reg dm guid v dm' :
  getDependent reg dm guid = Ok (v, dm') ->
  (ivm_find guid (_ivm dm) = Some v /\ dm' = dm) \/
  (exists fut typ,
     ivm_find guid (_ivm dm) = None /\ reg !! guid = Some fut /\
     argument_type fut = Ok typ /\
     getDependent reg dm guid =
     Ok (getArgument (length (_args dm))
           (insertArgument (length (_args dm)) typ (_func dm)),
         {| _func := insertArgument (length (_args dm)) typ (_func dm);
            _ivm := _ivm dm ++
                    [(guid, getArgument (length (_args dm))
                              (insertArgument (length (_args dm)) typ (_func dm)))];
            _icm := _icm dm; _icr := _icr dm; _irm := _irm dm;
            _args := _args dm ++ [(guid, fut)] |})).
Proof.
  intros Hrun. destruct (ivm_find guid (_ivm dm)) as [x|] eqn:Hfind.
  - left. rewrite (getDependent_known _ _ _ _ Hfind) in Hrun.
    inversion Hrun; subst. auto.
  - right. destruct (reg !! guid) as [fut|] eqn:Hreg.
    + destruct (argument_type fut) as [typ|e] eqn:Htyp.
      * exists fut, typ. repeat split; try assumption.
        apply getDependent_new; assumption.
      * unfold getDependent, Registry_get in Hrun.
        rewrite Hfind, Hreg in Hrun. simpl in Hrun. rewrite Htyp in Hrun.
        discriminate.
    + unfold getDependent, Registry_get in Hrun.
      rewrite Hfind, Hreg in Hrun. discriminate.
Qed.

(** With as many declared arguments as entries of [_args], the new argument
    goes last and [getArgument] finds it. *)
Lemma getArgument_inserted typ f n :
  length (fn_args f) = n ->
  fn_args (insertArgument n typ f) = fn_args f ++ [typ] /\
  getArgument n (insertArgument n typ f) = BlockArgument n typ.
Proof.
  intros <-. unfold getArgument, insertArgument. simpl.
  rewrite insert_at_end. split; [reflexivity|].
  rewrite lookup_app_r by lia. rewrite Nat.sub_diag. reflexivity.
Qed.

(** ** What every batch keeps true *)

Lemma new_DepManager_inv : batch_inv new_DepManager.
Proof.
  split; simpl.
  - constructor.
  - reflexivity.
  - constructor.
  - intros g Hg. apply elem_of_nil in Hg as [].
Qed.

Lemma do_call_inv reg dm c reg' dm' :
  batch_inv dm -> do_call (reg, dm) c = Ok (reg', dm') -> batch_inv dm'.
Proof.
  intros [Hargs Hres Hnd Hown] Hrun. destruct c as [g|g val cb|g cb|g]; simpl in Hrun.
  - apply bind_Ok in Hrun as ([v dm1] & Hget & Hok). inversion Hok; subst.
    destruct (getDependent_inv _ _ _ _ _ Hget)
      as [[_ ->]|(fut & typ & Hfind & Hreg & Htyp & Heq)].
    + split; assumption.
    + rewrite Heq in Hget. inversion Hget; subst; clear Hget Heq.
      pose proof (Forall2_length _ _ _ Hargs) as Hlen.
      destruct (getArgument_inserted typ (_func dm) _ Hlen) as [Hfa Hga].
      split; simpl.
      * simpl in Hfa. rewrite Hfa.
        apply Forall2_app; [exact Hargs | repeat constructor; exact Htyp].
      * exact Hres.
      * rewrite fmap_app. apply NoDup_app. split; [exact Hnd|]. split.
        -- intros x Hx Hx'. apply list_elem_of_singleton in Hx'. simpl in Hx'.
           subst x. apply ivm_find_None in Hfind. contradiction.
        -- apply NoDup_singleton.
      * intros x. rewrite !fmap_app, !elem_of_app. simpl.
        intros [Hx|Hx]; [destruct (Hown x Hx); auto|].
        left. right. exact Hx.
  - apply bind_Ok in Hrun as (dm1 & Hadd & Hok). inversion Hok; subst.
    unfold addVal in Hadd.
    destruct (ivm_find g (_ivm dm)) eqn:Hfind; [discriminate|].
    inversion Hadd; subst; clear Hadd. rewrite ivm_set_fresh by exact Hfind.
    split; simpl; try assumption.
    + rewrite fmap_app. apply NoDup_app. split; [exact Hnd|]. split.
      * intros x Hx Hx'. apply list_elem_of_singleton in Hx'. simpl in Hx'.
        subst x. apply ivm_find_None in Hfind. contradiction.
      * apply NoDup_singleton.
    + intros x. rewrite fmap_app, elem_of_app. simpl. intros [Hx|Hx].
      * destruct (Hown x Hx) as [?|Hc]; [auto|]. right.
        destruct (decide (g = x)) as [->|Hne].
        -- rewrite lookup_insert_eq. eauto.
        -- rewrite lookup_insert_ne by exact Hne. exact Hc.
      * apply list_elem_of_singleton in Hx. subst x. right.
        rewrite lookup_insert_eq. eauto.
  - inversion Hrun; subst. split; assumption.
  - unfold DepManager_drop in Hrun. inversion Hrun; subst; clear Hrun.
    split; simpl; try assumption.
    + apply ivm_erase_NoDup, Hnd.
    + intros x. rewrite ivm_erase_keys, list_elem_of_filter. intros [Hne Hx].
      destruct (Hown x Hx) as [?|Hc]; [auto|]. right.
      rewrite lookup_delete_ne by congruence. exact Hc.
Qed.

(** ** store_inputs *)

Lemma filter_keep_Forall {A : Type} (P : A -> Prop) `{!forall x, Decision (P x)}
    (l : list A) :
  Forall P l -> filter P l = l.
Proof.
  induction 1 as [|x l Hx _ IH]; [reflexivity|].
  rewrite filter_cons_True by exact Hx. rewrite IH. reflexivity.
Qed.

Lemma filter_keep_all {A : Type} (P : A -> Prop) `{!forall x, Decision (P x)}
    (l : list A) :
  (forall x, P x) -> filter P l = l.
Proof.
  intros HP. apply filter_keep_Forall, Forall_forall. intros x _. apply HP.
Qed.

Lemma store_inputs_fold l : forall res dm res' dm',
  fold_left store_inputs_step l (res, dm) = (res', dm') ->
  res' = res ++ concat ((λ a, descriptor a.2) <$> l) /\
  _func dm' = _func dm /\ _args dm' = _args dm /\
  _icr dm' = _icr dm /\ _irm dm' = _irm dm /\
  _ivm dm' = filter (λ kv, kv.1 ∉ l.*1) (_ivm dm) /\
  (forall g, g ∉ l.*1 -> _icm dm' !! g = _icm dm !! g).
Proof.
  induction l as [|a l IH]; intros res dm res' dm' Hrun; simpl in Hrun.
  - inversion Hrun; subst. rewrite app_nil_r. repeat split; try reflexivity.
    symmetry. apply filter_keep_all. intros kv. apply not_elem_of_nil.
  - apply IH in Hrun as (Hres & Hf & Ha & Hcr & Hrm & Hvm & Hcm). simpl in *.
    repeat split; try assumption.
    + rewrite Hres, <- app_assoc. reflexivity.
    + rewrite Hvm. unfold ivm_erase. rewrite list_filter_filter.
      apply list_filter_iff. intros kv. rewrite not_elem_of_cons. tauto.
    + intros g Hg. apply not_elem_of_cons in Hg as [Hne Hg].
      rewrite Hcm by exact Hg. apply lookup_delete_ne. congruence.
Qed.

Lemma store_inputs_spec dm :
  (store_inputs dm).1 = concat ((λ a, descriptor a.2) <$> _args dm) /\
  _func (store_inputs dm).2 = _func dm /\
  _args (store_inputs dm).2 = _args dm /\
  _icr (store_inputs dm).2 = _icr dm /\
  _irm (store_inputs dm).2 = _irm dm /\
  _ivm (store_inputs dm).2 = filter (λ kv, kv.1 ∉ (_args dm).*1) (_ivm dm) /\
  (forall g, g ∉ (_args dm).*1 -> _icm (store_inputs dm).2 !! g = _icm dm !! g).
Proof.
  unfold store_inputs.
  destruct (fold_left store_inputs_step (_args dm) ([], dm)) as [res' dm'] eqn:E.
  apply store_inputs_fold in E. exact E.
Qed.

(** After [store_inputs] every entry left in [_ivm] has a delivery callback. *)
Lemma store_inputs_owner dm :
  batch_inv dm ->
  forall g, g ∈ (_ivm (store_inputs dm).2).*1 -> is_Some (_icm (store_inputs dm).2 !! g).
Proof.
  intros Hinv g Hg.
  destruct (store_inputs_spec dm) as (_ & _ & _ & _ & _ & Hvm & Hcm).
  rewrite Hvm in Hg. apply list_elem_of_fmap in Hg as ([k v] & -> & Hkv).
  apply list_elem_of_filter in Hkv as [Hk Hkv]. simpl in *.
  rewrite Hcm by exact Hk.
  destruct (inv_owner dm Hinv k) as [Ha|Hc]; [|contradiction|exact Hc].
  apply list_elem_of_fmap. exists (k, v). auto.
Qed.

Lemma filter_keys_NoDup (P : id_type * Value -> Prop)
    `{!forall x, Decision (P x)} (l : list (id_type * Value)) :
  NoDup l.*1 -> NoDup (filter P l).*1.
Proof.
  induction l as [|[k v] l IH]; intros Hnd; [constructor|].
  rewrite fmap_cons in Hnd. apply NoDup_cons in Hnd as [Hk Hnd].
  rewrite filter_cons. destruct (decide (P (k, v))) as [_|_]; [|auto].
  rewrite fmap_cons. apply NoDup_cons. split; [|auto]. simpl.
  intros Hin. apply Hk. apply list_elem_of_fmap in Hin as (kv & -> & Hin).
  apply list_elem_of_filter in Hin as [_ Hin]. apply list_elem_of_fmap.
  exists kv. split; [reflexivity | exact Hin].
Qed.

Lemma store_inputs_NoDup dm :
  NoDup (_ivm dm).*1 -> NoDup (_ivm (store_inputs dm).2).*1.
Proof.
  intros Hnd. destruct (store_inputs_spec dm) as (_ & _ & _ & _ & _ & -> & _).
  apply filter_keys_NoDup, Hnd.
Qed.

(** ** Words walked for one result *)

Lemma deliver_entry_pos cb rank isD output pos :
  (deliver_entry cb rank isD output pos).2 = pos + ptensor_sz rank isD.
Proof.
  unfold deliver_entry, ptensor_sz, getMR. rewrite andb_comm.
  destruct (isD && (0 <? rank)); simpl; lia.
Qed.

(** ** The loop of handleResult *)

Lemma to_uint64_range z : 0 <= to_uint64 z < 2 ^ 64.
Proof. unfold to_uint64. apply Z.mod_pos_bound. lia. Qed.

Lemma to_uint64_small z : 0 <= z < 2 ^ 64 -> to_uint64 z = z.
Proof. unfold to_uint64. intros H. apply Z.mod_small, H. Qed.

Lemma to_uint64_add_l a b : to_uint64 (to_uint64 a + b) = to_uint64 (a + b).
Proof. unfold to_uint64. apply Zplus_mod_idemp_l. Qed.

Lemma handleResult_step_Ok st v st1 :
  handleResult_step st v = Ok st1 ->
  exists ty rank,
    result_info v.2 = Some (ty, (rank, isDist ty)) /\
    st1 = {| hr_ret_values := <[hr_idx st := v.2]> (hr_ret_values st);
             hr_func := insertResult (hr_idx st) ty (hr_func st);
             hr_irm := <[v.1 := (rank, isDist ty)]> (hr_irm st);
             hr_sz := to_uint64 (hr_sz st + ptensor_sz rank (isDist ty));
             hr_idx := S (hr_idx st);
             hr_ivm := hr_ivm st ++ [(v.1, NullValue)] |}.
Proof.
  unfold handleResult_step, result_info.
  destruct (getType v.2) as [ty|]; [|discriminate].
  destruct (getRank ty) as [rank|e]; simpl; [|discriminate].
  intros [= <-]. exists ty, rank. auto.
Qed.

Lemma handleResult_loop l : forall st st' pre k rpre old,
  foldM handleResult_step l st = Ok st' ->
  hr_ret_values st = pre ++ replicate (length l + k) NullValue ->
  length pre = hr_idx st ->
  fn_results (hr_func st) = rpre ++ old ->
  length rpre = hr_idx st ->
  0 <= hr_sz st < 2 ^ 64 ->
  exists infos,
    Forall2 (λ kv i, result_info kv.2 = Some i) l infos /\
    hr_ret_values st' = (pre ++ l.*2) ++ replicate k NullValue /\
    fn_args (hr_func st') = fn_args (hr_func st) /\
    fn_results (hr_func st') = (rpre ++ infos.*1) ++ old /\
    hr_sz st' = to_uint64 (hr_sz st + total_words infos.*2) /\
    hr_ivm st' = hr_ivm st ++ ((λ kv, (kv.1, NullValue)) <$> l) /\
    (forall g, g ∉ l.*1 -> hr_irm st' !! g = hr_irm st !! g) /\
    (NoDup l.*1 -> forall j kv i,
       l !! j = Some kv -> infos !! j = Some i -> hr_irm st' !! kv.1 = Some i.2).
Proof.
  induction l as [|v l IH]; intros st st' pre k rpre old Hrun Hret Hpre Hres Hrpre Hsz.
  - simpl in Hrun. inversion Hrun; subst. exists []. simpl.
    rewrite !app_nil_r, Z.add_0_r, to_uint64_small by exact Hsz.
    repeat split; auto. intros _ j kv i Hj. discriminate.
  - simpl in Hrun. apply bind_Ok in Hrun as (st1 & Hstep & Hrun).
    apply handleResult_step_Ok in Hstep as (ty & rank & Hinfo & ->).
    specialize (IH _ st' (pre ++ [v.2]) k (rpre ++ [ty]) old Hrun).
    simpl in IH. destruct IH as (infos & HF & Hr & Ha & Hrs & Hz & Hv & Hm & Hn).
    + rewrite Hret, <- Hpre. simpl.
      rewrite insert_app_r_alt by lia. rewrite Nat.sub_diag. simpl.
      rewrite <- app_assoc. reflexivity.
    + rewrite length_app. simpl. lia.
    + rewrite Hres, <- Hrpre. apply insert_at_middle.
    + rewrite length_app. simpl. lia.
    + apply to_uint64_range.
    + exists ((ty, (rank, isDist ty)) :: infos). simpl.
      split; [constructor; assumption|].
      split; [rewrite Hr, <- !app_assoc; reflexivity|].
      split; [exact Ha|].
      split; [rewrite Hrs, <- !app_assoc; reflexivity|].
      split; [rewrite Hz, to_uint64_add_l, <- Z.add_assoc; reflexivity|].
      split; [rewrite Hv, <- app_assoc; reflexivity|].
      split.
      * intros g Hg. apply not_elem_of_cons in Hg as [Hne Hg].
        rewrite Hm by exact Hg. apply lookup_insert_ne. congruence.
      * intros Hnd j kv i Hj Hi. apply NoDup_cons in Hnd as [Hk Hnd].
        destruct j as [|j]; simpl in Hj, Hi.
        -- inversion Hj; inversion Hi; subst. simpl.
           rewrite Hm by exact Hk. apply lookup_insert_eq.
        -- eapply Hn; eassumption.
Qed.

Lemma handleResult_spec itac b dm osz b' dm' :
  handleResult itac b dm = Ok (osz, b', dm') ->
  exists infos,
    Forall2 (λ kv i, result_info kv.2 = Some i) (_ivm dm) infos /\
    block b' = block (before_return itac b) ++ [ReturnOp (_ivm dm).*2] /\
    fn_args (_func dm') = fn_args (_func dm) /\
    fn_results (_func dm') = infos.*1 ++ fn_results (_func dm) /\
    osz = to_uint64 (2 * to_uint64 (total_words infos.*2)) /\
    _ivm dm' = (λ kv, (kv.1, NullValue)) <$> _ivm dm /\
    _icm dm' = _icm dm /\ _icr dm' = _icr dm /\ _args dm' = _args dm /\
    (forall g, g ∉ (_ivm dm).*1 -> _irm dm' !! g = _irm dm !! g) /\
    (NoDup (_ivm dm).*1 -> forall j kv i,
       _ivm dm !! j = Some kv -> infos !! j = Some i ->
       _irm dm' !! kv.1 = Some i.2).
Proof.
  unfold handleResult. intros Hrun.
  apply bind_Ok in Hrun as (st & Hloop & Hok).
  apply (handleResult_loop _ _ _ [] 0%nat [] (fn_results (_func dm))) in Hloop
    as (infos & HF & Hr & Ha & Hrs & Hz & Hv & Hm & Hn); simpl;
    [|rewrite Nat.add_0_r; reflexivity|reflexivity|reflexivity|reflexivity|lia].
  simpl in *. rewrite app_nil_r in Hr.
  unfold create in Hok.
  inversion Hok; subst; clear Hok. simpl.
  exists infos. rewrite Hr, Ha, Hrs, Hz, Hv. repeat split; auto.
Qed.

Lemma handleResult_loop_total l : forall st,
  Forall (λ kv, is_Some (result_info kv.2)) l ->
  exists st', foldM handleResult_step l st = Ok st'.
Proof.
  induction l as [|v l IH]; intros st Hall; simpl; [eauto|].
  apply Forall_cons in Hall as [[i Hi] Hall].
  unfold handleResult_step, result_info in *.
  destruct (getType v.2) as [ty|]; [|discriminate].
  destruct (getRank ty) as [rank|e]; [|discriminate]. simpl. apply IH, Hall.
Qed.

Lemma handleResult_total itac b dm :
  Forall (λ kv, is_Some (result_info kv.2)) (_ivm dm) ->
  exists r, handleResult itac b dm = Ok r.
Proof.
  intros Hall. unfold handleResult.
  edestruct (handleResult_loop_total (_ivm dm)) as [st' ->]; [exact Hall|].
  simpl. unfold create. eauto.
Qed.

(** ** The loop of deliver *)

Lemma irm_at_insert irm g g' :
  irm_at (<[g := irm_at irm g]> irm) g' = irm_at irm g'.
Proof.
  unfold irm_at. destruct (decide (g = g')) as [->|Hne].
  - rewrite lookup_insert_eq. reflexivity.
  - rewrite lookup_insert_ne by exact Hne. reflexivity.
Qed.

Lemma deliver_loop icm output irm0 l : forall st st',
  foldM (deliver_step icm output) l st = Ok st' ->
  (forall g, irm_at (dl_irm st) g = irm_at irm0 g) ->
  exists evs,
    dl_events st' = dl_events st ++ evs /\
    length evs = length l /\
    dl_pos st' = dl_pos st + total_words ((λ kv, irm_at irm0 kv.1) <$> l) /\
    (forall g, irm_at (dl_irm st') g = irm_at irm0 g) /\
    (forall j kv, l !! j = Some kv ->
       exists cb,
         icm !! kv.1 = Some cb /\
         evs !! j = Some
           (deliver_entry cb (irm_at irm0 kv.1).1 (irm_at irm0 kv.1).2 output
              (dl_pos st + total_words ((λ kv, irm_at irm0 kv.1) <$> take j l))).1).
Proof.
  induction l as [|r l IH]; intros st st' Hrun Hirm; simpl in Hrun.
  - inversion Hrun; subst. exists []. rewrite app_nil_r. simpl.
    repeat split; auto; [lia|]. intros j kv Hj. discriminate.
  - apply bind_Ok in Hrun as (st1 & Hstep & Hrun).
    unfold deliver_step in Hstep.
    destruct (icm !! r.1) as [cb|] eqn:Hcb; [|discriminate].
    destruct (deliver_entry cb (irm_at (dl_irm st) r.1).1
                (irm_at (dl_irm st) r.1).2 output (dl_pos st)) as [ev pos] eqn:Hev.
    inversion Hstep; subst st1; clear Hstep.
    apply IH in Hrun as (evs & He & Hl & Hp & Hi & Hj); simpl in *.
    + assert (pos = dl_pos st + ptensor_sz (irm_at irm0 r.1).1 (irm_at irm0 r.1).2)
        as Hpos.
      { rewrite <- Hirm. pose proof (deliver_entry_pos cb
          (irm_at (dl_irm st) r.1).1 (irm_at (dl_irm st) r.1).2 output (dl_pos st)) as E.
        rewrite Hev in E. exact E. }
      exists (ev :: evs). simpl.
      split; [rewrite He, <- app_assoc; reflexivity|].
      split; [rewrite Hl; reflexivity|].
      split; [rewrite Hp, Hpos, <- Z.add_assoc; reflexivity|].
      split; [exact Hi|].
      intros [|j] kv Hkv; simpl in Hkv.
      * inversion Hkv; subst kv. exists cb. split; [exact Hcb|]. simpl.
        rewrite Z.add_0_r, <- Hirm, Hev. reflexivity.
      * destruct (Hj j kv Hkv) as (cb' & Hcb' & Hevs). exists cb'.
        split; [exact Hcb'|]. simpl. rewrite Hevs, Hpos, <- Z.add_assoc. reflexivity.
    + intros g. rewrite irm_at_insert. apply Hirm.
Qed.

Lemma deliver_loop_total icm output l : forall st,
  Forall (λ kv, is_Some (icm !! kv.1)) l ->
  exists st', foldM (deliver_step icm output) l st = Ok st'.
Proof.
  induction l as [|r l IH]; intros st Hall; simpl; [eauto|].
  apply Forall_cons in Hall as [[cb Hcb] Hall].
  unfold deliver_step. rewrite Hcb.
  destruct (deliver_entry _ _ _ _ _) as [ev pos]. simpl. apply IH, Hall.
Qed.

(** ** Batches *)

Lemma Forall_filter_keep {A : Type} (P Q : A -> Prop)
    `{!forall x, Decision (Q x)} (l : list A) :
  Forall P l -> Forall P (filter Q l).
Proof.
  intros Hall. apply Forall_forall. intros x Hx.
  apply list_elem_of_filter in Hx as [_ Hx].
  rewrite Forall_forall in Hall. apply Hall, Hx.
Qed.

Lemma do_calls_inv calls : forall reg dm reg' dm',
  batch_inv dm -> do_calls calls (reg, dm) = Ok (reg', dm') -> batch_inv dm'.
Proof.
  intros reg dm reg' dm' Hinv Hrun.
  apply (foldM_invariant (λ st, batch_inv st.2) do_call calls) with (b := (reg, dm))
    (b' := (reg', dm')); [|exact Hinv|exact Hrun].
  intros [r d] c [r' d'] Hd Hc. simpl in *. eapply do_call_inv; eassumption.
Qed.

Lemma argument_type_signless fut t :
  argument_type fut = Ok t -> is_signless t = true.
Proof.
  unfold argument_type. intros Ht.
  apply getTType_Ok in Ht as (e & _ & _ & Hs). exact Hs.
Qed.

Lemma batch_args_signless dm :
  batch_inv dm -> Forall (λ t, is_signless t = true) (fn_args (_func dm)).
Proof.
  intros Hinv. pose proof (inv_args dm Hinv) as HF.
  induction HF as [|t a ts args Ht _ IH]; constructor; [|exact IH].
  eapply argument_type_signless, Ht.
Qed.

Lemma do_call_values_signless reg dm c reg' dm' :
  call_signless c -> batch_inv dm ->
  Forall (λ kv, value_signless kv.2) (_ivm dm) ->
  do_call (reg, dm) c = Ok (reg', dm') ->
  Forall (λ kv, value_signless kv.2) (_ivm dm').
Proof.
  intros Hc Hinv Hall Hrun. destruct c as [g|g val cb|g cb|g]; simpl in Hrun.
  - apply bind_Ok in Hrun as ([v dm1] & Hget & Hok). inversion Hok; subst.
    destruct (getDependent_inv _ _ _ _ _ Hget)
      as [[_ ->]|(fut & typ & Hfind & Hreg & Htyp & Heq)]; [exact Hall|].
    rewrite Heq in Hget. inversion Hget; subst; clear Hget Heq. simpl.
    apply Forall_app. split; [exact Hall|]. constructor; [|constructor]. simpl.
    pose proof (Forall2_length _ _ _ (inv_args dm Hinv)) as Hlen.
    destruct (getArgument_inserted typ (_func dm) _ Hlen) as [_ ->].
    intros ty [= <-]. eapply argument_type_signless, Htyp.
  - apply bind_Ok in Hrun as (dm1 & Hadd & Hok). inversion Hok; subst.
    unfold addVal in Hadd.
    destruct (ivm_find g (_ivm dm)) eqn:Hfind; [discriminate|].
    inversion Hadd; subst; clear Hadd. simpl.
    rewrite ivm_set_fresh by exact Hfind.
    apply Forall_app. split; [exact Hall|]. constructor; [exact Hc|constructor].
  - inversion Hrun; subst. exact Hall.
  - unfold DepManager_drop in Hrun. inversion Hrun; subst; clear Hrun. simpl.
    unfold ivm_erase. apply Forall_filter_keep, Hall.
Qed.

Lemma do_calls_values_signless calls : forall reg dm reg' dm',
  Forall call_signless calls -> batch_inv dm ->
  Forall (λ kv, value_signless kv.2) (_ivm dm) ->
  do_calls calls (reg, dm) = Ok (reg', dm') ->
  Forall (λ kv, value_signless kv.2) (_ivm dm').
Proof.
  unfold do_calls.
  induction calls as [|c calls IH]; intros reg dm reg' dm' Hcs Hinv Hall Hrun;
    simpl in Hrun.
  - inversion Hrun; subst. exact Hall.
  - apply Forall_cons in Hcs as [Hc Hcs].
    apply bind_Ok in Hrun as ([r1 d1] & Hstep & Hrun).
    eapply IH; [exact Hcs| | |exact Hrun].
    + eapply do_call_inv; eassumption.
    + eapply do_call_values_signless; eassumption.
Qed.

(** C6. For every dtype of the closed set the argument type [getTType]
    synthesises has the element type of the specification's table (i64,
    i32, i16, i8, i1, f32, f64), a signless type that [makeSignlessType]
    leaves as it is; a dtype outside the set fails with UnknownDtype.
    Hence in every batch no signed or unsigned integer type appears among
    the declared argument types.  The result types are those of the values
    the front-ends registered, which the array dialect types from the same
    dtype tags; with such values, of signless types, the whole signature
    that [handleResult] completes is signless. *)
Theorem getTType_signless_element_type :
  (forall dtype gShape lhShape ownShape rhShape device team lOffs,
     match spec_element_type dtype with
     | Some etyp =>
         supported dtype = true /\
         exists t,
           getTType dtype gShape lhShape ownShape rhShape device team lOffs = Ok t /\
           elementTypeOfType t = Some etyp /\
           is_signless t = true /\ makeSignlessType t = t
     | None =>
         supported dtype = false /\
         getTType dtype gShape lhShape ownShape rhShape device team lOffs
         = Err UnknownDtype
     end) /\
  (forall reg calls reg' dm',
     do_calls calls (reg, new_DepManager) = Ok (reg', dm') ->
     Forall (λ t, is_signless t = true) (fn_args (_func dm'))) /\
  (forall reg calls reg' dm' itac b osz b' dm'',
     Forall call_signless calls ->
     do_calls calls (reg, new_DepManager) = Ok (reg', dm') ->
     handleResult itac b (store_inputs dm').2 = Ok (osz, b', dm'') ->
     Forall (λ t, is_signless t = true)
       (fn_args (_func dm'') ++ fn_results (_func dm''))).
Proof.
  split; [|split].
  - intros dtype gShape lhShape ownShape rhShape device team lOffs.
    destruct (spec_element_type dtype) as [etyp|] eqn:He.
    + split; [destruct dtype; try reflexivity; discriminate|].
      destruct (getTType dtype gShape lhShape ownShape rhShape device team lOffs)
        as [t|e] eqn:Ht.
      * destruct (getTType_Ok _ _ _ _ _ _ _ _ _ Ht) as (e' & He' & Hel & Hs).
        exists t. rewrite He in He'. inversion He'; subst e'.
        repeat split; auto. apply is_signless_fixed, Hs.
      * exfalso. unfold getTType in Ht. rewrite elementTypeOf_spec, He in Ht.
        simpl in Ht.
        destruct (negb (team =? 0)); [destruct (negb (length gShape =? 0)%nat)|];
          discriminate.
    + split; [destruct dtype; try discriminate; reflexivity|].
      unfold getTType. rewrite elementTypeOf_spec, He. reflexivity.
  - intros reg calls reg' dm' Hrun.
    apply batch_args_signless. eapply do_calls_inv; [|exact Hrun].
    apply new_DepManager_inv.
  - intros reg calls reg' dm' itac b osz b' dm'' Hcs Hrun Hres.
    pose proof (do_calls_inv _ _ _ _ _ new_DepManager_inv Hrun) as Hinv.
    pose proof (do_calls_values_signless _ _ _ _ _ Hcs new_DepManager_inv
                  (List.Forall_nil _) Hrun) as Hvals.
    destruct (store_inputs_spec dm') as (_ & Hf & _ & _ & _ & Hvm & _).
    apply handleResult_spec in Hres
      as (infos & HF & _ & Ha & Hrs & _).
    rewrite Ha, Hrs, Hf, (inv_results _ Hinv), app_nil_r.
    apply Forall_app. split; [apply batch_args_signless, Hinv|].
    rewrite Hvm in HF.
    assert (Forall (λ kv, value_signless kv.2)
              (filter (λ kv, kv.1 ∉ (_args dm').*1) (_ivm dm'))) as Hfl
      by (apply Forall_filter_keep, Hvals).
    clear - HF Hfl. induction HF as [|kv i l infos Hi _ IH]; [constructor|].
    apply Forall_cons in Hfl as [Hkv Hfl]. rewrite fmap_cons.
    constructor; [|apply IH, Hfl].
    apply Hkv. unfold result_info in Hi.
    destruct (getType kv.2) as [ty|]; [|discriminate].
    destruct (getRank ty); inversion Hi; reflexivity.
Qed.

(** ** getDependent, addVal and drop *)

(** A value recorded for a guid stays until the guid is dropped. *)
Lemma do_call_keeps_value reg dm c reg' dm' guid val :
  keeps guid c -> ivm_find guid (_ivm dm) = Some val ->
  do_call (reg, dm) c = Ok (reg', dm') ->
  ivm_find guid (_ivm dm') = Some val.
Proof.
  intros Hk Hval Hrun. destruct c as [g|g v cb|g cb|g]; simpl in Hrun.
  - apply bind_Ok in Hrun as ([x dm1] & Hget & Hok). inversion Hok; subst.
    destruct (getDependent_inv _ _ _ _ _ Hget)
      as [[_ ->]|(fut & typ & Hfind & Hreg & Htyp & Heq)]; [exact Hval|].
    rewrite Heq in Hget. inversion Hget; subst; clear Hget Heq. simpl.
    assert (g <> guid) as Hne by (intros ->; congruence).
    rewrite <- (ivm_set_fresh _ _ _ Hfind), ivm_find_set_ne by exact Hne.
    exact Hval.
  - apply bind_Ok in Hrun as (dm1 & Hadd & Hok). inversion Hok; subst.
    unfold addVal in Hadd.
    destruct (ivm_find g (_ivm dm)) eqn:Hfind; [discriminate|].
    inversion Hadd; subst; clear Hadd. simpl.
    rewrite ivm_find_set_ne; [exact Hval|]. intros ->. congruence.
  - inversion Hrun; subst. exact Hval.
  - unfold DepManager_drop in Hrun. inversion Hrun; subst; clear Hrun. simpl.
    rewrite ivm_find_erase_ne; [exact Hval | exact Hk].
Qed.

Lemma do_calls_keep_value calls : forall reg dm reg' dm' guid val,
  Forall (keeps guid) calls -> ivm_find guid (_ivm dm) = Some val ->
  do_calls calls (reg, dm) = Ok (reg', dm') ->
  ivm_find guid (_ivm dm') = Some val.
Proof.
  unfold do_calls.
  induction calls as [|c calls IH]; intros reg dm reg' dm' guid val Hk Hval Hrun;
    simpl in Hrun.
  - inversion Hrun; subst. exact Hval.
  - apply Forall_cons in Hk as [Hc Hk].
    apply bind_Ok in Hrun as ([r1 d1] & Hstep & Hrun).
    eapply IH; [exact Hk| |exact Hrun].
    eapply do_call_keeps_value; eassumption.
Qed.


(** C4. [getDependent] on a guid of [_ivm] returns the recorded value and
    changes nothing.  On another guid it asks the Registry: a miss fails
    with MissingDependency; a hit whose type can be synthesised declares one
    argument at position [args.size() - 1] (counted after the append),
    appends the one pair [(guid, future)] to [_args], records the argument
    in [_ivm] and returns it, after which a second call with the same guid,
    right away or after any calls that do not drop the guid, returns the
    same value and adds nothing; a hit whose dtype is unknown fails with
    that error before anything changes. *)
Theorem getDependent_resolves reg dm guid :
  (forall v, ivm_find guid (_ivm dm) = Some v ->
     getDependent reg dm guid = Ok (v, dm)) /\
  (ivm_find guid (_ivm dm) = None -> reg !! guid = None ->
     getDependent reg dm guid = Err MissingDependency) /\
  (forall fut, ivm_find guid (_ivm dm) = None -> reg !! guid = Some fut ->
     match argument_type fut with
     | Err e => getDependent reg dm guid = Err e
     | Ok typ =>
         exists val dm',
           getDependent reg dm guid = Ok (val, dm') /\
           (* one argument, at position args.size() - 1 *)
           fn_args (_func dm') =
             insert_at (length (_args dm') - 1) typ (fn_args (_func dm)) /\
           length (fn_args (_func dm')) = S (length (fn_args (_func dm))) /\
           fn_results (_func dm') = fn_results (_func dm) /\
           (* one pair *)
           _args dm' = _args dm ++ [(guid, fut)] /\
           (* recorded and returned *)
           val = getArgument (length (_args dm)) (_func dm') /\
           _ivm dm' = _ivm dm ++ [(guid, val)] /\
           ivm_find guid (_ivm dm') = Some val /\
           _icm dm' = _icm dm /\ _icr dm' = _icr dm /\ _irm dm' = _irm dm /\
           (length (fn_args (_func dm)) = length (_args dm) ->
              val = BlockArgument (length (_args dm)) typ /\
              fn_args (_func dm') = fn_args (_func dm) ++ [typ]) /\
           (* the second call, right away or after other calls *)
           (forall reg2, getDependent reg2 dm' guid = Ok (val, dm')) /\
           (forall calls reg1 reg2 dm2,
              Forall (keeps guid) calls ->
              do_calls calls (reg1, dm') = Ok (reg2, dm2) ->
              getDependent reg2 dm2 guid = Ok (val, dm2))
     end).
Proof.
  split; [|split].
  - intros v Hfind. apply getDependent_known, Hfind.
  - intros Hfind Hreg. unfold getDependent, Registry_get.
    rewrite Hfind, Hreg. reflexivity.
  - intros fut Hfind Hreg. destruct (argument_type fut) as [typ|e] eqn:Htyp.
    + rewrite (getDependent_new _ _ _ _ _ Hfind Hreg Htyp).
      eexists _, _. split; [reflexivity|]. simpl.
      assert (ivm_find guid
                (_ivm dm ++ [(guid, getArgument (length (_args dm))
                   (insertArgument (length (_args dm)) typ (_func dm)))])
              = Some (getArgument (length (_args dm))
                   (insertArgument (length (_args dm)) typ (_func dm)))) as Hnew.
      { rewrite <- (ivm_set_fresh _ _ _ Hfind). apply ivm_find_set_eq. }
      repeat split; try reflexivity.
      * rewrite length_app. simpl. replace (length (_args dm) + 1 - 1)%nat
          with (length (_args dm)) by lia. reflexivity.
      * unfold insert_at. rewrite length_app. simpl.
        rewrite length_take, length_drop. lia.
      * exact Hnew.
      * apply (getArgument_inserted typ (_func dm)), H.
      * apply (getArgument_inserted typ (_func dm)), H.
      * intros reg2. apply getDependent_known. exact Hnew.
      * intros calls reg1 reg2 dm2 Hk Hrun. apply getDependent_known.
        eapply do_calls_keep_value; [exact Hk| |exact Hrun]. exact Hnew.
    + unfold getDependent, Registry_get. rewrite Hfind, Hreg. simpl.
      rewrite Htyp. reflexivity.
Qed.

(** C8. [addVal] on a guid already in [_ivm] is an InvariantViolation (the
    assertion).  On a new guid it records the value and the delivery
    callback, declares no argument and appends nothing to [_args], and a
    later [getDependent] of the guid, right away or after any calls that do
    not drop the guid, gives exactly this value back without touching the
    manager. *)
Theorem addVal_then_getDependent dm guid val cb :
  (is_Some (ivm_find guid (_ivm dm)) ->
     addVal dm guid val cb = Err InvariantViolation) /\
  (ivm_find guid (_ivm dm) = None ->
     exists dm',
       addVal dm guid val cb = Ok dm' /\
       ivm_find guid (_ivm dm') = Some val /\
       _ivm dm' = _ivm dm ++ [(guid, val)] /\
       _icm dm' !! guid = Some cb /\
       _func dm' = _func dm /\ _args dm' = _args dm /\
       (forall reg, getDependent reg dm' guid = Ok (val, dm')) /\
       (forall calls reg1 reg2 dm2,
          Forall (keeps guid) calls ->
          do_calls calls (reg1, dm') = Ok (reg2, dm2) ->
          getDependent reg2 dm2 guid = Ok (val, dm2))).
Proof.
  unfold addVal. split.
  - intros [v Hv]. rewrite Hv. reflexivity.
  - intros Hfind. rewrite Hfind. eexists. split; [reflexivity|]. simpl.
    assert (ivm_find guid (ivm_set guid val (_ivm dm)) = Some val) as Hnew
      by apply ivm_find_set_eq.
    repeat split; try reflexivity.
    + exact Hnew.
    + apply ivm_set_fresh, Hfind.
    + apply lookup_insert_eq.
    + intros reg. apply getDependent_known. exact Hnew.
    + intros calls reg1 reg2 dm2 Hk Hrun. apply getDependent_known.
      eapply do_calls_keep_value; [exact Hk| |exact Hrun]. exact Hnew.
Qed.

(** C7. [drop] removes the guid's entries from [_ivm], [_icm] and [_icr] and
    the guid from the Registry; every other guid keeps its entries in the
    three maps and in the Registry, and the remaining entries of [_ivm] keep
    their order.  When the guid has no entry in [_ivm] that map is left as it
    is and the Registry removal still happens.  The DROP service node does
    exactly this and then sets its promise. *)
Theorem drop_removes_only_guid reg dm guid :
  let reg' := (DepManager_drop reg dm guid).1 in
  let dm' := (DepManager_drop reg dm guid).2 in
  (ivm_find guid (_ivm dm') = None /\ _icm dm' !! guid = None /\
   _icr dm' !! guid = None /\ reg' !! guid = None) /\
  (forall g, g <> guid ->
     ivm_find g (_ivm dm') = ivm_find g (_ivm dm) /\
     _icm dm' !! g = _icm dm !! g /\
     _icr dm' !! g = _icr dm !! g /\
     reg' !! g = reg !! g) /\
  _ivm dm' = filter (λ kv, kv.1 ≠ guid) (_ivm dm) /\
  (_func dm' = _func dm /\ _irm dm' = _irm dm /\ _args dm' = _args dm) /\
  (ivm_find guid (_ivm dm) = None ->
     _ivm dm' = _ivm dm /\ reg' = delete guid reg) /\
  DeferredService_generate_mlir DROP guid reg dm = Ok (false, Some true, reg', dm').
Proof.
  unfold DepManager_drop, DeferredService_generate_mlir, Registry_del. simpl.
  split; [|split; [|split; [|split; [|split]]]].
  - repeat split.
    + apply ivm_find_erase_eq.
    + apply lookup_delete_eq.
    + apply lookup_delete_eq.
    + apply lookup_delete_eq.
  - intros g Hne. repeat split.
    + apply ivm_find_erase_ne. congruence.
    + apply lookup_delete_ne. congruence.
    + apply lookup_delete_ne. congruence.
    + apply lookup_delete_ne. congruence.
  - reflexivity.
  - auto.
  - intros Hfind. split; [|reflexivity].
    unfold ivm_erase.
    apply filter_keep_Forall, Forall_forall. intros [k v] Hkv Heq.
    simpl in Heq. subst k. apply ivm_find_None in Hfind. apply Hfind.
    apply list_elem_of_fmap. exists (guid, v). auto.
  - reflexivity.
Qed.

(** ** deliver *)

Lemma nth_skipn_add {A : Type} (n i : nat) (l : list A) (d : A) :
  nth i (skipn n l) d = nth (n + i) l d.
Proof.
  revert l. induction n as [|n IH]; intros l; [reflexivity|].
  destruct l as [|x l]; simpl; [destruct i; reflexivity | apply IH].
Qed.

Lemma getMR_memref_at rank output p :
  0 <= rank -> 0 <= p ->
  getMR rank (skipn (Z.to_nat p) output) = (memref_at rank output p, memref_sz rank).
Proof.
  intros Hr Hp. unfold getMR, memref_at. f_equal.
  rewrite !nth_skipn_add, !drop_drop.
  replace (Z.to_nat p + 0)%nat with (Z.to_nat p) by lia.
  replace (Z.to_nat p + 1)%nat with (Z.to_nat (p + 1)) by lia.
  replace (Z.to_nat p + 2)%nat with (Z.to_nat (p + 2)) by lia.
  replace (Z.to_nat p + 3)%nat with (Z.to_nat (p + 3)) by lia.
  replace (Z.to_nat p + (3 + Z.to_nat rank))%nat
    with (Z.to_nat (p + 3 + rank)) by lia.
  reflexivity.
Qed.

Lemma memref_sz_nonneg rank : 0 <= rank -> 0 <= memref_sz rank.
Proof. unfold memref_sz. lia. Qed.

Lemma deliver_spec dm output sz events pos dm' :
  deliver dm output sz = Ok (events, pos, dm') ->
  exists evs,
    events = evs ++ ready_events (_icr dm) /\
    length evs = length (_ivm dm) /\
    pos = total_words ((λ kv, irm_at (_irm dm) kv.1) <$> _ivm dm) /\
    (forall j kv, _ivm dm !! j = Some kv ->
       exists cb,
         _icm dm !! kv.1 = Some cb /\
         evs !! j = Some
           (deliver_entry cb (irm_at (_irm dm) kv.1).1 (irm_at (_irm dm) kv.1).2
              output
              (total_words ((λ kv, irm_at (_irm dm) kv.1) <$> take j (_ivm dm)))).1) /\
    _func dm' = _func dm /\ _ivm dm' = _ivm dm /\ _icm dm' = _icm dm /\
    _icr dm' = _icr dm /\ _args dm' = _args dm /\
    (forall g, irm_at (_irm dm') g = irm_at (_irm dm) g).
Proof.
  unfold deliver. intros Hrun. apply bind_Ok in Hrun as (st & Hloop & Hok).
  apply (deliver_loop _ _ (_irm dm)) in Hloop as (evs & He & Hl & Hp & Hi & Hj);
    [|reflexivity].
  simpl in *. injection Hok as Hev Hpos Hdm. subst events pos dm'.
  exists evs. simpl. rewrite He, Hp. repeat split; auto.
Qed.

(** C2. Decoding one result of rank R and distribution flag d moves the
    position by exactly [ptensor_sz R d] words.  A non-distributed or 0-rank
    result is one descriptor of [memref_sz R = 3 + 2R] words, laid out as
    allocated, aligned, offset, R sizes, R strides.  A distributed result of
    non-zero rank is three such descriptors (left halo, local data, right
    halo, in that order) followed by the rank-1 descriptor of the local
    offsets: [3 * memref_sz R + memref_sz 1] words.  Over a whole call of
    [deliver] the j-th result is decoded where the results before it end. *)
Theorem deliver_consumes_ptensor_words :
  (forall cb rank isD output pos,
     (deliver_entry cb rank isD output pos).2 - pos = ptensor_sz rank isD /\
     memref_sz rank = 3 + 2 * rank /\
     ptensor_sz rank isD =
       if isD && (0 <? rank) then 3 * memref_sz rank + memref_sz 1
       else memref_sz rank) /\
  (forall cb rank isD output pos, 0 <= rank -> 0 <= pos ->
     let ev := (deliver_entry cb rank isD output pos).1 in
     (isD = false \/ rank = 0 ->
        ptensor_sz rank isD = memref_sz rank /\
        ev = SetRes cb rank None (memref_at rank output pos) None None None) /\
     (isD = true /\ 0 < rank ->
        ptensor_sz rank isD = 3 * memref_sz rank + memref_sz 1 /\
        ev = SetRes cb rank
               (Some (memref_at rank output pos))
               (memref_at rank output (pos + memref_sz rank))
               (Some (memref_at rank output (pos + 2 * memref_sz rank)))
               (Some (nth (Z.to_nat (pos + 3 * memref_sz rank)) output 0))
               (Some (nth (Z.to_nat (pos + 3 * memref_sz rank + 1)) output 0 +
                      8 * nth (Z.to_nat (pos + 3 * memref_sz rank + 2)) output 0)))) /\
  (forall dm output sz events pos dm',
     deliver dm output sz = Ok (events, pos, dm') ->
     pos = total_words ((λ kv, irm_at (_irm dm) kv.1) <$> _ivm dm) /\
     forall j kv, _ivm dm !! j = Some kv ->
       exists cb,
         _icm dm !! kv.1 = Some cb /\
         events !! j = Some
           (deliver_entry cb (irm_at (_irm dm) kv.1).1 (irm_at (_irm dm) kv.1).2
              output
              (total_words ((λ kv, irm_at (_irm dm) kv.1) <$> take j (_ivm dm)))).1).
Proof.
  split; [|split].
  - intros cb rank isD output pos.
    split; [rewrite deliver_entry_pos; lia|]. split; reflexivity.
  - intros cb rank isD output pos Hr Hp. simpl.
    pose proof (memref_sz_nonneg rank Hr) as Hm.
    unfold deliver_entry, ptensor_sz. split.
    + intros Hnd.
      assert ((0 <? rank) && isD = false) as E1
        by (destruct Hnd as [->| ->]; [apply andb_false_r | reflexivity]).
      assert (isD && (0 <? rank) = false) as E2 by (rewrite andb_comm; exact E1).
      rewrite E1, E2, getMR_memref_at by assumption. auto.
    + intros [-> Hpos]. apply Z.ltb_lt in Hpos as Hlt. rewrite Hlt.
      cbn [andb].
      do 3 (rewrite getMR_memref_at by lia; cbn beta iota zeta).
      split; [reflexivity|].
      replace (pos + memref_sz rank + memref_sz rank)
        with (pos + 2 * memref_sz rank) by lia.
      replace (pos + 2 * memref_sz rank + memref_sz rank)
        with (pos + 3 * memref_sz rank) by lia.
      reflexivity.
  - intros dm output sz events pos dm' Hrun.
    apply deliver_spec in Hrun as (evs & -> & Hl & Hp & Hj & _).
    split; [exact Hp|]. intros j kv Hkv.
    destruct (Hj j kv Hkv) as (cb & Hcb & Hev). exists cb. split; [exact Hcb|].
    rewrite lookup_app_l; [exact Hev|].
    rewrite Hl. eapply lookup_lt_Some, Hkv.
Qed.

(** ** handleResult *)

Lemma result_info_inv v ty rank d :
  result_info v = Some (ty, (rank, d)) ->
  getType v = Some ty /\ getRank ty = Ok rank /\ d = isDist ty /\ 0 <= rank.
Proof.
  unfold result_info. destruct (getType v) as [t|]; [|discriminate].
  destruct (getRank t) as [r|e] eqn:Hr; [|discriminate].
  intros [= -> -> <-]. repeat split; auto.
  destruct ty; simpl in Hr; try discriminate. inversion Hr. lia.
Qed.

Lemma ptensor_sz_nonneg rank d : 0 <= rank -> 0 <= ptensor_sz rank d.
Proof.
  unfold ptensor_sz, memref_sz. intros H. destruct (d && (0 <? rank)); lia.
Qed.

Lemma total_words_cons i l :
  total_words (i :: l) = ptensor_sz i.1 i.2 + total_words l.
Proof. reflexivity. Qed.

Lemma total_words_nonneg (l : list (id_type * Value)) infos :
  Forall2 (λ kv i, result_info kv.2 = Some i) l infos ->
  0 <= total_words infos.*2.
Proof.
  induction 1 as [|kv [ty [rank d]] l infos Hi _ IH]; [simpl; lia|].
  apply result_info_inv in Hi as (_ & _ & _ & Hr).
  pose proof (ptensor_sz_nonneg rank d Hr).
  rewrite fmap_cons, total_words_cons. simpl fst. simpl snd. lia.
Qed.

(** C3. Each step of [handleResult]'s loop stores the value at the current
    index of the return list, inserts its type at that index of the result
    types, records (rank, isDist) for the guid and adds [ptensor_sz rank
    isDist] to the running size.  So for the j-th surviving entry of [_ivm]
    the j-th returned value is its value, the j-th result type is its type
    and [_irm] holds its (rank, isDist); the return operation is emitted
    last, and the call returns twice the running total (in 64-bit unsigned
    arithmetic; exactly twice the sum of the words when that fits). *)
Theorem handleResult_returns_twice_the_words :
  (forall st v st1, handleResult_step st v = Ok st1 ->
     exists ty rank,
       getType v.2 = Some ty /\ getRank ty = Ok rank /\
       hr_ret_values st1 = <[hr_idx st := v.2]> (hr_ret_values st) /\
       hr_func st1 = insertResult (hr_idx st) ty (hr_func st) /\
       hr_irm st1 = <[v.1 := (rank, isDist ty)]> (hr_irm st) /\
       hr_sz st1 = to_uint64 (hr_sz st + ptensor_sz rank (isDist ty)) /\
       hr_idx st1 = S (hr_idx st)) /\
  (forall itac b dm osz b' dm',
     handleResult itac b dm = Ok (osz, b', dm') ->
     NoDup (_ivm dm).*1 ->
     exists infos,
       length infos = length (_ivm dm) /\
       (forall j g v, _ivm dm !! j = Some (g, v) ->
          exists ty rank,
            getType v = Some ty /\ getRank ty = Ok rank /\
            infos !! j = Some (ty, (rank, isDist ty)) /\
            (_ivm dm).*2 !! j = Some v /\
            fn_results (_func dm') !! j = Some ty /\
            _irm dm' !! g = Some (rank, isDist ty)) /\
       block b' = block (before_return itac b) ++ [ReturnOp (_ivm dm).*2] /\
       fn_results (_func dm') = infos.*1 ++ fn_results (_func dm) /\
       fn_args (_func dm') = fn_args (_func dm) /\
       infos.*2 = (λ kv, irm_at (_irm dm') kv.1) <$> _ivm dm /\
       osz = to_uint64 (2 * to_uint64 (total_words infos.*2)) /\
       (2 * total_words infos.*2 < 2 ^ 64 -> osz = 2 * total_words infos.*2)).
Proof.
  split.
  - intros st v st1 Hstep.
    apply handleResult_step_Ok in Hstep as (ty & rank & Hinfo & ->).
    apply result_info_inv in Hinfo as (Hty & Hrank & _ & _).
    exists ty, rank. simpl. auto 10.
  - intros itac b dm osz b' dm' Hrun Hnd.
    apply handleResult_spec in Hrun
      as (infos & HF & Hb & Ha & Hrs & Hosz & Hv & _ & _ & _ & _ & Hn).
    exists infos. split; [symmetry; eapply Forall2_length, HF|].
    split; [|split; [exact Hb|split; [exact Hrs|split; [exact Ha|split;
      [|split; [exact Hosz|]]]]]].
    + intros j g v Hj.
      destruct (Forall2_lookup_l _ _ _ _ _ HF Hj) as ([ty [rank d]] & Hi & Hinfo).
      simpl in Hinfo. apply result_info_inv in Hinfo as (Hty & Hrank & -> & _).
      exists ty, rank. repeat split; auto.
      * rewrite list_lookup_fmap, Hj. reflexivity.
      * rewrite Hrs, lookup_app_l.
        -- rewrite list_lookup_fmap, Hi. reflexivity.
        -- rewrite length_fmap. eapply lookup_lt_Some, Hi.
      * apply (Hn Hnd j (g, v) _ Hj Hi).
    + apply list_eq. intros j. rewrite !list_lookup_fmap.
      destruct (_ivm dm !! j) as [kv|] eqn:Hj; simpl.
      * destruct (Forall2_lookup_l _ _ _ _ _ HF Hj) as (i & Hi & _).
        rewrite Hi. simpl. unfold irm_at. rewrite (Hn Hnd j kv i Hj Hi).
        reflexivity.
      * apply lookup_ge_None in Hj. rewrite (Forall2_length _ _ _ HF) in Hj.
        apply lookup_ge_None in Hj. rewrite Hj. reflexivity.
    + intros Hfit. pose proof (total_words_nonneg _ _ HF) as Hpos.
      rewrite Hosz, (to_uint64_small (total_words infos.*2)) by lia.
      apply to_uint64_small. lia.
Qed.

(** ** Order of arguments, results and deliveries *)

Lemma do_call_order reg dm c reg' dm' :
  batch_inv dm -> do_call (reg, dm) c = Ok (reg', dm') ->
  ((_args dm' = _args dm /\ fn_args (_func dm') = fn_args (_func dm)) \/
   (exists g fut typ,
      _args dm' = _args dm ++ [(g, fut)] /\ argument_type fut = Ok typ /\
      fn_args (_func dm') = fn_args (_func dm) ++ [typ])) /\
  (_ivm dm' = _ivm dm \/
   (exists g v, ivm_find g (_ivm dm) = None /\ _ivm dm' = _ivm dm ++ [(g, v)]) \/
   (exists g, _ivm dm' = filter (λ kv, kv.1 ≠ g) (_ivm dm))).
Proof.
  intros Hinv Hrun. destruct c as [g|g val cb|g cb|g]; simpl in Hrun.
  - apply bind_Ok in Hrun as ([v dm1] & Hget & Hok). inversion Hok; subst.
    destruct (getDependent_inv _ _ _ _ _ Hget)
      as [[_ ->]|(fut & typ & Hfind & Hreg & Htyp & Heq)]; [auto|].
    rewrite Heq in Hget. inversion Hget; subst; clear Hget Heq. simpl.
    pose proof (Forall2_length _ _ _ (inv_args dm Hinv)) as Hlen.
    split.
    + right. exists g, fut, typ. repeat split; auto.
      rewrite <- Hlen. apply insert_at_end.
    + right. left. eauto.
  - apply bind_Ok in Hrun as (dm1 & Hadd & Hok). inversion Hok; subst.
    unfold addVal in Hadd.
    destruct (ivm_find g (_ivm dm)) eqn:Hfind; [discriminate|].
    inversion Hadd; subst; clear Hadd. simpl. split; [auto|].
    right. left. exists g, val. split; [exact Hfind|].
    apply ivm_set_fresh, Hfind.
  - inversion Hrun; subst. simpl. auto.
  - unfold DepManager_drop in Hrun. inversion Hrun; subst; clear Hrun. simpl.
    split; [auto|]. right. right. exists g. reflexivity.
Qed.

(** C1. In every batch: a call either leaves [_args] and the declared
    arguments alone or appends one pair and, at the same last position, its
    argument type, so the declared arguments are in the insertion order of
    [_args]; a call leaves [_ivm], appends one entry at its end, or removes
    one guid and keeps the others in order.  [handleResult] returns the
    values of [_ivm] in that order and declares their types in that order;
    [deliver] then walks the same guids in the same order: its j-th call
    goes to the callback of the j-th guid, with the (rank, isDist) that
    [handleResult] recorded for it, decoding where the j results before it
    end. *)
Theorem batch_order_is_stable :
  (forall reg dm c reg' dm',
     batch_inv dm -> do_call (reg, dm) c = Ok (reg', dm') ->
     ((_args dm' = _args dm /\ fn_args (_func dm') = fn_args (_func dm)) \/
      (exists g fut typ,
         _args dm' = _args dm ++ [(g, fut)] /\ argument_type fut = Ok typ /\
         fn_args (_func dm') = fn_args (_func dm) ++ [typ])) /\
     (_ivm dm' = _ivm dm \/
      (exists g v, ivm_find g (_ivm dm) = None /\ _ivm dm' = _ivm dm ++ [(g, v)]) \/
      (exists g, _ivm dm' = filter (λ kv, kv.1 ≠ g) (_ivm dm)))) /\
  (forall reg calls reg1 dm1 itac b osz b' dm3,
     do_calls calls (reg, new_DepManager) = Ok (reg1, dm1) ->
     handleResult itac b (store_inputs dm1).2 = Ok (osz, b', dm3) ->
     let dm2 := (store_inputs dm1).2 in
     batch_inv dm1 /\
     Forall2 (λ t a, argument_type a.2 = Ok t) (fn_args (_func dm3)) (_args dm1) /\
     (store_inputs dm1).1 = concat ((λ a, descriptor a.2) <$> _args dm1) /\
     _ivm dm2 = filter (λ kv, kv.1 ∉ (_args dm1).*1) (_ivm dm1) /\
     block b' = block (before_return itac b) ++ [ReturnOp (_ivm dm2).*2] /\
     Forall2 (λ t kv, getType kv.2 = Some t) (fn_results (_func dm3)) (_ivm dm2) /\
     (_ivm dm3).*1 = (_ivm dm2).*1 /\
     forall output, exists evs pos dm4,
       deliver dm3 output osz = Ok (evs ++ ready_events (_icr dm3), pos, dm4) /\
       length evs = length (_ivm dm2) /\
       forall j g v, _ivm dm2 !! j = Some (g, v) ->
         exists cb ty rank,
           (_ivm dm2).*2 !! j = Some v /\
           fn_results (_func dm3) !! j = Some ty /\
           getType v = Some ty /\ getRank ty = Ok rank /\
           (_ivm dm3).*1 !! j = Some g /\
           _icm dm3 !! g = Some cb /\
           _irm dm3 !! g = Some (rank, isDist ty) /\
           evs !! j = Some
             (deliver_entry cb rank (isDist ty) output
                (total_words
                   ((λ kv, irm_at (_irm dm3) kv.1) <$> take j (_ivm dm2)))).1).
Proof.
  split; [intros; eapply do_call_order; eassumption|].
  intros reg calls reg1 dm1 itac b osz b' dm3 Hrun Hres dm2.
  pose proof (do_calls_inv _ _ _ _ _ new_DepManager_inv Hrun) as Hinv.
  destruct (store_inputs_spec dm1) as (Hinp & Hf & Hargs & Hcr & Hrm & Hvm & Hcm).
  pose proof (store_inputs_owner dm1 Hinv) as Hown.
  pose proof (store_inputs_NoDup dm1 (inv_nodup _ Hinv)) as Hnd.
  fold dm2 in Hf, Hargs, Hcr, Hrm, Hvm, Hcm, Hown, Hnd, Hres.
  apply handleResult_spec in Hres
    as (infos & HF & Hb & Ha & Hrs & Hosz & Hv & Hcm3 & Hcr3 & Hargs3 & Hm & Hn).
  rewrite Hf, (inv_results _ Hinv), app_nil_r in Hrs.
  assert ((_ivm dm3).*1 = (_ivm dm2).*1) as Hkeys.
  { rewrite Hv, <- list_fmap_compose. reflexivity. }
  split; [exact Hinv|].
  split; [rewrite Ha, Hf; apply (inv_args _ Hinv)|].
  split; [exact Hinp|]. split; [exact Hvm|]. split; [exact Hb|].
  split.
  { rewrite Hrs. apply Forall2_fmap_l, Forall2_flip.
    eapply Forall2_impl; [exact HF|]. intros kv [ty [rank d]] Hi. simpl.
    apply result_info_inv in Hi as (Hty & _). exact Hty. }
  split; [exact Hkeys|].
  intros output.
  assert (Forall (λ kv, is_Some (_icm dm3 !! kv.1)) (_ivm dm3)) as Hall.
  { apply Forall_forall. intros kv Hkv. rewrite Hcm3. apply Hown.
    rewrite <- Hkeys. apply list_elem_of_fmap. eauto. }
  destruct (deliver_loop_total _ output _
              {| dl_pos := 0; dl_events := []; dl_irm := _irm dm3 |} Hall)
    as [st Hst].
  assert (exists events pos dm4, deliver dm3 output osz = Ok (events, pos, dm4))
    as (events & pos & dm4 & Hdel).
  { unfold deliver. rewrite Hst. simpl. eauto. }
  destruct (deliver_spec _ _ _ _ _ _ Hdel)
    as (evs & -> & Hl & _ & Hj & _).
  exists evs, pos, dm4. split; [exact Hdel|].
  split; [rewrite Hl, Hv, length_fmap; reflexivity|].
  intros j g v Hjv.
  destruct (Forall2_lookup_l _ _ _ _ _ HF Hjv) as ([ty [rank d]] & Hi & Hinfo).
  simpl in Hinfo. apply result_info_inv in Hinfo as (Hty & Hrank & -> & _).
  assert (_ivm dm3 !! j = Some (g, NullValue)) as Hj3
    by (rewrite Hv, list_lookup_fmap, Hjv; reflexivity).
  destruct (Hj j _ Hj3) as (cb & Hcb & Hev). simpl in Hcb, Hev.
  pose proof (Hn Hnd j (g, v) _ Hjv Hi) as Hirm. simpl in Hirm.
  exists cb, ty, rank.
  split; [rewrite list_lookup_fmap, Hjv; reflexivity|].
  split; [rewrite Hrs, list_lookup_fmap, Hi; reflexivity|].
  split; [exact Hty|]. split; [exact Hrank|].
  split; [rewrite list_lookup_fmap, Hj3; reflexivity|].
  split; [exact Hcb|]. split; [exact Hirm|].
  rewrite Hev. unfold irm_at at 1 2. rewrite Hirm. simpl.
  rewrite Hv, <- fmap_take, <- list_fmap_compose. reflexivity.
Qed.

(** ** The engine cache *)

Section EngineCache.
Context `{Backend}.

Lemma createExecutionEngine_Ok built module e lowered built' :
  createExecutionEngine built module = Ok (e, lowered, built') ->
  pm_run module = Some lowered /\ engine_create lowered = true /\
  e = {| engine_id := built; engine_module := lowered |} /\ built' = S built.
Proof.
  unfold createExecutionEngine. destruct (pm_run module) as [l|]; [|discriminate].
  destruct (engine_create l) eqn:Hc; [|discriminate].
  intros [= <- <- <-]. auto.
Qed.

Lemma run_engine_hit st module e :
  engineCache st !! sha1 module = Some e ->
  run_engine true st module = Ok (e, module, st).
Proof. unfold run_engine. intros ->. reflexivity. Qed.

Lemma run_engine_miss st module :
  engineCache st !! sha1 module = None ->
  run_engine true st module =
  match pm_run module with
  | None => Err PassFailure
  | Some lowered =>
      if engine_create lowered then
        Ok ({| engine_id := engines_built st; engine_module := lowered |}, lowered,
            {| engineCache :=
                 <[sha1 module := {| engine_id := engines_built st;
                                     engine_module := lowered |}]> (engineCache st);
               engines_built := S (engines_built st) |})
      else Err CompileFailure
  end.
Proof.
  unfold run_engine, createExecutionEngine. intros ->.
  destruct (pm_run module) as [l|]; [|reflexivity].
  destruct (engine_create l); reflexivity.
Qed.

Lemma run_engine_step useCache st module e module' st' :
  run_engine useCache st module = Ok (e, module', st') ->
  jit_inv st ->
  jit_inv st' /\
  (forall k e0, engineCache st !! k = Some e0 -> engineCache st' !! k = Some e0) /\
  (useCache = true -> engineCache st' !! sha1 module = Some e).
Proof.
  intros Hrun [Hfresh Hdist]. destruct useCache.
  - destruct (engineCache st !! sha1 module) as [e0|] eqn:Hc.
    + rewrite (run_engine_hit _ _ _ Hc) in Hrun. inversion Hrun; subst.
      repeat split; auto.
    + rewrite (run_engine_miss _ _ Hc) in Hrun.
      destruct (pm_run module) as [l|]; [|discriminate].
      destruct (engine_create l); [|discriminate].
      inversion Hrun; subst; clear Hrun. unfold jit_inv. simpl.
      split; [split|split].
      * intros k e0. destruct (decide (sha1 module = k)) as [<-|Hne].
        -- rewrite lookup_insert_eq. intros [= <-]. simpl. lia.
        -- rewrite lookup_insert_ne by exact Hne. intros He.
           apply Hfresh in He. lia.
      * intros k1 k2 e1 e2.
        destruct (decide (sha1 module = k1)) as [<-|Hn1];
          destruct (decide (sha1 module = k2)) as [<-|Hn2];
          rewrite ?lookup_insert_eq, ?lookup_insert_ne by assumption.
        -- reflexivity.
        -- intros [= <-] H2 Hid. apply Hfresh in H2. simpl in Hid. lia.
        -- intros H1 [= <-] Hid. apply Hfresh in H1. simpl in Hid. lia.
        -- apply Hdist.
      * intros k e0 He. rewrite lookup_insert_ne; [exact He|].
        intros <-. congruence.
      * intros _. apply lookup_insert_eq.
  - unfold run_engine in Hrun.
    apply bind_Ok in Hrun as ([[e1 l1] n1] & Hcreate & Hok).
    apply createExecutionEngine_Ok in Hcreate as (_ & _ & _ & ->).
    inversion Hok; subst; clear Hok. unfold jit_inv. simpl.
    split; [split|split].
    + intros k e0 He. apply Hfresh in He. lia.
    + exact Hdist.
    + auto.
    + discriminate.
Qed.

Lemma jit_reaches_keeps st st' :
  jit_reaches st st' -> jit_inv st ->
  jit_inv st' /\
  (forall k e, engineCache st !! k = Some e -> engineCache st' !! k = Some e).
Proof.
  induction 1 as [st|st st1 st2 uc m e m' _ IH Hrun]; intros Hinv; [auto|].
  destruct (IH Hinv) as [Hinv1 Hle1].
  destruct (run_engine_step _ _ _ _ _ _ Hrun Hinv1) as (Hinv2 & Hle2 & _).
  auto.
Qed.

Lemma run_engine_cached st module e module' st' :
  run_engine true st module = Ok (e, module', st') ->
  engineCache st' !! sha1 module = Some e.
Proof.
  intros Hrun. destruct (engineCache st !! sha1 module) as [e0|] eqn:Hc.
  - rewrite (run_engine_hit _ _ _ Hc) in Hrun. inversion Hrun; subst. exact Hc.
  - rewrite (run_engine_miss _ _ Hc) in Hrun.
    destruct (pm_run module) as [l|]; [|discriminate].
    destruct (engine_create l); [|discriminate].
    inversion Hrun; subst. simpl. apply lookup_insert_eq.
Qed.

Lemma new_JitState_inv : jit_inv new_JitState.
Proof.
  split; simpl.
  - intros k e He. rewrite lookup_empty in He. discriminate.
  - intros k1 k2 e1 e2 He. rewrite lookup_empty in He. discriminate.
Qed.

End EngineCache.

Section JitRun.
Context `{Backend}.

(** C5. With the cache on, the key of a module is the sha1 of its text as
    [run] holds it before [createExecutionEngine] lowers it.  A key already
    in the cache gives back the stored engine: no engine is built, the
    module is not lowered and the state does not change.  Otherwise an
    engine is built from the lowered module and stored under that key.
    Nothing ever leaves the cache.  Hence, over the life of a process, two
    modules with identical text share one engine, two cached runs use
    distinct engines exactly when the digests of their texts differ, and so
    two texts that differ get distinct engines whenever SHA-1 tells them
    apart. *)
Theorem engine_cache_keyed_by_text_sha1 :
  (forall has_itac useCache st module fname inp osz r,
     run has_itac useCache st module fname inp osz = Ok r ->
     run_engine useCache st (if has_itac then vt_decls module else module)
     = Ok (rr_engine r, rr_module r, rr_state r)) /\
  (forall st module e,
     engineCache st !! sha1 module = Some e ->
     run_engine true st module = Ok (e, module, st)) /\
  (forall st module,
     engineCache st !! sha1 module = None ->
     run_engine true st module =
     match pm_run module with
     | None => Err PassFailure
     | Some lowered =>
         if engine_create lowered then
           Ok ({| engine_id := engines_built st; engine_module := lowered |},
               lowered,
               {| engineCache :=
                    <[sha1 module := {| engine_id := engines_built st;
                                        engine_module := lowered |}]>
                      (engineCache st);
                  engines_built := S (engines_built st) |})
         else Err CompileFailure
     end) /\
  (forall st st', jit_reaches st st' ->
     forall k e, engineCache st !! k = Some e -> engineCache st' !! k = Some e) /\
  (forall st0 st1 st2 st3 m1 m2 e1 e2 l1 l2,
     jit_reaches new_JitState st0 ->
     run_engine true st0 m1 = Ok (e1, l1, st1) ->
     jit_reaches st1 st2 ->
     run_engine true st2 m2 = Ok (e2, l2, st3) ->
     (m1 = m2 -> e2 = e1 /\ st3 = st2 /\ l2 = m2) /\
     (engine_id e1 <> engine_id e2 <-> sha1 m1 <> sha1 m2) /\
     ((sha1 m1 = sha1 m2 -> m1 = m2) ->
      m1 <> m2 -> engine_id e1 <> engine_id e2 /\ e1 <> e2)).
Proof.
  split; [|split; [|split; [|split]]].
  - intros has_itac useCache st module fname inp osz r Hrun. unfold run in Hrun.
    apply bind_Ok in Hrun as ([[e m] st'] & Hre & Hrun).
    destruct (negb (lookupPacked _ _)); [discriminate|].
    inversion Hrun; subst. exact Hre.
  - apply run_engine_hit.
  - apply run_engine_miss.
  - intros st st' Hreach. induction Hreach as [st|st st1 st2 uc m e m' _ IH Hrun];
      intros k e0 He; [exact He|].
    apply IH in He. unfold run_engine in Hrun. destruct uc.
    + destruct (engineCache st1 !! sha1 m) as [e1|] eqn:Hc.
      * inversion Hrun; subst. exact He.
      * apply bind_Ok in Hrun as ([[e1 l1] n1] & _ & Hok).
        inversion Hok; subst. simpl. rewrite lookup_insert_ne; [exact He|].
        intros <-. congruence.
    + apply bind_Ok in Hrun as ([[e1 l1] n1] & _ & Hok).
      inversion Hok; subst. exact He.
  - intros st0 st1 st2 st3 m1 m2 e1 e2 l1 l2 Hr0 Hrun1 Hr12 Hrun2.
    destruct (jit_reaches_keeps _ _ Hr0 new_JitState_inv) as [Hinv0 _].
    destruct (run_engine_step _ _ _ _ _ _ Hrun1 Hinv0) as (Hinv1 & _ & Hin1).
    specialize (Hin1 eq_refl).
    destruct (jit_reaches_keeps _ _ Hr12 Hinv1) as [Hinv2 Hle12].
    apply Hle12 in Hin1 as Hin2.
    destruct (run_engine_step _ _ _ _ _ _ Hrun2 Hinv2) as (Hinv3 & Hle23 & Hin3).
    specialize (Hin3 eq_refl). apply Hle23 in Hin2 as Hin13.
    assert (engine_id e1 = engine_id e2 <-> sha1 m1 = sha1 m2) as Hiff.
    { split.
      - intros Hid. destruct Hinv3 as [_ Hdist]. eapply Hdist; eassumption.
      - intros Heq. rewrite Heq in Hin13. congruence. }
    split; [|split].
    + intros <-. rewrite (run_engine_hit _ _ _ Hin2) in Hrun2.
      inversion Hrun2; subst. auto.
    + rewrite Hiff. reflexivity.
    + intros Hinj Hne.
      assert (engine_id e1 <> engine_id e2) as Hid
        by (rewrite Hiff; intros E; apply Hne, Hinj, E).
      split; [exact Hid|]. intros E. apply Hid. rewrite E. reflexivity.
Qed.

Lemma write_words_length ws out : length (write_words ws out) = length out.
Proof.
  unfold write_words. rewrite length_take, length_app, length_drop. lia.
Qed.

Lemma call_packed_length engine fname args inp out :
  length (call_packed engine fname args inp out) = length out.
Proof.
  unfold call_packed. destruct args as [|[|slot] args]; try reflexivity.
  apply write_words_length.
Qed.

(** C9. The argument vector [run] passes holds the address of the output
    pointer, in first place, exactly when the reported size is not zero;
    after it comes one address per slot of [inp], in the order of [inp],
    which is the order in which [store_inputs] appended the descriptors of
    [_args].  The buffer returned has exactly the reported number of words. *)
Theorem run_packs_output_then_inputs has_itac useCache st module fname inp osz r :
  0 <= osz ->
  run has_itac useCache st module fname inp osz = Ok r ->
  let first := if osz =? 0 then 0%nat else 1%nat in
  rr_args r = pack_args osz inp /\
  (rr_args r !! 0%nat = Some AddrOfOutput <-> osz <> 0) /\
  (AddrOfOutput ∈ rr_args r <-> osz <> 0) /\
  length (rr_args r) = (first + length inp)%nat /\
  (forall i, (i < length inp)%nat ->
     rr_args r !! (first + i)%nat = Some (AddrOfInput i)) /\
  (forall dm, inp = (store_inputs dm).1 ->
     inp = concat ((λ a, descriptor a.2) <$> _args dm)) /\
  Z.of_nat (length (rr_out r)) = osz.
Proof.
  intros Hosz Hrun first. unfold run in Hrun.
  apply bind_Ok in Hrun as ([[e m] st'] & _ & Hrun).
  destruct (negb (lookupPacked _ _)); [discriminate|].
  inversion Hrun; subst; clear Hrun. simpl.
  assert (forall l, AddrOfOutput ∉ imap (λ (i : nat) (_ : Z), AddrOfInput i) l) as Hno.
  { intros l Hin. apply list_elem_of_lookup in Hin as [i Hi].
    rewrite list_lookup_imap in Hi. destruct (l !! i); discriminate. }
  unfold pack_args, first. destruct (Z.eqb_spec osz 0) as [->|Hne]; simpl.
  - split; [reflexivity|]. split.
    { split; [|congruence]. intros Hhd. exfalso. apply (Hno inp).
      apply list_elem_of_lookup. eauto. }
    split; [split; [intros Hin; exfalso; apply (Hno inp), Hin | congruence]|].
    split; [apply length_imap|].
    split.
    { intros i Hi. rewrite list_lookup_imap.
      destruct (lookup_lt_is_Some_2 inp i Hi) as [x ->]. reflexivity. }
    split; [intros dm ->; apply store_inputs_spec|].
    rewrite call_packed_length. reflexivity.
  - split; [reflexivity|]. split; [tauto|].
    split; [split; [auto|intros _; apply elem_of_cons; auto]|].
    split; [rewrite length_imap; reflexivity|].
    split.
    { intros i Hi. rewrite list_lookup_imap.
      destruct (lookup_lt_is_Some_2 inp i Hi) as [x ->]. reflexivity. }
    split; [intros dm ->; apply store_inputs_spec|].
    rewrite write_words_length, length_replicate. lia.
Qed.

End JitRun.

(** ** Creation front-ends *)

(** C10. The node that [full], [arange] and [linspace] queue stores
    [mkTeam team], not the team the caller asked for: 1 when that team is
    not 0 and the transceiver has more than one rank, 0 otherwise.  On a run
    with one rank the stored team is 0 whatever was asked, and each node
    hands a null team to its creating operation: the array is not
    distributed. *)
Theorem creators_store_mkTeam (V F : Type) (tc : Transceiver) (team : Z) :
  (forall shape (v : V) dtype,
     _team (node_base (Creator_full (F := F) tc shape v dtype team)) = mkTeam tc team) /\
  (forall start end_ step dtype,
     _team (node_base (Creator_arange (V := V) (F := F) tc start end_ step dtype team))
     = mkTeam tc team) /\
  (forall (start end_ : F) num endpoint dtype,
     _team (node_base (Creator_linspace (V := V) tc start end_ num endpoint dtype team))
     = mkTeam tc team) /\
  (team <> 0 /\ 1 < nranks tc -> mkTeam tc team = 1) /\
  (team = 0 \/ nranks tc <= 1 -> mkTeam tc team = 0) /\
  (nranks tc <= 1 ->
     (forall shape (v : V) dtype,
        team_operand tc (Creator_full (F := F) tc shape v dtype team) = None) /\
     (forall start end_ step dtype,
        team_operand tc (Creator_arange (V := V) (F := F) tc start end_ step dtype team)
        = None) /\
     (forall (start end_ : F) num endpoint dtype,
        team_operand tc (Creator_linspace (V := V) tc start end_ num endpoint dtype team)
        = None)).
Proof.
  assert (team = 0 \/ nranks tc <= 1 -> mkTeam tc team = 0) as Hzero.
  { unfold mkTeam. intros [->|Hn]; [reflexivity|].
    destruct (Z.ltb_spec 1 (nranks tc)); [lia|]. rewrite andb_false_r.
    reflexivity. }
  split; [reflexivity|]. split; [reflexivity|]. split; [reflexivity|].
  split.
  { unfold mkTeam. intros [Ht Hn].
    destruct (Z.eqb_spec team 0); [contradiction|].
    destruct (Z.ltb_spec 1 (nranks tc)); [reflexivity|lia]. }
  split; [exact Hzero|].
  intros Hn. unfold team_operand. simpl. rewrite Hzero by auto. auto.
Qed.

(** * The statements on the sample batch *)

Lemma sample_calls_run :
  do_calls sample_calls (sample_registry, new_DepManager)
  = Ok (sample_registry, sample_dm1).
Proof. vm_compute. reflexivity. Qed.

Lemma sample_handleResult_run :
  handleResult None sample_builder (store_inputs sample_dm1).2
  = Ok (50, sample_builder3, sample_dm3).
Proof. vm_compute. reflexivity. Qed.

(** C1 on the sample batch: the two created arrays are returned and
    delivered in the order they were created. *)
Lemma batch_order_is_stable_sample :
  do_calls sample_calls (sample_registry, new_DepManager)
  = Ok (sample_registry, sample_dm1) /\
  handleResult None sample_builder (store_inputs sample_dm1).2
  = Ok (50, sample_builder3, sample_dm3) /\
  (_ivm sample_dm3).*1 = [3; 4] /\
  exists evs pos dm4,
    deliver sample_dm3 sample_output 50
    = Ok (evs ++ ready_events (_icr sample_dm3), pos, dm4) /\
    length evs = 2%nat.
Proof.
  split; [exact sample_calls_run|]. split; [exact sample_handleResult_run|].
  destruct (proj2 batch_order_is_stable _ _ _ _ _ _ _ _ _
              sample_calls_run sample_handleResult_run)
    as (_ & _ & _ & _ & _ & _ & Hk & Hd).
  split; [rewrite Hk; vm_compute; reflexivity|].
  destruct (Hd sample_output) as (evs & pos & dm4 & Hdel & Hlen & _).
  exists evs, pos, dm4. split; [exact Hdel|]. rewrite Hlen. reflexivity.
Defined.

(** C2 on a distributed rank-1 result at word 5 of the sample buffer. *)
Lemma deliver_consumes_ptensor_words_sample :
  0 <= 1 /\ 0 <= 5 /\ (true = true /\ 0 < 1) /\
  (deliver_entry 40%nat 1 true sample_output 5).2 - 5 = 20 /\
  (deliver_entry 40%nat 1 true sample_output 5).1
  = SetRes 40%nat 1 (Some (mkMemRef 105 106 107 [108] [109]))
      (mkMemRef 110 111 112 [113] [114])
      (Some (mkMemRef 115 116 117 [118] [119])) (Some 120) (Some 1097).
Proof.
  assert (0 <= 1) as Hr by lia. assert (0 <= 5) as Hp by lia.
  assert (true = true /\ 0 < 1) as Hd by (split; [reflexivity|lia]).
  split; [exact Hr|]. split; [exact Hp|]. split; [exact Hd|].
  destruct deliver_consumes_ptensor_words as (Hwords & Hlayout & _).
  destruct (Hwords 40%nat 1 true sample_output 5) as (Hw & _ & _).
  destruct (Hlayout 40%nat 1 true sample_output 5 Hr Hp) as (_ & Hdist).
  destruct (Hdist Hd) as [Hsz Hev].
  split; [rewrite Hw, Hsz; reflexivity|]. rewrite Hev. vm_compute. reflexivity.
Defined.

Lemma sample_dm2_NoDup : NoDup (_ivm sample_dm2).*1.
Proof.
  change (NoDup [3; 4]). apply NoDup_cons. split.
  - intros Hin. apply list_elem_of_singleton in Hin. discriminate.
  - apply NoDup_singleton.
Qed.

(** C3 on the sample batch: 5 words for the local array, 20 for the
    distributed one, 50 reported. *)
Lemma handleResult_returns_twice_the_words_sample :
  handleResult None sample_builder sample_dm2 = Ok (50, sample_builder3, sample_dm3) /\
  NoDup (_ivm sample_dm2).*1 /\
  exists infos : list (MType * (Z * bool)),
    infos.*2 = [(1, false); (1, true)] /\
    block sample_builder3 = [ReturnOp [sample_value; sample_dist_value]] /\
    2 * total_words infos.*2 < 2 ^ 64 /\
    50 = 2 * total_words infos.*2.
Proof.
  assert (handleResult None sample_builder sample_dm2
          = Ok (50, sample_builder3, sample_dm3)) as Hrun
    by (vm_compute; reflexivity).
  split; [exact Hrun|]. split; [exact sample_dm2_NoDup|].
  destruct (proj2 handleResult_returns_twice_the_words _ _ _ _ _ _ Hrun
              sample_dm2_NoDup)
    as (infos & _ & _ & Hb & _ & _ & Hinfos & _ & Hexact).
  assert (infos.*2 = [(1, false); (1, true)]) as Hi
    by (rewrite Hinfos; vm_compute; reflexivity).
  exists infos. split; [exact Hi|]. split; [rewrite Hb; reflexivity|].
  assert (2 * total_words infos.*2 < 2 ^ 64) as Hfit
    by (rewrite Hi; vm_compute; reflexivity).
  split; [exact Hfit | exact (Hexact Hfit)].
Defined.

(** C4 on the sample Registry: guid 5 is unknown, guid 1 is imported once,
    guid 2 has a dtype outside the supported set. *)
Lemma getDependent_resolves_sample :
  getDependent sample_registry new_DepManager 5 = Err MissingDependency /\
  (exists val dm',
     getDependent sample_registry new_DepManager 1 = Ok (val, dm') /\
     _args dm' = [(1, sample_future)] /\
     length (fn_args (_func dm')) = 1%nat /\
     getDependent ∅ dm' 1 = Ok (val, dm')) /\
  getDependent sample_registry new_DepManager 2 = Err UnknownDtype /\
  getDependent sample_registry sample_dm1 3 = Ok (sample_value, sample_dm1).
Proof.
  split; [|split; [|split]].
  - apply (proj1 (proj2 (getDependent_resolves sample_registry new_DepManager 5)));
      reflexivity.
  - pose proof (proj2 (proj2 (getDependent_resolves sample_registry new_DepManager 1))
                  sample_future eq_refl eq_refl) as Hc.
    change (argument_type sample_future)
      with (Ok (PTensorType [10] (IntegerType 32 Signless) [])) in Hc.
    destruct Hc as (val & dm' & Hget & _ & Hlen & _ & Hargs & _ & _ & _ & _ & _ & _ & _ & Hsnd & _).
    exists val, dm'. split; [exact Hget|]. split; [exact Hargs|].
    split; [exact Hlen | apply Hsnd].
  - exact (proj2 (proj2 (getDependent_resolves sample_registry new_DepManager 2))
             sample_unknown_future eq_refl eq_refl).
  - apply (proj1 (getDependent_resolves sample_registry sample_dm1 3)).
    reflexivity.
Defined.

Lemma sample_jit_reach1 :
  run_engine (H := sha1_backend) true new_JitState "module a"
  = Ok (sample_engine, "llvm module a", sample_sha1_jit1).
Proof. vm_compute. reflexivity. Qed.

Lemma sample_jit_reach2 :
  run_engine (H := sha1_backend) true sample_sha1_jit1 "module b"
  = Ok (sample_engine_b, "llvm module b", sample_sha1_jit2).
Proof. vm_compute. reflexivity. Qed.

Lemma sample_jit_reach3 :
  run_engine (H := sha1_backend) true sample_sha1_jit2 "module a"
  = Ok (sample_engine, "module a", sample_sha1_jit2).
Proof. vm_compute. reflexivity. Qed.

(** C5 with SHA-1 as the digest: "module a" is compiled once and found
    again after "module b" was compiled; the digests of the two texts
    differ and they get the engines 0 and 1. *)
Lemma engine_cache_keyed_by_text_sha1_sample :
  SHA1.digest "abc" = 0xa9993e364706816aba3e25717850c26c9cd0d89d /\
  run_engine (H := sha1_backend) true new_JitState "module a"
  = Ok (sample_engine, "llvm module a", sample_sha1_jit1) /\
  run_engine (H := sha1_backend) true sample_sha1_jit1 "module b"
  = Ok (sample_engine_b, "llvm module b", sample_sha1_jit2) /\
  run_engine (H := sha1_backend) true sample_sha1_jit2 "module a"
  = Ok (sample_engine, "module a", sample_sha1_jit2) /\
  engineCache sample_sha1_jit2 !! SHA1.digest "module a" = Some sample_engine /\
  engine_id sample_engine = 0%nat /\ engine_id sample_engine_b = 1%nat /\
  engine_id sample_engine <> engine_id sample_engine_b /\
  sample_engine <> sample_engine_b.
Proof.
  pose proof (engine_cache_keyed_by_text_sha1 (H := sha1_backend))
    as (_ & _ & _ & Hkeep & Hshare).
  assert (jit_reaches (H := sha1_backend) sample_sha1_jit1 sample_sha1_jit2) as Hr12
    by (eapply reaches_run; [apply reaches_refl | exact sample_jit_reach2]).
  split; [vm_compute; reflexivity|].
  split; [exact sample_jit_reach1|]. split; [exact sample_jit_reach2|].
  split; [exact sample_jit_reach3|]. split.
  - apply (Hkeep _ _ Hr12). vm_compute. reflexivity.
  - split; [reflexivity|]. split; [reflexivity|].
    apply (proj2 (proj2 (Hshare _ _ _ _ _ _ _ _ _ _ (reaches_refl _)
                           sample_jit_reach1 (reaches_refl _) sample_jit_reach2))).
    + intros E. vm_compute in E. discriminate E.
    + discriminate.
Defined.

Lemma sample_calls_signless : Forall call_signless sample_calls.
Proof.
  repeat constructor; intros ty E; vm_compute in E; inversion E; reflexivity.
Qed.

(** C6 on the sample batch: the UINT32 input becomes an i32 argument, the
    whole signature is signless, and the DTYPE_LAST tag is refused. *)
Lemma getTType_signless_element_type_sample :
  (exists t, getTType UINT32 [10] [0] [10] [0] "" 0 [0] = Ok t /\
             elementTypeOfType t = Some (IntegerType 32 Signless) /\
             is_signless t = true /\ makeSignlessType t = t) /\
  getTType DTYPE_LAST [10] [0] [10] [0] "" 0 [0] = Err UnknownDtype /\
  Forall call_signless sample_calls /\
  Forall (λ t, is_signless t = true)
    (fn_args (_func sample_dm3) ++ fn_results (_func sample_dm3)).
Proof.
  destruct getTType_signless_element_type as (Htab & _ & Hsig).
  split; [exact (proj2 (Htab UINT32 [10] [0] [10] [0] ""%string 0 [0]))|].
  split; [exact (proj2 (Htab DTYPE_LAST [10] [0] [10] [0] ""%string 0 [0]))|].
  split; [exact sample_calls_signless|].
  exact (Hsig _ _ _ _ _ _ _ _ _ sample_calls_signless sample_calls_run
           sample_handleResult_run).
Defined.

(** C7 on the sample batch: dropping guid 3 leaves guid 4 alone; dropping
    guid 2, which has no entry in [_ivm], still removes it from the
    Registry. *)
Lemma drop_removes_only_guid_sample :
  ivm_find 3 (_ivm (DepManager_drop sample_registry sample_dm1 3).2) = None /\
  4 <> 3 /\
  ivm_find 4 (_ivm (DepManager_drop sample_registry sample_dm1 3).2)
  = Some sample_dist_value /\
  ivm_find 2 (_ivm sample_dm1) = None /\
  _ivm (DepManager_drop sample_registry sample_dm1 2).2 = _ivm sample_dm1 /\
  (DepManager_drop sample_registry sample_dm1 2).1 !! 2 = None /\
  (DepManager_drop sample_registry sample_dm1 2).1 !! 1 = Some sample_future.
Proof.
  destruct (drop_removes_only_guid sample_registry sample_dm1 3)
    as ((H3 & _) & Hother & _).
  destruct (drop_removes_only_guid sample_registry sample_dm1 2)
    as ((_ & _ & _ & Hreg) & Hother2 & _ & _ & Hout & _).
  assert (4 <> 3) as Hne by discriminate.
  assert (ivm_find 2 (_ivm sample_dm1) = None) as Hnone by reflexivity.
  split; [exact H3|]. split; [exact Hne|].
  split; [refine (eq_trans (proj1 (Hother 4 Hne)) _); reflexivity|].
  split; [exact Hnone|]. split; [exact (proj1 (Hout Hnone))|].
  split; [exact Hreg|].
  assert (1 <> 2) as Hne2 by discriminate.
  refine (eq_trans (proj2 (proj2 (proj2 (Hother2 1 Hne2)))) _).
  vm_compute. reflexivity.
Defined.

(** C8 on the sample batch: guid 3 is taken, guid 9 is free. *)
Lemma addVal_then_getDependent_sample :
  is_Some (ivm_find 3 (_ivm sample_dm1)) /\
  addVal sample_dm1 3 sample_value 33%nat = Err InvariantViolation /\
  ivm_find 9 (_ivm sample_dm1) = None /\
  exists dm',
    addVal sample_dm1 9 sample_value 90%nat = Ok dm' /\
    _args dm' = _args sample_dm1 /\
    getDependent ∅ dm' 9 = Ok (sample_value, dm').
Proof.
  assert (is_Some (ivm_find 3 (_ivm sample_dm1))) as H3 by (eexists; reflexivity).
  assert (ivm_find 9 (_ivm sample_dm1) = None) as H9 by reflexivity.
  split; [exact H3|].
  split; [exact (proj1 (addVal_then_getDependent sample_dm1 3 sample_value 33%nat) H3)|].
  split; [exact H9|].
  destruct (proj2 (addVal_then_getDependent sample_dm1 9 sample_value 90%nat) H9)
    as (dm' & Hadd & _ & _ & _ & _ & Hargs & Hget & _).
  exists dm'. split; [exact Hadd|]. split; [exact Hargs | apply Hget].
Defined.

Lemma sample_run_result :
  run (H := sample_backend) false true new_JitState "module a" "jit_main" [5; 6] 4
  = Ok sample_run.
Proof. vm_compute. reflexivity. Qed.

(** C9 on a call with two input slots and four output words. *)
Lemma run_packs_output_then_inputs_sample :
  0 <= 4 /\
  run (H := sample_backend) false true new_JitState "module a" "jit_main" [5; 6] 4
  = Ok sample_run /\
  rr_args sample_run = [AddrOfOutput; AddrOfInput 0; AddrOfInput 1] /\
  Z.of_nat (length (rr_out sample_run)) = 4.
Proof.
  assert (0 <= 4) as Hosz by lia.
  split; [exact Hosz|]. split; [exact sample_run_result|].
  destruct (run_packs_output_then_inputs (H := sample_backend) _ _ _ _ _ _ _ _
              Hosz sample_run_result) as (Hargs & _ & _ & _ & _ & _ & Hlen).
  split; [rewrite Hargs; reflexivity | exact Hlen].
Defined.

(** C10 with one rank: team 5 is asked for, team 0 is stored and the
    creating operation gets no team; with four ranks team 1 is stored. *)
Lemma creators_store_mkTeam_sample :
  nranks sample_transceiver <= 1 /\
  _team (node_base (Creator_full (V := Z) (F := Z) sample_transceiver [10] 1 INT64 5)) = 0 /\
  team_operand sample_transceiver
    (Creator_arange (V := Z) (F := Z) sample_transceiver 0 10 1 INT64 5) = None /\
  (5 <> 0 /\ 1 < nranks (mkTransceiver 4242 4)) /\
  _team (node_base (Creator_linspace (V := Z) (F := Z) (mkTransceiver 4242 4)
                      0 1 10 true FLOAT64 5)) = 1.
Proof.
  assert (nranks sample_transceiver <= 1) as H1 by (simpl; lia).
  assert (5 <> 0 /\ 1 < nranks (mkTransceiver 4242 4)) as H4
    by (split; [discriminate | simpl; lia]).
  destruct (creators_store_mkTeam Z Z sample_transceiver 5)
    as (Hfull & _ & _ & _ & Hzero & Hnone).
  destruct (creators_store_mkTeam Z Z (mkTransceiver 4242 4) 5)
    as (_ & _ & Hlin & Hone & _).
  split; [exact H1|].
  split; [rewrite Hfull; apply Hzero; right; exact H1|].
  split; [apply (Hnone H1)|]. split; [exact H4|].
  rewrite Hlin. exact (Hone H4).
Defined.

(** * Further properties of the code *)

(** ** Types *)

(** X1. [makeSignlessType] gives a type in which no signed or unsigned
    integer type occurs and keeps the width of an integer type; it leaves a
    type that is already signless as it is, so applying it twice is applying
    it once; and it changes neither the rank nor the distribution of an
    array type, so the words counted for a result would not change. *)
Theorem makeSignlessType_only_drops_signs t :
  is_signless (makeSignlessType t) = true /\
  (forall width sign,
     makeSignlessType (IntegerType width sign) = IntegerType width Signless) /\
  (is_signless t = true <-> makeSignlessType t = t) /\
  makeSignlessType (makeSignlessType t) = makeSignlessType t /\
  getRank (makeSignlessType t) = getRank t /\
  isDist (makeSignlessType t) = isDist t.
Proof.
  assert (is_signless (makeSignlessType t) = true) as Hs.
  { induction t as [| |w s|sh e IH envs]; simpl; auto. destruct s; reflexivity. }
  split; [exact Hs|].
  split; [intros w s; destruct s; reflexivity|].
  split; [apply is_signless_fixed|].
  split; [apply is_signless_fixed, Hs|].
  destruct t as [| |w s|sh e envs]; simpl; auto; destruct s; auto.
Qed.

Lemma length_read_array p n : length (read_array p n) = n.
Proof. unfold read_array. rewrite length_map, length_seq. reflexivity. Qed.

Lemma mkEnvs_no_team rank device :
  existsb is_dist_env (mkEnvs rank device 0) = false /\
  (forall d, GPUEnvAttr d ∈ mkEnvs rank device 0 <->
             d = device /\ string_empty device = false).
Proof.
  unfold mkEnvs. simpl. destruct (string_empty device) eqn:He; simpl.
  - split; [reflexivity|]. intros d. split.
    + intros Hin. apply elem_of_nil in Hin as [].
    + intros [_ Hf]. discriminate.
  - split; [reflexivity|]. intros d. rewrite list_elem_of_singleton. split.
    + intros [= ->]. auto.
    + intros [-> _]. reflexivity.
Qed.

(** X2. The argument type [getDependent] synthesises for a registered array
    always has the rank [ndims] of the array, whatever the arrays behind the
    future hold: the global shape when the future has a team and the rank is
    not 0, no dimension for a 0-rank array with a team, the local shape
    without a team.  It is distributed exactly when the team is not 0, and
    it carries a GPU environment exactly when the device name is not
    empty. *)
Theorem argument_type_rank_and_distribution fut t :
  argument_type fut = Ok t ->
  exists etyp envs,
    elementTypeOf (dtype fut) = Ok etyp /\
    t = PTensorType
          (if team fut =? 0 then read_array (local_shape fut) (ndims fut)
           else read_array (shape fut) (ndims fut))
          etyp envs /\
    getRank t = Ok (Z.of_nat (ndims fut)) /\
    isDist t = negb (team fut =? 0) /\
    (forall d, GPUEnvAttr d ∈ envs <->
               d = device fut /\ string_empty (device fut) = false).
Proof.
  unfold argument_type, getTType. intros Ht.
  apply bind_Ok in Ht as (etyp & He & Ht). exists etyp.
  rewrite length_read_array in Ht.
  destruct (mkEnvs_no_team (Z.of_nat (ndims fut)) (device fut)) as [Hnd Hgpu].
  destruct (team fut =? 0) eqn:Hteam; simpl in Ht.
  - inversion Ht; subst t; clear Ht. eexists. split; [exact He|].
    split; [reflexivity|]. simpl. rewrite length_read_array.
    split; [reflexivity|]. split; [exact Hnd | exact Hgpu].
  - destruct (ndims fut) as [|n] eqn:Hn; simpl in Ht;
      inversion Ht; subst t; clear Ht; eexists; (split; [exact He|]).
    + split; [reflexivity|]. simpl. split; [reflexivity|].
      rewrite existsb_app. simpl. rewrite orb_true_r. split; [reflexivity|].
      intros d. rewrite elem_of_app, list_elem_of_singleton. rewrite Hgpu.
      split; [intros [?|?]; [assumption|discriminate] | auto].
    + split; [reflexivity|]. unfold getRank. rewrite length_read_array.
      split; [reflexivity|].
      unfold isDist. rewrite existsb_app. simpl. rewrite orb_true_r.
      split; [reflexivity|].
      intros d. rewrite elem_of_app, list_elem_of_singleton. rewrite Hgpu.
      split; [intros [?|?]; [assumption|discriminate] | auto].
Qed.

(** X3. [dispatch] and [getTType] know the same dtype tags: for a tag of the
    supported set [dispatch] calls its function at one C++ type and
    [getTType] gives the signless IR type with the bits of that type, the
    float types for [double] and [float]; for any other tag both throw
    "unknown dtype" and the function is not called. *)
Theorem dispatch_agrees_with_getTType {P R : Type} (dt : DTypeId) (ptr : P)
    (func : CType -> P -> R) gShape lhShape ownShape rhShape device team lOffs :
  match dispatch dt ptr (λ c _, c) with
  | Ok c =>
      supported dt = true /\
      dispatch dt ptr func = Ok (func c ptr) /\
      elementTypeOf dt = Ok (signless_type_of c) /\
      exists t,
        getTType dt gShape lhShape ownShape rhShape device team lOffs = Ok t /\
        elementTypeOfType t = Some (signless_type_of c)
  | Err e =>
      e = UnknownDtype /\ supported dt = false /\
      dispatch dt ptr func = Err UnknownDtype /\
      getTType dt gShape lhShape ownShape rhShape device team lOffs
      = Err UnknownDtype
  end.
Proof.
  unfold getTType.
  destruct dt; simpl; repeat split;
    try (destruct (negb (team =? 0));
         [destruct (negb (length gShape =? 0)%nat)|];
         eexists; split; reflexivity).
Qed.

(** ** store_inputs *)

Lemma store_inputs_fold_icm l : forall res dm res' dm' g,
  fold_left store_inputs_step l (res, dm) = (res', dm') ->
  g ∈ l.*1 -> _icm dm' !! g = None.
Proof.
  induction l as [|a l IH]; intros res dm res' dm' g Hrun Hin; simpl in Hrun.
  - apply elem_of_nil in Hin as [].
  - destruct (decide (g ∈ l.*1)) as [Hl|Hl]; [eapply IH; eassumption|].
    rewrite fmap_cons in Hin. apply elem_of_cons in Hin as [->|Hin]; [|contradiction].
    apply store_inputs_fold in Hrun as (_ & _ & _ & _ & _ & _ & Hcm).
    rewrite Hcm by exact Hl. simpl. apply lookup_delete_eq.
Qed.

Lemma store_inputs_icm_input dm g :
  g ∈ (_args dm).*1 -> _icm (store_inputs dm).2 !! g = None.
Proof.
  intros Hg. unfold store_inputs.
  destruct (fold_left store_inputs_step (_args dm) ([], dm)) as [r d] eqn:E.
  eapply store_inputs_fold_icm; eassumption.
Qed.

Lemma DepManager_eq dm1 dm2 :
  _func dm1 = _func dm2 -> _ivm dm1 = _ivm dm2 -> _icm dm1 = _icm dm2 ->
  _icr dm1 = _icr dm2 -> _irm dm1 = _irm dm2 -> _args dm1 = _args dm2 ->
  dm1 = dm2.
Proof. destruct dm1, dm2. simpl. intros. subst. reflexivity. Qed.

(** X4. [store_inputs] returns the descriptors of the imported arrays in
    the order of [_args], removes exactly the guids of [_args] from [_ivm]
    and from [_icm] (inputs need no delivery) and touches nothing else: any
    other guid keeps its value, its place among the other entries and its
    delivery callback, and the function, [_args], the ready callbacks and
    the recorded ranks are as before.  With no imported array it returns no
    word and leaves the manager as it is. *)
Theorem store_inputs_erases_the_inputs dm :
  let res := (store_inputs dm).1 in
  let dm' := (store_inputs dm).2 in
  res = concat ((λ a, descriptor a.2) <$> _args dm) /\
  (forall g, g ∈ (_args dm).*1 ->
     ivm_find g (_ivm dm') = None /\ _icm dm' !! g = None) /\
  (forall g, g ∉ (_args dm).*1 ->
     ivm_find g (_ivm dm') = ivm_find g (_ivm dm) /\
     _icm dm' !! g = _icm dm !! g) /\
  _ivm dm' = filter (λ kv, kv.1 ∉ (_args dm).*1) (_ivm dm) /\
  (_func dm' = _func dm /\ _args dm' = _args dm /\
   _icr dm' = _icr dm /\ _irm dm' = _irm dm) /\
  (_args dm = [] -> res = [] /\ dm' = dm).
Proof.
  intros res dm'. subst res dm'.
  destruct (store_inputs_spec dm) as (Hres & Hf & Ha & Hcr & Hrm & Hvm & Hcm).
  split; [exact Hres|]. split; [|split; [|split; [exact Hvm|split; [auto|]]]].
  - intros g Hg. split.
    + apply ivm_find_None. rewrite Hvm. intros Hin.
      apply list_elem_of_fmap in Hin as ([k v] & -> & Hkv).
      apply list_elem_of_filter in Hkv as [Hk _]. contradiction.
    + apply store_inputs_icm_input, Hg.
  - intros g Hg. split; [|apply Hcm, Hg].
    rewrite Hvm. clear - Hg. induction (_ivm dm) as [|[k v] l IH]; [reflexivity|].
    rewrite filter_cons. simpl.
    destruct (decide (k ∉ (_args dm).*1)) as [Hk|Hk]; simpl.
    + rewrite IH. reflexivity.
    + destruct (Z.eqb_spec k g) as [->|Hne]; [|exact IH].
      exfalso. apply Hk, Hg.
  - intros Hnil. unfold store_inputs. rewrite Hnil. simpl. auto.
Qed.

(** X5. Calling [store_inputs] a second time gives the same words and the
    same manager as the first call: the inputs are collected again from
    [_args], which the call does not consume, and there is nothing left to
    erase. *)
Theorem store_inputs_twice dm :
  store_inputs (store_inputs dm).2 = store_inputs dm.
Proof.
  destruct (store_inputs_spec dm) as (Hres & Hf & Ha & Hcr & Hrm & Hvm & Hcm).
  destruct (store_inputs_spec (store_inputs dm).2)
    as (Hres2 & Hf2 & Ha2 & Hcr2 & Hrm2 & Hvm2 & Hcm2).
  rewrite (surjective_pairing (store_inputs (store_inputs dm).2)).
  rewrite (surjective_pairing (store_inputs dm)) at 3.
  f_equal.
  - rewrite Hres2, Ha, Hres. reflexivity.
  - apply DepManager_eq; try congruence.
    + rewrite Hvm2, Ha, Hvm, list_filter_filter.
      apply list_filter_iff. intros kv. tauto.
    + apply map_eq. intros g.
      destruct (decide (g ∈ (_args dm).*1)) as [Hg|Hg].
      * etrans; [|symmetry; apply store_inputs_icm_input, Hg].
        apply store_inputs_icm_input. rewrite Ha. exact Hg.
      * apply Hcm2. rewrite Ha. exact Hg.
Qed.

(** ** Ready callbacks *)

Lemma ready_calls_of_app guid evs1 evs2 :
  ready_calls_of guid (evs1 ++ evs2)
  = ready_calls_of guid evs1 ++ ready_calls_of guid evs2.
Proof. apply omap_app. Qed.

Lemma ready_calls_of_SetRes guid evs :
  Forall (λ e, is_SetRes e = true) evs -> ready_calls_of guid evs = [].
Proof.
  induction 1 as [|e evs He _ IH]; [reflexivity|].
  destruct e; [|discriminate]. exact IH.
Qed.

Lemma ready_calls_of_one guid g cbs :
  ready_calls_of guid (map (λ cb, Ready cb g) cbs) = if g =? guid then cbs else [].
Proof.
  destruct (g =? guid) eqn:E; induction cbs as [|cb cbs IH]; try reflexivity;
    unfold ready_calls_of in *; simpl; rewrite E; simpl.
  - f_equal. exact IH.
  - exact IH.
Qed.

Lemma ready_calls_of_flat_map guid (l : list (Z * list ReadyFunc)) :
  NoDup l.*1 ->
  (forall cbs, (guid, cbs) ∈ l ->
     ready_calls_of guid
       (flat_map (λ readyV, map (λ cb, Ready cb readyV.1) readyV.2) l) = cbs) /\
  (guid ∉ l.*1 ->
     ready_calls_of guid
       (flat_map (λ readyV, map (λ cb, Ready cb readyV.1) readyV.2) l) = []).
Proof.
  induction l as [|[g c] l IH]; intros Hnd.
  - split; [intros cbs Hin; apply elem_of_nil in Hin as [] | reflexivity].
  - rewrite fmap_cons in Hnd. apply NoDup_cons in Hnd as [Hg Hnd].
    destruct (IH Hnd) as [IHin IHout]. simpl in Hg. simpl flat_map.
    split.
    + intros cbs Hin. rewrite ready_calls_of_app, ready_calls_of_one.
      apply elem_of_cons in Hin as [Heq|Hin].
      * inversion Heq; subst g c.
        rewrite Z.eqb_refl, IHout by exact Hg. apply app_nil_r.
      * destruct (Z.eqb_spec g guid) as [->|Hne]; [|apply IHin, Hin].
        exfalso. apply Hg. apply list_elem_of_fmap. exists (guid, cbs). auto.
    + intros Hout. rewrite fmap_cons in Hout.
      apply not_elem_of_cons in Hout as [Hne Hout]. simpl in Hne.
      rewrite ready_calls_of_app, ready_calls_of_one.
      destruct (Z.eqb_spec g guid) as [->|_]; [contradiction|].
      apply IHout, Hout.
Qed.

Lemma ready_calls_of_ready_events guid icr :
  ready_calls_of guid (ready_events icr) = default [] (icr !! guid).
Proof.
  unfold ready_events.
  destruct (ready_calls_of_flat_map guid (map_to_list icr)
              (NoDup_fst_map_to_list icr)) as [Hin Hout].
  destruct (icr !! guid) as [cbs|] eqn:Hg; simpl.
  - apply Hin. apply elem_of_map_to_list. exact Hg.
  - apply Hout. intros Hin'. apply list_elem_of_fmap in Hin' as ([g c] & -> & Hgc).
    apply elem_of_map_to_list in Hgc. simpl in Hg.
    assert (@None (list ReadyFunc) = Some c) as E
      by (etrans; [symmetry; exact Hg | exact Hgc]).
    discriminate E.
Qed.

Lemma deliver_events_SetRes dm output sz events pos dm' :
  deliver dm output sz = Ok (events, pos, dm') ->
  exists evs,
    events = evs ++ ready_events (_icr dm) /\
    length evs = length (_ivm dm) /\
    Forall (λ e, is_SetRes e = true) evs.
Proof.
  intros Hrun. apply deliver_spec in Hrun as (evs & -> & Hl & _ & Hj & _).
  exists evs. split; [reflexivity|]. split; [exact Hl|].
  apply Forall_lookup. intros j e He.
  destruct (lookup_lt_is_Some_2 (_ivm dm) j) as [kv Hkv].
  { rewrite <- Hl. eapply lookup_lt_Some, He. }
  destruct (Hj j kv Hkv) as (cb & _ & Hev). rewrite Hev in He.
  inversion He; subst e. unfold deliver_entry.
  destruct ((0 <? _) && _); reflexivity.
Qed.

Lemma deliver_ready_calls dm output sz events pos dm' guid :
  deliver dm output sz = Ok (events, pos, dm') ->
  ready_calls_of guid events = default [] (_icr dm !! guid).
Proof.
  intros Hrun. apply deliver_events_SetRes in Hrun as (evs & -> & _ & Hall).
  rewrite ready_calls_of_app, (ready_calls_of_SetRes _ _ Hall).
  apply ready_calls_of_ready_events.
Qed.

Lemma elem_of_ready_calls_of cb guid events :
  Ready cb guid ∈ events <-> cb ∈ ready_calls_of guid events.
Proof.
  unfold ready_calls_of. rewrite list_elem_of_omap. split.
  - intros Hin. exists (Ready cb guid). split; [exact Hin|].
    rewrite Z.eqb_refl. reflexivity.
  - intros (e & He & Hcb). destruct e as [| cb' g]; [discriminate|].
    destruct (Z.eqb_spec g guid) as [->|]; [|discriminate].
    inversion Hcb; subst. exact He.
Qed.

(** X6. [addReady] puts the callback at the end of the guid's list and
    leaves every other list alone; it asks nothing of the guid, which need
    not be known to the manager.  [deliver] first makes one delivery call
    per entry of [_ivm] and then sends the ready signals, whatever [_ivm]
    holds: for every guid it calls the callbacks registered for it, each as
    often as it was registered and in the order of registration, with that
    guid. *)
Theorem deliver_sends_every_ready_signal :
  (forall dm guid cb,
     _icr (addReady dm guid cb) !! guid
     = Some (default [] (_icr dm !! guid) ++ [cb]) /\
     (forall g, g <> guid -> _icr (addReady dm guid cb) !! g = _icr dm !! g) /\
     _func (addReady dm guid cb) = _func dm /\
     _ivm (addReady dm guid cb) = _ivm dm /\
     _icm (addReady dm guid cb) = _icm dm /\
     _irm (addReady dm guid cb) = _irm dm /\
     _args (addReady dm guid cb) = _args dm) /\
  (forall dm output sz events pos dm',
     deliver dm output sz = Ok (events, pos, dm') ->
     (exists evs readies,
        events = evs ++ readies /\
        length evs = length (_ivm dm) /\
        Forall (λ e, is_SetRes e = true) evs /\
        Forall (λ e, is_SetRes e = false) readies) /\
     (forall guid,
        ready_calls_of guid events = default [] (_icr dm !! guid)) /\
     (forall cb guid,
        Ready cb guid ∈ events <-> cb ∈ default [] (_icr dm !! guid))).
Proof.
  split.
  - intros dm guid cb. unfold addReady. simpl.
    split; [apply lookup_insert_eq|].
    split; [intros g Hne; apply lookup_insert_ne; congruence|]. auto.
  - intros dm output sz events pos dm' Hrun.
    split; [|split].
    + apply deliver_events_SetRes in Hrun as (evs & -> & Hl & Hall).
      exists evs, (ready_events (_icr dm)). repeat split; auto.
      apply Forall_forall. intros e He. unfold ready_events in He.
      apply list_elem_of_In, in_flat_map in He as (rv & _ & He).
      apply in_map_iff in He as (cb & <- & _). reflexivity.
    + intros guid. eapply deliver_ready_calls, Hrun.
    + intros cb guid. rewrite elem_of_ready_calls_of.
      rewrite (deliver_ready_calls _ _ _ _ _ _ guid Hrun). reflexivity.
Qed.

Lemma do_call_ready reg dm c reg' dm' guid :
  do_call (reg, dm) c = Ok (reg', dm') ->
  default [] (_icr dm' !! guid) = ready_step guid (default [] (_icr dm !! guid)) c.
Proof.
  intros Hrun. destruct c as [g|g val cb|g cb|g]; simpl in Hrun.
  - apply bind_Ok in Hrun as ([v dm1] & Hget & Hok). inversion Hok; subst.
    destruct (getDependent_inv _ _ _ _ _ Hget)
      as [[_ ->]|(fut & typ & _ & _ & _ & Heq)]; [reflexivity|].
    rewrite Heq in Hget. inversion Hget; subst. reflexivity.
  - apply bind_Ok in Hrun as (dm1 & Hadd & Hok). inversion Hok; subst.
    unfold addVal in Hadd. destruct (ivm_find g (_ivm dm)); [discriminate|].
    inversion Hadd; subst. reflexivity.
  - inversion Hrun; subst. simpl.
    destruct (Z.eqb_spec g guid) as [->|Hne].
    + rewrite lookup_insert_eq. reflexivity.
    + rewrite lookup_insert_ne by exact Hne. reflexivity.
  - unfold DepManager_drop in Hrun. inversion Hrun; subst. simpl.
    destruct (Z.eqb_spec g guid) as [->|Hne].
    + rewrite lookup_delete_eq. reflexivity.
    + rewrite lookup_delete_ne by exact Hne. reflexivity.
Qed.

Lemma do_calls_ready calls : forall reg dm reg' dm' guid,
  do_calls calls (reg, dm) = Ok (reg', dm') ->
  default [] (_icr dm' !! guid)
  = fold_left (ready_step guid) calls (default [] (_icr dm !! guid)).
Proof.
  unfold do_calls.
  induction calls as [|c calls IH]; intros reg dm reg' dm' guid Hrun; simpl in Hrun.
  - inversion Hrun; subst. reflexivity.
  - apply bind_Ok in Hrun as ([r1 d1] & Hstep & Hrun). simpl.
    rewrite (IH _ _ _ _ guid Hrun), (do_call_ready _ _ _ _ _ guid Hstep).
    reflexivity.
Qed.

(** X7. Over a whole batch, the ready callbacks that [deliver] calls for a
    guid are exactly those passed to [addReady] for that guid since the
    guid was last dropped, in the order of those calls: a callback added
    before a [drop] of its guid is never called, and neither importing,
    registering a value, [store_inputs] nor [handleResult] loses or adds
    one. *)
Theorem batch_ready_callbacks reg calls reg1 dm1 itac b osz b' dm3
    output sz events pos dm4 guid :
  do_calls calls (reg, new_DepManager) = Ok (reg1, dm1) ->
  handleResult itac b (store_inputs dm1).2 = Ok (osz, b', dm3) ->
  deliver dm3 output sz = Ok (events, pos, dm4) ->
  ready_calls_of guid events = ready_after guid calls /\
  (forall cb, Ready cb guid ∈ events <-> cb ∈ ready_after guid calls).
Proof.
  intros Hcalls Hres Hdel.
  assert (default [] (_icr dm3 !! guid) = ready_after guid calls) as Hicr.
  { apply handleResult_spec in Hres as (_ & _ & _ & _ & _ & _ & _ & _ & -> & _).
    destruct (store_inputs_spec dm1) as (_ & _ & _ & -> & _).
    rewrite (do_calls_ready _ _ _ _ _ guid Hcalls). reflexivity. }
  pose proof (deliver_ready_calls _ _ _ _ _ _ guid Hdel) as Hc.
  rewrite Hicr in Hc. split; [exact Hc|].
  intros cb. rewrite elem_of_ready_calls_of, Hc. reflexivity.
Qed.

(** ** When handleResult and deliver fail *)

Lemma foldM_Err_inv {A B : Type} (f : B -> A -> result B) (l : list A) :
  forall b e, foldM f l b = Err e ->
  exists l1 x l2 b1, l = l1 ++ x :: l2 /\ foldM f l1 b = Ok b1 /\ f b1 x = Err e.
Proof.
  induction l as [|x l IH]; intros b e Hrun; simpl in Hrun; [discriminate|].
  destruct (f b x) as [b1|e1] eqn:Hx; simpl in Hrun.
  - apply IH in Hrun as (l1 & y & l2 & b2 & -> & Hl1 & Hy).
    exists (x :: l1), y, l2, b2. simpl. rewrite Hx. simpl. auto.
  - inversion Hrun; subst. exists [], x, l, b. auto.
Qed.

Lemma deliver_step_Err icm output st r e :
  deliver_step icm output st r = Err e ->
  e = InvariantViolation /\ icm !! r.1 = None.
Proof.
  unfold deliver_step. destruct (icm !! r.1) as [cb|]; [|intros [= <-]; auto].
  destruct (deliver_entry _ _ _ _ _). discriminate.
Qed.

Lemma deliver_Ok_iff dm output sz :
  (exists r, deliver dm output sz = Ok r) <->
  Forall (λ kv, is_Some (_icm dm !! kv.1)) (_ivm dm).
Proof.
  split.
  - intros [[[events pos] dm'] Hrun].
    apply deliver_spec in Hrun as (evs & _ & _ & _ & Hj & _).
    apply Forall_lookup. intros j kv Hkv.
    destruct (Hj j kv Hkv) as (cb & Hcb & _). eauto.
  - intros Hall. unfold deliver.
    destruct (deliver_loop_total (_icm dm) output (_ivm dm)
                {| dl_pos := 0; dl_events := []; dl_irm := _irm dm |} Hall)
      as [st ->]. simpl. eauto.
Qed.

Lemma deliver_Err dm output sz e :
  deliver dm output sz = Err e ->
  e = InvariantViolation /\
  exists before kv after,
    _ivm dm = before ++ kv :: after /\ _icm dm !! kv.1 = None /\
    Forall (λ kv, is_Some (_icm dm !! kv.1)) before.
Proof.
  unfold deliver. intros Hrun.
  destruct (foldM (deliver_step (_icm dm) output) (_ivm dm)
              {| dl_pos := 0; dl_events := []; dl_irm := _irm dm |})
    as [st|e1] eqn:Hloop; simpl in Hrun; [discriminate|].
  inversion Hrun; subst e1; clear Hrun.
  apply foldM_Err_inv in Hloop as (l1 & x & l2 & b1 & Hl & Hl1 & Hx).
  apply deliver_step_Err in Hx as [-> Hnone]. split; [reflexivity|].
  exists l1, x, l2. split; [exact Hl|]. split; [exact Hnone|].
  apply (deliver_loop _ _ (_irm dm)) in Hl1 as (evs & _ & _ & _ & _ & Hj);
    [|reflexivity].
  apply Forall_lookup. intros j kv Hkv.
  destruct (Hj j kv Hkv) as (cb & Hcb & _). eauto.
Qed.

(** X8. [deliver] succeeds exactly when every guid of [_ivm] has a delivery
    callback in [_icm].  Otherwise it fails on the assertion, at the first
    entry without one.  An imported array has no delivery callback, so
    [deliver] fails on a manager that still holds one in [_ivm], as it does
    right after [getDependent] imported it: [store_inputs] has to come
    first. *)
Theorem deliver_needs_every_callback :
  (forall dm output sz,
     (exists r, deliver dm output sz = Ok r) <->
     Forall (λ kv, is_Some (_icm dm !! kv.1)) (_ivm dm)) /\
  (forall dm output sz e,
     deliver dm output sz = Err e ->
     e = InvariantViolation /\
     exists before kv after,
       _ivm dm = before ++ kv :: after /\ _icm dm !! kv.1 = None /\
       Forall (λ kv, is_Some (_icm dm !! kv.1)) before) /\
  (forall reg dm guid val dm1 output sz,
     ivm_find guid (_ivm dm) = None ->
     _icm dm !! guid = None ->
     getDependent reg dm guid = Ok (val, dm1) ->
     deliver dm1 output sz = Err InvariantViolation).
Proof.
  split; [exact deliver_Ok_iff|]. split; [exact deliver_Err|].
  intros reg dm guid val dm1 output sz Hfind Hicm Hget.
  destruct (getDependent_inv _ _ _ _ _ Hget)
    as [[Hsome _]|(fut & typ & _ & _ & _ & Heq)]; [congruence|].
  rewrite Heq in Hget. inversion Hget; subst val dm1; clear Hget Heq.
  match goal with |- deliver ?d _ _ = _ => set (dm1 := d) end.
  destruct (deliver dm1 output sz) as [r|e] eqn:Hdel.
  - exfalso. assert (exists r, deliver dm1 output sz = Ok r) as Hok by eauto.
    apply deliver_Ok_iff in Hok. simpl in Hok.
    apply Forall_app in Hok as [_ Hok]. apply Forall_cons in Hok as [[cb Hcb] _].
    simpl in Hcb. rewrite Hicm in Hcb. discriminate.
  - apply deliver_Err in Hdel as [-> _]. reflexivity.
Qed.

Lemma handleResult_step_Err st v e :
  handleResult_step st v = Err e ->
  (v.2 = NullValue /\ e = NullDereference) \/
  (exists ty, getType v.2 = Some ty /\ getRank ty = Err InvariantViolation /\
              e = InvariantViolation).
Proof.
  unfold handleResult_step.
  destruct (getType v.2) as [ty|] eqn:Hty.
  - destruct ty; simpl; try discriminate; intros [= <-];
      right; eexists; auto.
  - intros [= <-]. left. destruct v.2; try discriminate. auto.
Qed.

Lemma handleResult_Ok_iff itac b dm :
  (exists r, handleResult itac b dm = Ok r) <->
  Forall (λ kv, is_Some (result_info kv.2)) (_ivm dm).
Proof.
  split; [|apply handleResult_total].
  intros [[[osz b'] dm'] Hrun].
  apply handleResult_spec in Hrun as (infos & HF & _).
  apply Forall_lookup. intros j kv Hkv.
  destruct (Forall2_lookup_l _ _ _ _ _ HF Hkv) as (i & _ & Hi). eauto.
Qed.

(** X9. [handleResult] succeeds exactly when every entry of [_ivm] holds a
    value of ptensor type.  Otherwise it fails at the first entry that does
    not: on the use of a null value, or on the cast of a type that is not a
    ptensor type. *)
Theorem handleResult_needs_ptensor_values :
  (forall itac b dm,
     (exists r, handleResult itac b dm = Ok r) <->
     Forall (λ kv, is_Some (result_info kv.2)) (_ivm dm)) /\
  (forall v, is_Some (result_info v) <->
             exists shape etyp envs,
               getType v = Some (PTensorType shape etyp envs)) /\
  (forall itac b dm e,
     handleResult itac b dm = Err e ->
     exists before kv after,
       _ivm dm = before ++ kv :: after /\
       Forall (λ kv, is_Some (result_info kv.2)) before /\
       ((kv.2 = NullValue /\ e = NullDereference) \/
        (exists ty, getType kv.2 = Some ty /\ getRank ty = Err InvariantViolation /\
                    e = InvariantViolation))).
Proof.
  split; [exact handleResult_Ok_iff|]. split.
  - intros v. unfold result_info. split.
    + intros [i Hi]. destruct (getType v) as [ty|]; [|discriminate].
      destruct ty; try discriminate. eauto.
    + intros (shape & etyp & envs & ->). simpl. eauto.
  - intros itac b dm e Hrun. unfold handleResult in Hrun.
    destruct (foldM handleResult_step (_ivm dm) _) as [st|e1] eqn:Hloop;
      simpl in Hrun.
    { unfold create in Hrun. discriminate. }
    inversion Hrun; subst e1; clear Hrun.
    apply foldM_Err_inv in Hloop as (l1 & x & l2 & b1 & Hl & Hl1 & Hx).
    apply handleResult_step_Err in Hx.
    exists l1, x, l2. split; [exact Hl|]. split; [|exact Hx].
    apply (handleResult_loop _ _ _ [] (length (x :: l2)) []
             (fn_results (_func dm))) in Hl1 as (infos & HF & _); simpl;
      try reflexivity; try lia.
    + apply Forall_lookup. intros j kv Hkv.
      destruct (Forall2_lookup_l _ _ _ _ _ HF Hkv) as (i & _ & Hi). eauto.
    + rewrite Hl, length_app. simpl. reflexivity.
Qed.

(** X10. [handleResult] clears the value of every entry of [_ivm] and keeps
    the guids in their order.  From then on the manager gives no value back:
    [getDependent] of a returned guid answers with the null value and asks
    the Registry nothing, and a second [handleResult] on a manager that
    returned at least one array fails on the first null value. *)
Theorem handleResult_clears_the_values itac b dm osz b' dm' :
  handleResult itac b dm = Ok (osz, b', dm') ->
  _ivm dm' = (λ kv, (kv.1, NullValue)) <$> _ivm dm /\
  (_ivm dm').*1 = (_ivm dm).*1 /\
  (forall reg guid, guid ∈ (_ivm dm).*1 ->
     getDependent reg dm' guid = Ok (NullValue, dm')) /\
  (_ivm dm <> [] ->
     forall itac2 b2, handleResult itac2 b2 dm' = Err NullDereference).
Proof.
  intros Hrun.
  apply handleResult_spec in Hrun as (infos & _ & _ & _ & _ & _ & Hv & _).
  split; [exact Hv|].
  split; [rewrite Hv, <- list_fmap_compose; reflexivity|]. split.
  - intros reg guid Hin. apply getDependent_known. rewrite Hv. clear - Hin.
    induction (_ivm dm) as [|[k v] l IH]; [apply elem_of_nil in Hin as []|].
    simpl. destruct (Z.eqb_spec k guid) as [_|Hne]; [reflexivity|].
    apply IH. rewrite fmap_cons in Hin.
    apply elem_of_cons in Hin as [Heq|Hin]; [simpl in Heq; congruence|exact Hin].
  - intros Hne itac2 b2. unfold handleResult. rewrite Hv.
    destruct (_ivm dm) as [|[k v] l]; [contradiction|]. reflexivity.
Qed.

(** ** Instrumentation *)

(** X11. The instrumentation [handleResult] adds under [HAS_ITAC()] changes
    the body only: the reported size and the manager are those of a run
    without it.  The body gets a call of [VT_begin] in front of everything
    emitted so far, and a constant and a call of [VT_end] behind it, both
    calls on that constant; the return operation is still the last one and
    returns the same values. *)
Theorem handleResult_instrumentation vtExeSym b dm :
  match handleResult None b dm, handleResult (Some vtExeSym) b dm with
  | Ok (osz, b1, dm1), Ok (osz2, b2, dm2) =>
      osz2 = osz /\ dm2 = dm1 /\
      block b1 = block b ++ [ReturnOp (_ivm dm).*2] /\
      let s := OpResult (next_op b) (getIntegerType 32) in
      block b2 =
        CallOp (S (S (next_op b))) "VT_begin" [s] ::
        block b ++
        [ConstantOp (next_op b) vtExeSym; CallOp (S (next_op b)) "VT_end" [s];
         ReturnOp (_ivm dm).*2]
  | Err e, Err e2 => e2 = e
  | _, _ => False
  end.
Proof.
  destruct (handleResult None b dm) as [[[osz b1] dm1]|e] eqn:H1.
  - pose proof H1 as Hspec.
    apply handleResult_spec in Hspec as (infos & _ & Hb1 & _).
    unfold handleResult in *.
    destruct (foldM handleResult_step (_ivm dm) _) as [st|e1]; simpl in *;
      [|discriminate].
    unfold create in *. simpl in *. inversion H1; subst; clear H1.
    simpl in Hb1. apply app_inv_head in Hb1. inversion Hb1 as [Hret].
    rewrite Hret. repeat split; auto.
    rewrite <- !app_assoc. reflexivity.
  - unfold handleResult in *.
    destruct (foldM handleResult_step (_ivm dm) _) as [st|e1]; simpl in *.
    + unfold create in H1. discriminate.
    + inversion H1; subst. reflexivity.
Qed.

(** ** Sizes *)

Lemma result_infos_words (l : list (id_type * Value)) infos :
  Forall2 (λ kv i, result_info kv.2 = Some i) l infos ->
  total_words infos.*2 = result_words l /\
  3 * Z.of_nat (length l) <= result_words l.
Proof.
  unfold result_words.
  induction 1 as [|kv [ty [rank d]] l infos Hi _ [IH1 IH2]]; [simpl; lia|].
  cbn [omap list_omap]. rewrite Hi. cbn [fmap option_fmap option_map snd].
  rewrite fmap_cons, !total_words_cons. cbn [fst snd].
  apply result_info_inv in Hi as (_ & _ & _ & Hr).
  split; [rewrite IH1; reflexivity|].
  assert (3 <= ptensor_sz rank d)
    by (unfold ptensor_sz, memref_sz; destruct (d && (0 <? rank)); lia).
  rewrite length_cons, Nat2Z.inj_succ.
  change (list_omap _ _ ?f l) with (omap f l). lia.
Qed.

Lemma handleResult_words itac b dm osz b' dm' :
  handleResult itac b dm = Ok (osz, b', dm') ->
  osz = to_uint64 (2 * to_uint64 (result_words (_ivm dm))) /\
  3 * Z.of_nat (length (_ivm dm)) <= result_words (_ivm dm) /\
  (NoDup (_ivm dm).*1 ->
   total_words ((λ kv, irm_at (_irm dm') kv.1) <$> _ivm dm')
   = result_words (_ivm dm)).
Proof.
  intros Hrun.
  apply handleResult_spec in Hrun
    as (infos & HF & _ & _ & _ & Hosz & Hv & _ & _ & _ & _ & Hn).
  destruct (result_infos_words _ _ HF) as [Hw Hlen].
  split; [rewrite <- Hw; exact Hosz|]. split; [exact Hlen|].
  intros Hnd. rewrite <- Hw. f_equal. rewrite Hv, <- list_fmap_compose.
  apply list_eq. intros j. rewrite !list_lookup_fmap.
  destruct (_ivm dm !! j) as [kv|] eqn:Hj; simpl.
  - destruct (Forall2_lookup_l _ _ _ _ _ HF Hj) as (i & Hi & _).
    rewrite Hi. simpl. unfold irm_at. rewrite (Hn Hnd j kv i Hj Hi). reflexivity.
  - apply lookup_ge_None in Hj. rewrite (Forall2_length _ _ _ HF) in Hj.
    apply lookup_ge_None in Hj. rewrite Hj. reflexivity.
Qed.

(** X12. [deliver] walks half of what [handleResult] reported: after a
    [handleResult] that returned [osz], a [deliver] on the same manager ends
    at a position [pos] with [osz = 2 * pos] (as long as [2 * pos] fits 64
    bits; in any case [osz] is [2 * pos] reduced to 64 bits), and [pos] is
    at least three words per returned array. *)
Theorem deliver_walks_half_the_reported_size itac b dm osz b' dm'
    output sz events pos dm'' :
  NoDup (_ivm dm).*1 ->
  handleResult itac b dm = Ok (osz, b', dm') ->
  deliver dm' output sz = Ok (events, pos, dm'') ->
  3 * Z.of_nat (length (_ivm dm)) <= pos /\
  osz = to_uint64 (2 * to_uint64 pos) /\
  (2 * pos < 2 ^ 64 -> osz = 2 * pos).
Proof.
  intros Hnd Hres Hdel.
  destruct (handleResult_words _ _ _ _ _ _ Hres) as (Hosz & Hlen & Hw).
  apply deliver_spec in Hdel as (evs & _ & _ & Hpos & _).
  rewrite (Hw Hnd) in Hpos. subst pos.
  split; [exact Hlen|]. split; [exact Hosz|].
  intros Hfit. rewrite Hosz, (to_uint64_small (result_words _)) by lia.
  apply to_uint64_small. lia.
Qed.

(** X13. The size [handleResult] reports is 0 exactly when it returns no
    array (as long as twice the words of the returned arrays fit 64 bits),
    so [JIT::run] passes the address of an output buffer to the compiled
    function exactly when the function returns at least one array. *)
Theorem output_pointer_iff_something_returned itac b dm osz b' dm' :
  handleResult itac b dm = Ok (osz, b', dm') ->
  osz = to_uint64 (2 * to_uint64 (result_words (_ivm dm))) /\
  3 * Z.of_nat (length (_ivm dm)) <= result_words (_ivm dm) /\
  (2 * result_words (_ivm dm) < 2 ^ 64 ->
     (osz = 0 <-> _ivm dm = []) /\
     (forall inp, AddrOfOutput ∈ pack_args osz inp <-> _ivm dm <> [])).
Proof.
  intros Hres.
  destruct (handleResult_words _ _ _ _ _ _ Hres) as (Hosz & Hlen & _).
  split; [exact Hosz|]. split; [exact Hlen|]. intros Hfit.
  assert (osz = 2 * result_words (_ivm dm)) as Hexact.
  { rewrite Hosz, (to_uint64_small (result_words _)) by lia.
    apply to_uint64_small. lia. }
  assert (osz = 0 <-> _ivm dm = []) as Hzero.
  { split.
    - intros Hz. destruct (_ivm dm) as [|kv l]; [reflexivity|].
      simpl length in Hlen. lia.
    - intros Hnil. rewrite Hnil in Hexact. exact Hexact. }
  split; [exact Hzero|]. intros inp. unfold pack_args.
  rewrite elem_of_app. destruct (Z.eqb_spec osz 0) as [Hz|Hnz].
  - split.
    + intros [Hin|Hin]; [apply elem_of_nil in Hin as []|].
      apply list_elem_of_lookup in Hin as [i Hi].
      rewrite list_lookup_imap in Hi. destruct (inp !! i); discriminate.
    + intros Hne. exfalso. apply Hne, Hzero, Hz.
  - split; [intros _ Hnil; apply Hnz, Hzero, Hnil|].
    intros _. left. apply list_elem_of_singleton. reflexivity.
Qed.

(** ** What deliver reads *)

Lemma take_agree_le {A : Type} (n m : nat) (l l' : list A) :
  take n l' = take n l -> (m <= n)%nat -> take m l' = take m l.
Proof.
  intros H Hle. rewrite <- (Nat.min_l m n Hle), <- !take_take, H. reflexivity.
Qed.

Lemma nth_take_agree (n i : nat) (l l' : list Z) :
  take n l' = take n l -> (i < n)%nat -> nth i l' 0 = nth i l 0.
Proof.
  intros H Hi. rewrite !nth_lookup.
  rewrite <- (lookup_take_lt l' n i), <- (lookup_take_lt l n i) by lia.
  rewrite H. reflexivity.
Qed.

Lemma take_drop_agree (n k r : nat) (l l' : list Z) :
  take n l' = take n l -> (k + r <= n)%nat ->
  take r (skipn k l') = take r (skipn k l).
Proof.
  intros H Hle. rewrite !take_drop_commute.
  rewrite (take_agree_le n (k + r) l l' H Hle). reflexivity.
Qed.

Lemma memref_at_agree rank output output' p n :
  0 <= rank -> 0 <= p -> (Z.to_nat (p + memref_sz rank) <= n)%nat ->
  take n output' = take n output ->
  memref_at rank output' p = memref_at rank output p.
Proof.
  unfold memref_sz, memref_at. intros Hr Hp Hn H. f_equal.
  - apply (nth_take_agree n); [exact H | lia].
  - apply (nth_take_agree n); [exact H | lia].
  - apply (nth_take_agree n); [exact H | lia].
  - apply (take_drop_agree n); [exact H | lia].
  - apply (take_drop_agree n); [exact H | lia].
Qed.

Lemma deliver_entry_agree cb rank isD output output' pos n :
  0 <= rank -> 0 <= pos ->
  (Z.to_nat (pos + ptensor_sz rank isD) <= n)%nat ->
  take n output' = take n output ->
  deliver_entry cb rank isD output' pos = deliver_entry cb rank isD output pos.
Proof.
  intros Hr Hp Hn H. unfold deliver_entry, ptensor_sz in *.
  rewrite andb_comm in Hn. unfold memref_sz in Hn.
  destruct ((0 <? rank) && isD) eqn:E.
  - rewrite !getMR_memref_at by (unfold memref_sz; lia). cbn beta iota zeta.
    rewrite !(memref_at_agree rank output output' _ n)
      by (try exact H; unfold memref_sz; lia).
    unfold memref_sz.
    rewrite !(nth_take_agree n _ output output') by (try exact H; lia).
    reflexivity.
  - rewrite !getMR_memref_at by lia. cbn beta iota zeta.
    rewrite (memref_at_agree rank output output' pos n)
      by (try exact H; unfold memref_sz; lia).
    reflexivity.
Qed.

Lemma total_words_nonneg_ranks (infos : list (Z * bool)) :
  Forall (λ i, 0 <= i.1) infos -> 0 <= total_words infos.
Proof.
  induction 1 as [|i infos Hi _ IH]; [simpl; lia|].
  rewrite total_words_cons. pose proof (ptensor_sz_nonneg i.1 i.2 Hi). lia.
Qed.

Lemma deliver_loop_agree icm output output' irm0 l : forall st st',
  foldM (deliver_step icm output) l st = Ok st' ->
  (forall g, irm_at (dl_irm st) g = irm_at irm0 g) ->
  Forall (λ kv, 0 <= (irm_at irm0 kv.1).1) l ->
  0 <= dl_pos st ->
  take (Z.to_nat (dl_pos st')) output' = take (Z.to_nat (dl_pos st')) output ->
  foldM (deliver_step icm output') l st = Ok st'.
Proof.
  induction l as [|r l IH]; intros st st' Hrun Hirm Hranks Hpos Hagree;
    simpl in Hrun |- *; [exact Hrun|].
  apply bind_Ok in Hrun as (st1 & Hstep & Hrun).
  apply Forall_cons in Hranks as [Hr Hranks].
  assert (forall g, irm_at (dl_irm st1) g = irm_at irm0 g) as Hirm1.
  { unfold deliver_step in Hstep. destruct (icm !! r.1); [|discriminate].
    destruct (deliver_entry _ _ _ _ _). inversion Hstep; subst st1. simpl.
    intros g. rewrite irm_at_insert. apply Hirm. }
  assert (dl_pos st1 = dl_pos st + ptensor_sz (irm_at irm0 r.1).1 (irm_at irm0 r.1).2)
    as Hpos1.
  { unfold deliver_step in Hstep. destruct (icm !! r.1); [|discriminate].
    pose proof (deliver_entry_pos s (irm_at (dl_irm st) r.1).1
                  (irm_at (dl_irm st) r.1).2 output (dl_pos st)) as E.
    destruct (deliver_entry _ _ _ _ _). inversion Hstep; subst st1. simpl.
    simpl in E. rewrite E, Hirm. reflexivity. }
  pose proof (ptensor_sz_nonneg _ (irm_at irm0 r.1).2 Hr) as Hsz.
  destruct (deliver_loop _ _ irm0 _ _ _ Hrun Hirm1) as (evs & _ & _ & Hfinal & _).
  assert (0 <= total_words ((λ kv, irm_at irm0 kv.1) <$> l)) as Htot.
  { apply total_words_nonneg_ranks. apply Forall_fmap.
    eapply Forall_impl; [exact Hranks|]. intros kv Hkv. exact Hkv. }
  assert (deliver_step icm output' st r = Ok st1) as Hstep'.
  { unfold deliver_step in *. destruct (icm !! r.1) as [cb|]; [|discriminate].
    rewrite (deliver_entry_agree cb _ _ output output' (dl_pos st)
               (Z.to_nat (dl_pos st'))); auto.
    - rewrite Hirm. exact Hr.
    - rewrite Hirm. lia. }
  rewrite Hstep'. simpl. apply IH; auto. lia.
Qed.

(** X14. [deliver] reads nothing at or above the position it ends at: with
    recorded ranks that are not negative, as [handleResult] records them,
    two buffers that agree on the words below that position give the same
    calls and the same position.  So that position, which is half the
    size [handleResult] reported, bounds the words the compiled function
    has to have written. *)
Theorem deliver_reads_below_its_final_position dm output output' sz events pos dm' :
  Forall (λ kv, 0 <= (irm_at (_irm dm) kv.1).1) (_ivm dm) ->
  deliver dm output sz = Ok (events, pos, dm') ->
  take (Z.to_nat pos) output' = take (Z.to_nat pos) output ->
  deliver dm output' sz = Ok (events, pos, dm').
Proof.
  intros Hranks Hrun Hagree. unfold deliver in *.
  apply bind_Ok in Hrun as (st & Hloop & Hok).
  injection Hok as Hev Hpos Hdm. subst pos.
  rewrite (deliver_loop_agree _ output output' (_irm dm) _ _ _ Hloop);
    auto; [|simpl; lia].
  simpl. rewrite Hev, Hdm. reflexivity.
Qed.

(** ** Dropped and imported guids *)

Lemma do_call_gone reg dm c reg' dm' guid :
  match c with CallAddVal g _ _ => g <> guid | _ => True end ->
  ivm_find guid (_ivm dm) = None -> reg !! guid = None ->
  do_call (reg, dm) c = Ok (reg', dm') ->
  ivm_find guid (_ivm dm') = None /\ reg' !! guid = None.
Proof.
  intros Hc Hfind Hreg Hrun. destruct c as [g|g val cb|g cb|g]; simpl in Hrun.
  - apply bind_Ok in Hrun as ([v dm1] & Hget & Hok). inversion Hok; subst.
    destruct (getDependent_inv _ _ _ _ _ Hget)
      as [[_ ->]|(fut & typ & Hf & Hr & _ & Heq)]; [auto|].
    rewrite Heq in Hget. inversion Hget; subst; clear Hget Heq. simpl.
    split; [|exact Hreg].
    assert (g <> guid) as Hne by (intros ->; congruence).
    rewrite <- (ivm_set_fresh _ _ _ Hf), ivm_find_set_ne by exact Hne.
    exact Hfind.
  - apply bind_Ok in Hrun as (dm1 & Hadd & Hok). inversion Hok; subst.
    unfold addVal in Hadd. destruct (ivm_find g (_ivm dm)); [discriminate|].
    inversion Hadd; subst. simpl. split; [|exact Hreg].
    rewrite ivm_find_set_ne by exact Hc. exact Hfind.
  - inversion Hrun; subst. auto.
  - unfold DepManager_drop, Registry_del in Hrun. inversion Hrun; subst. simpl.
    split.
    + destruct (decide (g = guid)) as [->|Hne].
      * apply ivm_find_erase_eq.
      * rewrite ivm_find_erase_ne by exact Hne. exact Hfind.
    + destruct (decide (g = guid)) as [->|Hne].
      * apply lookup_delete_eq.
      * rewrite lookup_delete_ne by exact Hne. exact Hreg.
Qed.

Lemma do_calls_gone calls : forall reg dm reg' dm' guid,
  Forall (λ c, match c with CallAddVal g _ _ => g <> guid | _ => True end) calls ->
  ivm_find guid (_ivm dm) = None -> reg !! guid = None ->
  do_calls calls (reg, dm) = Ok (reg', dm') ->
  ivm_find guid (_ivm dm') = None /\ reg' !! guid = None.
Proof.
  unfold do_calls.
  induction calls as [|c calls IH]; intros reg dm reg' dm' guid Hcs Hf Hr Hrun;
    simpl in Hrun.
  - inversion Hrun; subst. auto.
  - apply Forall_cons in Hcs as [Hc Hcs].
    apply bind_Ok in Hrun as ([r1 d1] & Hstep & Hrun).
    destruct (do_call_gone _ _ _ _ _ _ Hc Hf Hr Hstep) as [Hf1 Hr1].
    eapply IH; eassumption.
Qed.

(** X15. After [drop] of a guid, [getDependent] of that guid fails with
    UnknownGuid, whether the guid was imported, created or unknown before:
    its value is gone from [_ivm] and the Registry does not know it any
    more.  This lasts through any further calls of the batch until a value
    is registered for the guid again, which [addVal] accepts right after the
    drop. *)
Theorem dropped_guid_is_unknown reg dm guid :
  let reg1 := (DepManager_drop reg dm guid).1 in
  let dm1 := (DepManager_drop reg dm guid).2 in
  getDependent reg1 dm1 guid = Err UnknownGuid /\
  (forall calls reg2 dm2,
     Forall (λ c, match c with CallAddVal g _ _ => g <> guid | _ => True end) calls ->
     do_calls calls (reg1, dm1) = Ok (reg2, dm2) ->
     getDependent reg2 dm2 guid = Err UnknownGuid) /\
  (forall val cb, exists dm2,
     addVal dm1 guid val cb = Ok dm2 /\
     getDependent reg1 dm2 guid = Ok (val, dm2)).
Proof.
  intros reg1 dm1.
  assert (ivm_find guid (_ivm dm1) = None) as Hf by apply ivm_find_erase_eq.
  assert (reg1 !! guid = None) as Hr by apply lookup_delete_eq.
  assert (forall r d, ivm_find guid (_ivm d) = None -> r !! guid = None ->
                      getDependent r d guid = Err UnknownGuid) as Hfail.
  { intros r d Hfd Hrd. unfold getDependent, Registry_get.
    rewrite Hfd, Hrd. reflexivity. }
  split; [apply Hfail; assumption|]. split.
  - intros calls reg2 dm2 Hcs Hrun.
    destruct (do_calls_gone _ _ _ _ _ _ Hcs Hf Hr Hrun). apply Hfail; assumption.
  - intros val cb. unfold addVal. rewrite Hf. eexists. split; [reflexivity|].
    apply getDependent_known. simpl. apply ivm_find_set_eq.
Qed.

(** What holds of [_args] and the Registry at every point of a batch that
    began with the Registry [reg0]. *)
Lemma do_call_args_inv reg0 reg dm c reg' dm' :
  batch_inv dm ->
  (reg ⊆ reg0 /\ NoDup (_args dm).*1 /\
   (forall g, g ∈ (_args dm).*1 -> g ∈ (_ivm dm).*1 \/ reg !! g = None) /\
   Forall (λ a, reg0 !! a.1 = Some a.2) (_args dm)) ->
  do_call (reg, dm) c = Ok (reg', dm') ->
  reg' ⊆ reg0 /\ NoDup (_args dm').*1 /\
  (forall g, g ∈ (_args dm').*1 -> g ∈ (_ivm dm').*1 \/ reg' !! g = None) /\
  Forall (λ a, reg0 !! a.1 = Some a.2) (_args dm').
Proof.
  intros Hinv (Hsub & Hnd & Hown & Hfut) Hrun.
  destruct c as [g|g val cb|g cb|g]; simpl in Hrun.
  - apply bind_Ok in Hrun as ([v dm1] & Hget & Hok). inversion Hok; subst.
    destruct (getDependent_inv _ _ _ _ _ Hget)
      as [[_ ->]|(fut & typ & Hf & Hr & _ & Heq)]; [auto|].
    rewrite Heq in Hget. inversion Hget; subst; clear Hget Heq. simpl.
    assert (g ∉ (_args dm).*1) as Hnew.
    { intros Hin. destruct (Hown g Hin) as [Hi|Hn].
      - apply ivm_find_None in Hf. contradiction.
      - rewrite Hr in Hn. discriminate. }
    split; [exact Hsub|]. split; [|split].
    + rewrite fmap_app. apply NoDup_app. split; [exact Hnd|]. split.
      * intros x Hx Hx'. apply list_elem_of_singleton in Hx'. simpl in Hx'.
        subst x. contradiction.
      * apply NoDup_singleton.
    + intros x. rewrite !fmap_app, !elem_of_app. simpl. intros [Hx|Hx].
      * destruct (Hown x Hx); auto.
      * left. right. exact Hx.
    + apply Forall_app. split; [exact Hfut|]. constructor; [|constructor].
      simpl. eapply lookup_weaken; eassumption.
  - apply bind_Ok in Hrun as (dm1 & Hadd & Hok). inversion Hok; subst.
    unfold addVal in Hadd.
    destruct (ivm_find g (_ivm dm)) eqn:Hf; [discriminate|].
    inversion Hadd; subst; clear Hadd. simpl.
    rewrite ivm_set_fresh by exact Hf.
    split; [exact Hsub|]. split; [exact Hnd|]. split; [|exact Hfut].
    intros x Hx. rewrite fmap_app, elem_of_app. destruct (Hown x Hx); auto.
  - inversion Hrun; subst. simpl. auto.
  - unfold DepManager_drop, Registry_del in Hrun. inversion Hrun; subst. simpl.
    split; [etrans; [apply delete_subseteq | exact Hsub]|].
    split; [exact Hnd|]. split; [|exact Hfut].
    intros x Hx. destruct (decide (g = x)) as [->|Hne].
    + right. apply lookup_delete_eq.
    + rewrite lookup_delete_ne by exact Hne.
      destruct (Hown x Hx) as [Hi|Hn]; [|auto]. left.
      rewrite ivm_erase_keys. apply list_elem_of_filter. split; [congruence|exact Hi].
Qed.

(** X16. In a batch, where the Registry changes by [drop] only, no array is
    imported twice: the guids of [_args] are distinct, there is one declared
    argument per entry, and the future kept for a guid is the one the
    Registry held for it when the batch began.  A guid of [_args] that is no
    longer in [_ivm] has been dropped and is gone from the Registry. *)
Theorem batch_imports_each_array_once reg calls reg1 dm1 :
  do_calls calls (reg, new_DepManager) = Ok (reg1, dm1) ->
  NoDup (_args dm1).*1 /\
  length (fn_args (_func dm1)) = length (_args dm1) /\
  Forall (λ a, reg !! a.1 = Some a.2) (_args dm1) /\
  (forall g, g ∈ (_args dm1).*1 -> g ∈ (_ivm dm1).*1 \/ reg1 !! g = None) /\
  reg1 ⊆ reg.
Proof.
  intros Hrun.
  pose proof (do_calls_inv _ _ _ _ _ new_DepManager_inv Hrun) as Hinv.
  pose (P := λ st : Registry * DepManager,
          batch_inv st.2 /\
          (st.1 ⊆ reg /\ NoDup (_args st.2).*1 /\
           (forall g, g ∈ (_args st.2).*1 ->
                      g ∈ (_ivm st.2).*1 \/ st.1 !! g = None) /\
           Forall (λ a, reg !! a.1 = Some a.2) (_args st.2))).
  assert (P (reg1, dm1)) as (_ & Hsub & Hnd & Hown & Hfut).
  { apply (foldM_invariant P do_call calls) with (b := (reg, new_DepManager));
      [|  |exact Hrun].
    - intros [r d] c [r' d'] [Hi Ha] Hc. split.
      + eapply do_call_inv; eassumption.
      + eapply do_call_args_inv; eassumption.
    - split; [apply new_DepManager_inv|]. simpl.
      split; [reflexivity|]. split; [constructor|]. split; [|constructor].
      intros g Hg. apply elem_of_nil in Hg as []. }
  simpl in *. split; [exact Hnd|].
  split; [eapply Forall2_length, (inv_args _ Hinv)|]. auto.
Qed.

(** ** More on the engine *)

Section EngineRuns.
Context `{Backend}.

Lemma run_engine_uncached st module e lowered st' :
  run_engine false st module = Ok (e, lowered, st') ->
  pm_run module = Some lowered /\ engine_create lowered = true /\
  e = {| engine_id := engines_built st; engine_module := lowered |} /\
  st' = {| engineCache := engineCache st; engines_built := S (engines_built st) |}.
Proof.
  unfold run_engine. intros Hrun.
  apply bind_Ok in Hrun as ([[e1 l1] n1] & Hc & Hok).
  apply createExecutionEngine_Ok in Hc as (Hpm & Hec & -> & ->).
  inversion Hok; subst. auto.
Qed.

Lemma run_engine_built useCache st module e lowered st' :
  run_engine useCache st module = Ok (e, lowered, st') ->
  (engines_built st <= engines_built st')%nat.
Proof.
  destruct useCache.
  - destruct (engineCache st !! sha1 module) as [e0|] eqn:Hc.
    + rewrite (run_engine_hit _ _ _ Hc). intros [= _ _ <-]. lia.
    + rewrite (run_engine_miss _ _ Hc).
      destruct (pm_run module) as [l|]; [|discriminate].
      destruct (engine_create l); [|discriminate].
      intros [= _ _ <-]. simpl. lia.
  - intros Hrun. apply run_engine_uncached in Hrun as (_ & _ & _ & ->).
    simpl. lia.
Qed.

Lemma jit_reaches_built st st' :
  jit_reaches st st' -> (engines_built st <= engines_built st')%nat.
Proof.
  induction 1 as [st|st st1 st2 uc m e m' _ IH Hrun]; [lia|].
  apply run_engine_built in Hrun. lia.
Qed.

Lemma run_engines_cons useCache module modules st :
  run_engines useCache (module :: modules) st =
  match run_engine useCache st module with
  | Ok (_, _, st') => run_engines useCache modules st'
  | Err e => Err e
  end.
Proof.
  unfold run_engines. simpl.
  destruct (run_engine useCache st module) as [[[e l] st']|e]; reflexivity.
Qed.

(** X17. With the cache off every call of [run] that gets to an engine
    lowers the module and builds an engine of its own, and the cache is
    left as it is: two such calls never use the same engine, not even for
    the same text, and [n] calls build [n] engines. *)
Theorem uncached_runs_always_compile :
  (forall st module e lowered st',
     run_engine false st module = Ok (e, lowered, st') ->
     pm_run module = Some lowered /\ engine_create lowered = true /\
     engine_module e = lowered /\ engine_id e = engines_built st /\
     engineCache st' = engineCache st /\
     engines_built st' = S (engines_built st)) /\
  (forall st0 m1 e1 l1 st1 st2 m2 e2 l2 st3,
     run_engine false st0 m1 = Ok (e1, l1, st1) ->
     jit_reaches st1 st2 ->
     run_engine false st2 m2 = Ok (e2, l2, st3) ->
     engine_id e1 <> engine_id e2) /\
  (forall modules st st',
     run_engines false modules st = Ok st' ->
     engineCache st' = engineCache st /\
     engines_built st' = (engines_built st + length modules)%nat).
Proof.
  split; [|split].
  - intros st module e lowered st' Hrun.
    apply run_engine_uncached in Hrun as (Hpm & Hec & -> & ->). auto 10.
  - intros st0 m1 e1 l1 st1 st2 m2 e2 l2 st3 H1 Hreach H2.
    apply run_engine_uncached in H1 as (_ & _ & -> & ->).
    apply run_engine_uncached in H2 as (_ & _ & -> & _).
    apply jit_reaches_built in Hreach. simpl in *. lia.
  - induction modules as [|m ms IH]; intros st st' Hrun.
    + inversion Hrun; subst. split; [reflexivity | simpl; lia].
    + rewrite run_engines_cons in Hrun.
      destruct (run_engine false st m) as [[[e l] st1]|e] eqn:Hm; [|discriminate].
      apply run_engine_uncached in Hm as (_ & _ & _ & ->).
      apply IH in Hrun as [Hc Hb]. simpl in *. split; [exact Hc | lia].
Qed.

Lemma size_list_to_set_length (l : list Z) :
  (size (list_to_set l : gset Z) <= length l)%nat.
Proof.
  induction l as [|x l IH].
  - change (size (∅ : gset Z) <= 0)%nat. rewrite size_empty. lia.
  - change (size ({[x]} ∪ list_to_set l : gset Z) <= S (length l))%nat.
    rewrite size_union_alt, size_singleton.
    assert (size (list_to_set l ∖ {[x]} : gset Z) <= size (list_to_set l : gset Z))%nat
      by (apply subseteq_size; intros y Hy; apply elem_of_difference in Hy as [Hy _];
          exact Hy).
    lia.
Qed.

Lemma run_engine_cached_step st module e lowered st' :
  run_engine true st module = Ok (e, lowered, st') ->
  engines_built st = size (engineCache st) ->
  engines_built st' = size (engineCache st') /\
  dom (engineCache st') = {[ sha1 module ]} ∪ dom (engineCache st).
Proof.
  intros Hrun Hsz. destruct (engineCache st !! sha1 module) as [e0|] eqn:Hc.
  - rewrite (run_engine_hit _ _ _ Hc) in Hrun. inversion Hrun; subst.
    split; [exact Hsz|]. apply elem_of_dom_2 in Hc.
    symmetry. apply subseteq_union_1_L, singleton_subseteq_l, Hc.
  - rewrite (run_engine_miss _ _ Hc) in Hrun.
    destruct (pm_run module) as [l|]; [|discriminate].
    destruct (engine_create l); [|discriminate].
    inversion Hrun; subst; clear Hrun. simpl.
    rewrite map_size_insert_None by exact Hc. rewrite dom_insert_L.
    split; [lia | reflexivity].
Qed.

Lemma run_engines_cached modules : forall st st',
  run_engines true modules st = Ok st' ->
  engines_built st = size (engineCache st) ->
  engines_built st' = size (engineCache st') /\
  dom (engineCache st') = list_to_set (sha1 <$> modules) ∪ dom (engineCache st).
Proof.
  induction modules as [|m ms IH]; intros st st' Hrun Hsz.
  - inversion Hrun; subst. split; [exact Hsz|]. simpl.
    symmetry. apply (left_id_L ∅ (∪)).
  - rewrite run_engines_cons in Hrun.
    destruct (run_engine true st m) as [[[e l] st1]|e] eqn:Hm; [|discriminate].
    destruct (run_engine_cached_step _ _ _ _ _ Hm Hsz) as [Hsz1 Hdom1].
    destruct (IH _ _ Hrun Hsz1) as [Hsz' Hdom'].
    split; [exact Hsz'|]. rewrite Hdom', Hdom1, fmap_cons. simpl.
    rewrite (assoc_L (∪)). f_equal. apply (comm_L (∪)).
Qed.

(** X18. With the cache on, a process compiles once per digest: after any
    sequence of cached runs from the start of the process the cache holds
    one engine for each digest among the texts run and nothing else, and
    the number of engines built is the number of those distinct digests, so
    never more than the number of runs. *)
Theorem cached_runs_compile_once_per_digest modules st :
  run_engines true modules new_JitState = Ok st ->
  dom (engineCache st) = list_to_set (sha1 <$> modules) /\
  engines_built st = size (engineCache st) /\
  engines_built st = size (list_to_set (sha1 <$> modules) : gset Z) /\
  (engines_built st <= length modules)%nat.
Proof.
  intros Hrun.
  destruct (run_engines_cached _ _ _ Hrun eq_refl) as [Hsz Hdom].
  simpl in Hdom. rewrite dom_empty_L, (right_id_L ∅ (∪)) in Hdom.
  split; [exact Hdom|]. split; [exact Hsz|].
  assert (engines_built st = size (list_to_set (sha1 <$> modules) : gset Z)) as Hn
    by (rewrite Hsz, <- Hdom; symmetry; apply size_dom).
  split; [exact Hn|]. rewrite Hn.
  etrans; [apply size_list_to_set_length|]. rewrite length_fmap. reflexivity.
Qed.

(** X19. [JIT::run] fails in three ways only, tried in this order: the
    pass pipeline fails on the module (PassFailure), no engine can be built
    from the lowered module (CompileFailure), the engine does not know the
    symbol [_mlir_ciface_] followed by the function name (LookupFailure).
    The first two can happen only when an engine has to be built: on a
    cache hit nothing is lowered or built, and only the lookup can fail.
    When none of them happens the call succeeds. *)
Theorem run_failure_modes (has_itac useCache : bool) (st : JitState)
    (module : ModuleOp) (fname : string) (inp : list Z) (osz : Z) :
  let text := if has_itac then vt_decls module else module in
  let symbol := "_mlir_ciface_" +:+ fname in
  match (if useCache then engineCache st !! sha1 text else None) with
  | Some engine =>
      if lookupPacked (engine_module engine) symbol
      then exists r, run has_itac useCache st module fname inp osz = Ok r /\
                     rr_engine r = engine /\ rr_state r = st /\ rr_module r = text
      else run has_itac useCache st module fname inp osz = Err LookupFailure
  | None =>
      match pm_run text with
      | None => run has_itac useCache st module fname inp osz = Err PassFailure
      | Some lowered =>
          if engine_create lowered then
            if lookupPacked lowered symbol
            then exists r, run has_itac useCache st module fname inp osz = Ok r /\
                           engine_module (rr_engine r) = lowered /\
                           rr_module r = lowered
            else run has_itac useCache st module fname inp osz = Err LookupFailure
          else run has_itac useCache st module fname inp osz = Err CompileFailure
      end
  end.
Proof.
  intros text symbol. unfold run, run_engine, createExecutionEngine.
  change (if has_itac then vt_decls module else module) with text.
  change ("_mlir_ciface_" +:+ fname) with symbol.
  destruct useCache.
  - destruct (engineCache st !! sha1 text) as [engine|]; simpl.
    + destruct (lookupPacked (engine_module engine) symbol); simpl; eauto.
    + destruct (pm_run text) as [lowered|]; simpl; [|reflexivity].
      destruct (engine_create lowered); simpl; [|reflexivity].
      destruct (lookupPacked lowered symbol); simpl; eauto.
  - destruct (pm_run text) as [lowered|]; simpl; [|reflexivity].
    destruct (engine_create lowered); simpl; [|reflexivity].
    destruct (lookupPacked lowered symbol); simpl; eauto.
Qed.

End EngineRuns.

(** ** Construction of the engine *)

(** X20. Whatever the environment holds, an engine that [JIT::JIT] builds
    has an optimisation level from 0 to 3: 3 when DDPT_OPT_LEVEL is not set,
    the number read from it otherwise, and that level is the one its
    optimising pipeline is made with.  A number outside 0..3 makes the
    constructor throw "Bad optimization level" with the text of the
    variable, once the pipeline has parsed and the verbosity has been read.
    Timing in the pass manager is on exactly for a verbosity above 2 and IR
    printing exactly above 3, so never without timing. *)
Theorem JIT_ctor_levels :
  (forall h jit,
     JIT_ctor h = inr jit ->
     0 <= _jit_opt_level jit <= 3 /\
     _optPipeline jit = (_jit_opt_level jit, 0) /\
     match getenv h "DDPT_OPT_LEVEL" with
     | None => _jit_opt_level jit = 3
     | Some ol_ => stoi h ol_ = Some (_jit_opt_level jit)
     end /\
     match getenv h "DDPT_VERBOSE" with
     | None => _verbose jit = 0
     | Some v_ => stoi h v_ = Some (_verbose jit)
     end /\
     (pm_timing jit = true <-> 2 < _verbose jit) /\
     (pm_ir_printing jit = true <-> 3 < _verbose jit) /\
     (pm_ir_printing jit = true -> pm_timing jit = true) /\
     _pm jit = pass_pipeline h /\
     parsePassPipeline h (pass_pipeline h) = true) /\
  (forall h ol_ level verbose,
     parsePassPipeline h (pass_pipeline h) = true ->
     read_verbose h = inr verbose ->
     getenv h "DDPT_OPT_LEVEL" = Some ol_ ->
     stoi h ol_ = Some level ->
     level < 0 \/ 3 < level ->
     JIT_ctor h = inl (BadOptLevel ol_)).
Proof.
  split.
  - intros h jit. unfold JIT_ctor.
    destruct (parsePassPipeline h (pass_pipeline h)) eqn:Hparse; simpl;
      [|discriminate].
    unfold read_verbose, read_opt_level.
    destruct (getenv h "DDPT_VERBOSE") as [v_|];
      [destruct (stoi h v_) as [verbose|] eqn:Hv; [|discriminate]|];
      (destruct (getenv h "DDPT_OPT_LEVEL") as [ol_|];
       [destruct (stoi h ol_) as [level|] eqn:Hl; [|discriminate];
        destruct ((level <? 0) || (3 <? level)) eqn:Hrange; [discriminate|]|]);
      destruct (read_libs h _ _) as [gpulib libs];
      destruct (detectHost h); simpl; try discriminate;
      destruct (createTargetMachine h); simpl; try discriminate;
      intros [= <-]; simpl;
      try (apply orb_false_iff in Hrange as [H0 H3];
           apply Z.ltb_ge in H0; apply Z.ltb_ge in H3);
      repeat split; try reflexivity; try assumption; try lia;
      try discriminate;
      try (intros Ht; apply andb_true_iff in Ht as [_ Ht];
           apply Z.ltb_lt in Ht; lia);
      try (intros Hlt; apply andb_true_intro; split;
           [apply negb_true_iff, Z.eqb_neq; lia | apply Z.ltb_lt; lia]).
  - intros h ol_ level verbose Hparse Hv Hol Hl Hrange. unfold JIT_ctor.
    rewrite Hparse, Hv. simpl. unfold read_opt_level. rewrite Hol, Hl.
    assert ((level <? 0) || (3 <? level) = true) as ->; [|reflexivity].
    apply orb_true_iff. destruct Hrange; [left|right]; apply Z.ltb_lt; lia.
Qed.

(** ** The creation front-ends and the service node *)

(** X21. The element count [DeferredArange::generate_mlir] computes.  The
    comparison [_step < 0] is on an unsigned number, so [-1] is always the
    term added.  For [_start <= _end], a step that is not 0 and a sum that
    does not wrap, the count is the least [n] with
    [_start + n * _step >= _end]: the number of elements of the range, and
    the stop value [_start + n * _step] lies less than one step past
    [_end].  A range with [_end < _start] is not empty: with step 1 its
    count is [2^64 - (_start - _end)]. *)
Theorem DeferredArange_count _start _end _step :
  (to_uint64 _step <? 0) = false /\
  (_step = 0 -> DeferredArange_num _start _end _step = None) /\
  (0 <= _start <= _end -> 0 < _step -> _end - _start + _step <= 2 ^ 64 ->
     exists n,
       DeferredArange_num _start _end _step = Some n /\
       0 <= n /\
       (n - 1) * _step < _end - _start <= n * _step /\
       (_start = _end -> n = 0) /\
       (_start + n * _step < 2 ^ 64 ->
          DeferredArange_stop _start n _step = _start + n * _step /\
          _end <= DeferredArange_stop _start n _step < _end + _step)) /\
  (0 <= _end < _start -> _start < 2 ^ 64 -> _step = 1 ->
     DeferredArange_num _start _end _step = Some (2 ^ 64 - (_start - _end))).
Proof.
  assert ((to_uint64 _step <? 0) = false) as Hdead.
  { apply Z.ltb_ge. apply to_uint64_range. }
  split; [exact Hdead|]. unfold DeferredArange_num. rewrite Hdead.
  split; [intros ->; reflexivity|]. split.
  - intros Hse Hstep Hfit.
    destruct (Z.eqb_spec _step 0) as [->|_]; [lia|].
    rewrite to_uint64_small by lia.
    set (x := _end - _start + _step + -1).
    exists (x / _step).
    pose proof (Z.div_mod x _step ltac:(lia)) as Hdm.
    pose proof (Z.mod_pos_bound x _step Hstep) as Hmod.
    assert (0 <= x / _step) as Hq by (apply Z.div_pos; unfold x; lia).
    split; [reflexivity|]. split; [exact Hq|].
    split; [unfold x in *; nia|]. split.
    + intros ->. unfold x. replace (_end - _end + _step + -1) with (_step - 1) by lia.
      apply Z.div_small. lia.
    + intros Hstop. unfold DeferredArange_stop.
      rewrite to_uint64_small by nia. split; [reflexivity|]. unfold x in *. nia.
  - intros Hes Hs ->. simpl. rewrite Z.div_1_r.
    unfold to_uint64.
    replace (_end - _start + 1 + -1) with (2 ^ 64 - (_start - _end) + -1 * 2 ^ 64)
      by lia.
    rewrite Z.mod_add by lia. rewrite Z.mod_small by lia. reflexivity.
Qed.

(** X22. A service node sets its promise to true in exactly one of its two
    methods.  DROP does it in [generate_mlir], which drops the guid and
    returns false, so that [run] is not asked for; [run] on such a node
    would throw.  RUN leaves the manager and the Registry alone in
    [generate_mlir] and returns true, which asks for [run], and [run] sets
    the promise.  A node built without an operation throws in both. *)
Theorem service_node_sets_promise_once _op _a reg dm :
  match DeferredService_generate_mlir _op _a reg dm with
  | Ok (request_run, promise, reg', dm') =>
      _op <> SERVICE_LAST /\
      (request_run = false ->
         _op = DROP /\ promise = Some true /\
         (reg', dm') = DepManager_drop reg dm _a /\
         DeferredService_run _op = Err UnknownService) /\
      (request_run = true ->
         _op = RUN /\ promise = None /\ reg' = reg /\ dm' = dm /\
         DeferredService_run _op = Ok true)
  | Err e =>
      _op = SERVICE_LAST /\ e = UnknownService /\
      DeferredService_run _op = Err UnknownService
  end.
Proof.
  destruct _op; simpl; repeat split; try discriminate; try reflexivity;
    intros; discriminate.
Qed.

(** ** Bounds *)

Lemma handleResult_loop_idx l : forall st st',
  foldM handleResult_step l st = Ok st' ->
  hr_idx st' = (hr_idx st + length l)%nat /\
  length (hr_ret_values st') = length (hr_ret_values st) /\
  length (fn_results (hr_func st'))
  = (length (fn_results (hr_func st)) + length l)%nat.
Proof.
  induction l as [|v l IH]; intros st st' Hrun; simpl in Hrun.
  - inversion Hrun; subst. simpl. lia.
  - apply bind_Ok in Hrun as (st1 & Hstep & Hrun).
    apply handleResult_step_Ok in Hstep as (ty & rank & _ & ->).
    apply IH in Hrun as (Hidx & Hret & Hres). simpl in *.
    rewrite Hidx, Hret, Hres, length_insert. unfold insert_at.
    rewrite length_app. simpl. rewrite length_take, length_drop. lia.
Qed.

(** X23. The loop of [handleResult] stays within bounds: when it comes to
    an entry of [_ivm], the index it stores the value at is the number of
    entries before it, which is below the size of the vector of return
    values (sized to [_ivm] on entry), and the index it inserts the result
    type at is at most the number of result types the function has by
    then, the bound [insertResult] asks for. *)
Theorem handleResult_indices_in_range dm before v after st :
  _ivm dm = before ++ v :: after ->
  foldM handleResult_step before
    {| hr_ret_values := replicate (length (_ivm dm)) NullValue;
       hr_func := _func dm; hr_irm := _irm dm; hr_sz := 0; hr_idx := 0%nat;
       hr_ivm := [] |} = Ok st ->
  hr_idx st = length before /\
  (hr_idx st < length (hr_ret_values st))%nat /\
  length (hr_ret_values st) = length (_ivm dm) /\
  (hr_idx st <= length (fn_results (hr_func st)))%nat /\
  length (fn_results (hr_func st))
  = (length (fn_results (_func dm)) + length before)%nat.
Proof.
  intros Hsplit Hrun.
  apply handleResult_loop_idx in Hrun as (Hidx & Hret & Hres). simpl in *.
  rewrite length_replicate in Hret.
  rewrite Hidx, Hret, Hres, Hsplit, length_app. simpl. lia.
Qed.

Section DeliverAfterRun.
Context `{Backend}.

Lemma run_out_length has_itac useCache st module fname inp osz r :
  run has_itac useCache st module fname inp osz = Ok r ->
  length (rr_out r) = Z.to_nat osz.
Proof.
  unfold run. intros Hrun.
  apply bind_Ok in Hrun as ([[e m] st'] & _ & Hrun).
  destruct (negb (lookupPacked _ _)); [discriminate|].
  inversion Hrun; subst; clear Hrun. simpl.
  rewrite call_packed_length, length_replicate. reflexivity.
Qed.

(** X24. [deliver] stays within the buffer [JIT::run] returned.  When
    [handleResult] reported the size [osz] (and twice the words fit 64
    bits), [run] returns a buffer of [osz] words, and a [deliver] on that
    buffer ends at half of it and reads no word at or beyond that
    position: whatever lies behind the buffer does not change a call. *)
Theorem deliver_stays_within_the_run_buffer itac b dm osz b' dm'
    has_itac useCache st module fname inp r sz events pos dm'' :
  NoDup (_ivm dm).*1 ->
  2 * result_words (_ivm dm) < 2 ^ 64 ->
  handleResult itac b dm = Ok (osz, b', dm') ->
  run has_itac useCache st module fname inp osz = Ok r ->
  deliver dm' (rr_out r) sz = Ok (events, pos, dm'') ->
  Z.of_nat (length (rr_out r)) = osz /\
  osz = 2 * pos /\
  (Z.to_nat pos <= length (rr_out r))%nat /\
  forall beyond, deliver dm' (rr_out r ++ beyond) sz = Ok (events, pos, dm'').
Proof.
  intros Hnd Hfit Hres Hrun Hdel.
  destruct (handleResult_words _ _ _ _ _ _ Hres) as (Hosz & Hlen & Hw).
  pose proof Hres as Hspec.
  apply handleResult_spec in Hspec
    as (infos & HF & _ & _ & _ & _ & Hv & _ & _ & _ & _ & Hn).
  assert (osz = 2 * result_words (_ivm dm)) as Hexact.
  { rewrite Hosz, (to_uint64_small (result_words _)) by lia.
    apply to_uint64_small. lia. }
  pose proof (run_out_length _ _ _ _ _ _ _ _ Hrun) as Hout.
  pose proof Hdel as Hd.
  apply deliver_spec in Hd as (evs & _ & _ & Hpos & _).
  rewrite (Hw Hnd) in Hpos.
  split; [rewrite Hout; lia|]. split; [lia|]. split; [lia|].
  intros beyond. unfold deliver in *.
  apply bind_Ok in Hdel as (dst & Hloop & Hok).
  injection Hok as Hev Hp Hdm.
  rewrite (deliver_loop_agree _ (rr_out r) (rr_out r ++ beyond) (_irm dm') _ _ _ Hloop).
  - simpl. rewrite Hev, Hp, Hdm. reflexivity.
  - reflexivity.
  - rewrite Hv. apply Forall_fmap, Forall_lookup. intros j kv Hj. simpl.
    destruct (Forall2_lookup_l _ _ _ _ _ HF Hj) as ([ty [rank d]] & Hi & Hinfo).
    simpl in Hinfo. apply result_info_inv in Hinfo as (_ & _ & _ & Hr).
    unfold irm_at. rewrite (Hn Hnd j kv _ Hj Hi). exact Hr.
  - simpl. lia.
  - rewrite Hp. apply take_app_le. lia.
Qed.

End DeliverAfterRun.

(** ** The earlier text *)

(** X25. [getPTType] of the earlier text has the dtype table of [getTType]:
    the same tags are accepted, with the same element types, and any other
    tag throws "unknown dtype", whatever the rank.  For an accepted tag and
    a rank that is not negative the type has [rank] dimensions, all of them
    dynamic, and is always marked distributed and not on a device; for an
    accepted tag and a negative rank it fails on the size of the shape
    vector. *)
Theorem earlier_getPTType_same_table dt rank :
  - 2 ^ 31 <= rank < 2 ^ 31 ->
  match Earlier.getPTType dt rank with
  | inr (Earlier.PTensorType rtensor onDevice dist) =>
      0 <= rank /\
      elementTypeOf dt = Ok (Earlier.getElementType rtensor) /\
      Earlier.getShape rtensor = replicate (Z.to_nat rank) (-1) /\
      Z.of_nat (length (Earlier.getShape rtensor)) = rank /\
      onDevice = false /\ dist = true /\
      forall gShape lhShape ownShape rhShape device team lOffs,
        exists t,
          getTType dt gShape lhShape ownShape rhShape device team lOffs = Ok t /\
          elementTypeOfType t = Some (Earlier.getElementType rtensor)
  | inr (Earlier.TensorType _) => False
  | inl Earlier.unknown_dtype =>
      supported dt = false /\
      forall gShape lhShape ownShape rhShape device team lOffs,
        getTType dt gShape lhShape ownShape rhShape device team lOffs
        = Err UnknownDtype
  | inl Earlier.size_overflow =>
      rank < 0 /\ supported dt = true
  end.
Proof.
  intros Hint. unfold Earlier.getPTType.
  assert (to_uint64 rank = if rank <? 0 then rank + 2 ^ 64 else rank) as Hu.
  { unfold to_uint64. destruct (rank <? 0) eqn:E.
    - apply Z.ltb_lt in E. symmetry. apply (Z.mod_unique _ _ (-1)); lia.
    - apply Z.ltb_ge in E. apply Z.mod_small. lia. }
  destruct (Earlier.elementTypeOf dt) as [etyp|e] eqn:Het.
  - cbv zeta. rewrite Hu. destruct (rank <? 0) eqn:E.
    + apply Z.ltb_lt in E.
      destruct (2 ^ 32 <=? rank + 2 ^ 64) eqn:E2; [|apply Z.leb_gt in E2; lia].
      split; [exact E|]. destruct dt; try reflexivity; discriminate.
    + apply Z.ltb_ge in E.
      destruct (2 ^ 32 <=? rank) eqn:E2; [apply Z.leb_le in E2; lia|].
      split; [exact E|]. 
      split; [destruct dt; inversion Het; reflexivity|].
      split; [reflexivity|]. simpl. rewrite length_replicate.
      split; [lia|]. split; [reflexivity|]. split; [reflexivity|].
      intros gShape lhShape ownShape rhShape device team lOffs.
      unfold getTType.
      destruct dt; inversion Het; subst; simpl;
        (destruct (negb (team =? 0));
         [destruct (negb (length gShape =? 0)%nat)|];
         eexists; split; reflexivity).
  - destruct dt; try discriminate. split; [reflexivity|].
    intros. reflexivity.
Qed.

Lemma earlier_memref_sz_range rank : 0 <= Earlier.memref_sz rank < 2 ^ 64.
Proof. apply to_uint64_range. Qed.

Lemma earlier_memref_sz_int rank :
  - 2 ^ 31 <= 3 + 2 * rank < 2 ^ 31 ->
  Earlier.memref_sz rank
  = if 3 + 2 * rank <? 0 then 2 ^ 64 + (3 + 2 * rank) else 3 + 2 * rank.
Proof.
  intros Hr. unfold Earlier.memref_sz, Earlier.to_int32.
  destruct (3 + 2 * rank <? 0) eqn:E.
  - apply Z.ltb_lt in E.
    replace ((3 + 2 * rank) mod 2 ^ 32) with (3 + 2 * rank + 2 ^ 32)
      by (apply (Z.mod_unique _ _ (-1)); lia).
    destruct (3 + 2 * rank + 2 ^ 32 <? 2 ^ 31) eqn:E2;
      [apply Z.ltb_lt in E2; lia|].
    unfold to_uint64. symmetry. apply (Z.mod_unique _ _ (-1)); lia.
  - apply Z.ltb_ge in E. rewrite (Z.mod_small (3 + 2 * rank)) by lia.
    destruct (3 + 2 * rank <? 2 ^ 31) eqn:E2; [|apply Z.ltb_ge in E2; lia].
    apply to_uint64_small. lia.
Qed.

Lemma earlier_memref_sz_small rank :
  0 <= rank <= 2 ^ 30 - 2 -> Earlier.memref_sz rank = 3 + 2 * rank.
Proof.
  intros Hr. rewrite earlier_memref_sz_int by lia.
  destruct (3 + 2 * rank <? 0) eqn:E; [apply Z.ltb_lt in E; lia | reflexivity].
Qed.

Lemma earlier_arg_size_fold (l : list (id_type * Z)) : forall z,
  fold_left (λ sz a, to_uint64 (sz + Earlier.memref_sz a.2)) l (to_uint64 z)
  = to_uint64 (z + foldr (λ a acc, Earlier.memref_sz a.2 + acc) 0 l).
Proof.
  induction l as [|a l IH]; intros z; simpl.
  - rewrite Z.add_0_r. reflexivity.
  - rewrite to_uint64_add_l, IH. f_equal. lia.
Qed.

Lemma earlier_store_inputs_loop reg (l : list (id_type * Z)) : forall res dm res' dm',
  Earlier.store_inputs_loop reg l (res, dm) = inr (res', dm') ->
  exists buffs,
    res' = res ++ buffs /\
    Forall2 (λ buff a, Z.of_nat (length buff) = Earlier.memref_sz a.2) buffs l /\
    Forall (λ a, is_Some (reg !! a.1) /\ 8 * Earlier.memref_sz a.2 < 2 ^ 64) l /\
    Earlier._ivm dm' = filter (λ kv, kv.1 ∉ l.*1) (Earlier._ivm dm) /\
    Earlier._func dm' = Earlier._func dm /\
    Earlier._irm dm' = Earlier._irm dm /\
    Earlier._args dm' = Earlier._args dm.
Proof.
  induction l as [|a l IH]; intros res dm res' dm' Hrun;
    cbn [Earlier.store_inputs_loop] in Hrun.
  - inversion Hrun; subst. exists []. rewrite app_nil_r.
    repeat split; auto; try constructor.
    symmetry. apply filter_keep_all. intros kv. apply not_elem_of_nil.
  - destruct (Earlier.store_inputs_step reg (res, dm) a) as [e|[res1 dm1]] eqn:Hstep;
      [discriminate|].
    unfold Earlier.store_inputs_step, Earlier.Registry_get in Hstep.
    destruct (reg !! a.1) as [f|] eqn:Hreg; [|discriminate]. cbv zeta in Hstep.
    destruct (2 ^ 64 <=? 8 * Earlier.memref_sz a.2) eqn:Hfit; [discriminate|].
    apply Z.leb_gt in Hfit.
    inversion Hstep; subst res1 dm1; clear Hstep.
    apply IH in Hrun as (buffs & -> & HF & Hall & Hvm & Hf & Hrm & Ha).
    simpl in *. eexists (_ :: buffs).
    split; [rewrite <- app_assoc; reflexivity|].
    split.
    { constructor; [|exact HF]. rewrite write_words_length, length_replicate.
      pose proof (earlier_memref_sz_range a.2). lia. }
    split; [constructor; [split; [eauto | exact Hfit] | exact Hall]|].
    split; [|auto].
    rewrite Hvm, list_filter_filter. apply list_filter_iff. intros kv.
    rewrite not_elem_of_cons. tauto.
Qed.

Lemma earlier_store_inputs_total reg (l : list (id_type * Z)) : forall acc,
  Forall (λ a, is_Some (reg !! a.1) /\ 8 * Earlier.memref_sz a.2 < 2 ^ 64) l ->
  exists r, Earlier.store_inputs_loop reg l acc = inr r.
Proof.
  induction l as [|a l IH]; intros [res dm] Hall;
    cbn [Earlier.store_inputs_loop]; [eauto|].
  apply Forall_cons in Hall as [[[f Hf] Hfit] Hall].
  unfold Earlier.store_inputs_step, Earlier.Registry_get. rewrite Hf. cbv zeta.
  destruct (2 ^ 64 <=? 8 * Earlier.memref_sz a.2) eqn:E;
    [apply Z.leb_le in E; lia|].
  apply IH, Hall.
Qed.

Lemma earlier_buffers_words (buffs : list (list Z)) (l : list (id_type * Z)) :
  Forall2 (λ buff a, Z.of_nat (length buff) = Earlier.memref_sz a.2) buffs l ->
  Z.of_nat (length (concat buffs))
  = foldr (λ a acc, Earlier.memref_sz a.2 + acc) 0 l.
Proof.
  induction 1 as [|buff a buffs l Hlen _ IH]; [reflexivity|].
  simpl. rewrite length_app, Nat2Z.inj_add, Hlen, IH. reflexivity.
Qed.

(** X26. [arg_size] of the earlier text counts the words [store_inputs]
    allocates.  [memref_sz(rank)] is [3 + 2 * rank] for a rank from 0 to
    2^30 - 2, and a negative [int] widened to 64 bits for a rank of -2 or
    less.  [arg_size] is the sum of [memref_sz] over [_args], reduced to 64
    bits.  [store_inputs] succeeds exactly when the Registry still knows
    every guid of [_args] and every buffer can be allocated, which with
    ranks from 0 to 2^30 - 2 is when the Registry knows every guid; it then
    returns one buffer per entry of [_args], in order, each of
    [memref_sz(rank)] words, so that [arg_size] is the number of words in
    the buffers, and it removes the guids of [_args] from [_ivm] and nothing
    else. *)
Theorem earlier_arg_size_counts_the_input_words :
  (forall rank, 0 <= rank <= 2 ^ 30 - 2 -> Earlier.memref_sz rank = 3 + 2 * rank) /\
  (forall rank, - 2 ^ 30 - 1 <= rank <= -2 ->
     Earlier.memref_sz rank = 2 ^ 64 + (3 + 2 * rank) /\
     2 ^ 64 <= 8 * Earlier.memref_sz rank) /\
  (forall dm,
     Earlier.arg_size dm
     = to_uint64 (foldr (λ a acc, Earlier.memref_sz a.2 + acc) 0 (Earlier._args dm))) /\
  (forall reg dm,
     (exists r, Earlier.store_inputs reg dm = inr r) <->
     Forall (λ a, is_Some (reg !! a.1) /\ 8 * Earlier.memref_sz a.2 < 2 ^ 64)
       (Earlier._args dm)) /\
  (forall reg dm,
     Forall (λ a, 0 <= a.2 <= 2 ^ 30 - 2) (Earlier._args dm) ->
     (exists r, Earlier.store_inputs reg dm = inr r) <->
     Forall (λ a, is_Some (reg !! a.1)) (Earlier._args dm)) /\
  (forall reg dm res dm',
     Earlier.store_inputs reg dm = inr (res, dm') ->
     length res = length (Earlier._args dm) /\
     Forall2 (λ buff a, Z.of_nat (length buff) = Earlier.memref_sz a.2)
       res (Earlier._args dm) /\
     Earlier.arg_size dm = to_uint64 (Z.of_nat (length (concat res))) /\
     (Forall (λ a, 0 <= a.2 <= 2 ^ 30 - 2) (Earlier._args dm) ->
      Forall2 (λ buff a, Z.of_nat (length buff) = 3 + 2 * a.2)
        res (Earlier._args dm)) /\
     Earlier._ivm dm'
     = filter (λ kv, kv.1 ∉ (Earlier._args dm).*1) (Earlier._ivm dm) /\
     Earlier._func dm' = Earlier._func dm /\
     Earlier._irm dm' = Earlier._irm dm /\
     Earlier._args dm' = Earlier._args dm).
Proof.
  assert (forall dm,
            Earlier.arg_size dm
            = to_uint64 (foldr (λ a acc, Earlier.memref_sz a.2 + acc) 0
                           (Earlier._args dm))) as Hsize.
  { intros dm. unfold Earlier.arg_size.
    change 0 with (to_uint64 0) at 1. rewrite earlier_arg_size_fold. reflexivity. }
  assert (forall reg dm,
            (exists r, Earlier.store_inputs reg dm = inr r) <->
            Forall (λ a, is_Some (reg !! a.1) /\ 8 * Earlier.memref_sz a.2 < 2 ^ 64)
              (Earlier._args dm)) as Hiff.
  { intros reg dm. unfold Earlier.store_inputs. split.
    - intros [[res dm'] Hrun].
      apply earlier_store_inputs_loop in Hrun as (buffs & _ & _ & Hall & _).
      exact Hall.
    - apply earlier_store_inputs_total. }
  split; [exact earlier_memref_sz_small|]. split.
  { intros rank Hr. rewrite earlier_memref_sz_int by lia.
    destruct (3 + 2 * rank <? 0) eqn:E; [|apply Z.ltb_ge in E; lia]. lia. }
  split; [exact Hsize|]. split; [exact Hiff|]. split.
  - intros reg dm Hranks. rewrite Hiff. rewrite !Forall_forall. split.
    + intros Hall a Ha. apply (Hall a Ha).
    + intros Hall a Ha. split; [apply (Hall a Ha)|].
      rewrite Forall_forall in Hranks. specialize (Hranks a Ha).
      rewrite earlier_memref_sz_small by exact Hranks. lia.
  - intros reg dm res dm' Hrun. unfold Earlier.store_inputs in Hrun.
    apply earlier_store_inputs_loop in Hrun
      as (buffs & -> & HF & _ & Hvm & Hf & Hrm & Ha).
    simpl. split; [eapply Forall2_length, HF|]. split; [exact HF|].
    split; [rewrite Hsize, (earlier_buffers_words _ _ HF); reflexivity|].
    split; [|auto].
    intros Hranks. clear - HF Hranks.
    induction HF as [|buff a buffs l Hlen _ IH]; [constructor|].
    apply Forall_cons in Hranks as [Hr Hranks].
    constructor; [|apply IH, Hranks].
    rewrite Hlen. apply earlier_memref_sz_small, Hr.
Qed.

Lemma earlier_handleResult_loop
    (l : list (id_type * (Earlier.Value * option SetResFunc))) : forall st st',
  foldM Earlier.handleResult_step l st = Ok st' ->
  0 <= Earlier.hr_sz st < 2 ^ 64 ->
  exists ranks,
    Forall2 (λ v r, exists rtensor onDevice dist,
               Earlier.getType v.2.1
               = Some (Earlier.PTensorType rtensor onDevice dist) /\
               r = Z.of_nat (length (Earlier.getShape rtensor))) l ranks /\
    Earlier.hr_sz st'
    = to_uint64 (Earlier.hr_sz st
                 + foldr (λ r acc, Earlier.memref_sz r + acc) 0 ranks) /\
    length (Earlier.fn_results (Earlier.hr_func st'))
    = (length (Earlier.fn_results (Earlier.hr_func st)) + length l)%nat /\
    (forall g, g ∉ l.*1 -> Earlier.hr_irm st' !! g = Earlier.hr_irm st !! g) /\
    (NoDup l.*1 -> forall j v r,
       l !! j = Some v -> ranks !! j = Some r ->
       Earlier.hr_irm st' !! v.1 = Some r).
Proof.
  induction l as [|v l IH]; intros st st' Hrun Hsz; simpl in Hrun.
  - inversion Hrun; subst. exists []. simpl.
    rewrite Z.add_0_r, to_uint64_small by exact Hsz.
    split; [constructor|]. split; [reflexivity|]. split; [lia|].
    split; [auto|]. intros _ j v r Hj. discriminate.
  - apply bind_Ok in Hrun as (st1 & Hstep & Hrun).
    unfold Earlier.handleResult_step in Hstep.
    destruct (Earlier.getType v.2.1) as [[rt|rt od d]|] eqn:Hty; try discriminate.
    inversion Hstep; subst st1; clear Hstep.
    apply IH in Hrun as (ranks & HF & Hz & Hlen & Hm & Hn);
      [|simpl; apply to_uint64_range].
    simpl in *. exists (Z.of_nat (length (Earlier.getShape rt)) :: ranks).
    split; [constructor; [eauto | exact HF]|].
    split; [simpl; rewrite Hz, to_uint64_add_l; f_equal; lia|].
    split.
    { rewrite Hlen. unfold insert_at. rewrite length_app. simpl.
      rewrite length_take, length_drop. lia. }
    split.
    + intros g Hg. apply not_elem_of_cons in Hg as [Hne Hg].
      rewrite Hm by exact Hg. apply lookup_insert_ne. congruence.
    + intros Hnd j v' r Hj Hr. apply NoDup_cons in Hnd as [Hk Hnd].
      destruct j as [|j]; simpl in Hj, Hr.
      * inversion Hj; inversion Hr; subst.
        rewrite Hm by exact Hk. apply lookup_insert_eq.
      * eapply Hn; eassumption.
Qed.

Lemma earlier_deliver_loop output (irm0 : gmap Z Z)
    (l : list (id_type * (Earlier.Value * option SetResFunc))) : forall st st',
  Earlier.deliver_loop output l st = inr st' ->
  0 <= Earlier.dl_pos st < 2 ^ 64 ->
  (forall g, default 0 (Earlier.dl_irm st !! g) = default 0 (irm0 !! g)) ->
  Earlier.dl_pos st'
  = to_uint64
      (Earlier.dl_pos st
       + foldr (λ v acc, Earlier.memref_sz (default 0 (irm0 !! v.1)) + acc) 0 l) /\
  exists evs,
    Earlier.dl_events st' = Earlier.dl_events st ++ evs /\
    length evs = length l /\
    forall j v, l !! j = Some v ->
      exists cb,
        v.2.2 = Some cb /\
        evs !! j
        = Some (Earlier.SetRes cb (default 0 (irm0 !! v.1))
                  (memref_at (default 0 (irm0 !! v.1)) output
                     (to_uint64
                        (Earlier.dl_pos st
                         + foldr (λ v acc,
                                    Earlier.memref_sz (default 0 (irm0 !! v.1)) + acc)
                             0 (take j l))))).
Proof.
  induction l as [|v l IH]; intros st st' Hrun Hpos Hirm;
    cbn [Earlier.deliver_loop] in Hrun.
  - inversion Hrun; subst. simpl.
    rewrite Z.add_0_r, to_uint64_small by exact Hpos.
    split; [reflexivity|].
    exists []. rewrite app_nil_r. split; [reflexivity|]. split; [reflexivity|].
    intros j v Hj. discriminate.
  - destruct (Earlier.deliver_step output st v) as [e|st1] eqn:Hstep;
      [discriminate|].
    unfold Earlier.deliver_step in Hstep.
    destruct v.2.2 as [cb|] eqn:Hcb; [|discriminate].
    inversion Hstep; subst st1; clear Hstep.
    apply IH in Hrun as (Hp & evs & Hev & Hlen & Hj); simpl in *.
    + rewrite Hirm in *. split.
      { rewrite Hp, to_uint64_add_l. f_equal. symmetry. apply Z.add_assoc. }
      eexists (_ :: evs). split; [rewrite Hev, <- app_assoc; reflexivity|].
      split; [simpl; rewrite Hlen; reflexivity|].
      intros j v' Hl. destruct j as [|j]; simpl in Hl.
      * inversion Hl; subst v'. exists cb. split; [exact Hcb|]. simpl.
        rewrite Z.add_0_r, to_uint64_small by exact Hpos. reflexivity.
      * destruct (Hj j v' Hl) as (cb' & Hcb' & He). exists cb'.
        split; [exact Hcb'|]. simpl. rewrite He, to_uint64_add_l.
        do 4 f_equal. symmetry. apply Z.add_assoc.
    + apply to_uint64_range.
    + intros g. destruct (decide (v.1 = g)) as [<-|Hne].
      * rewrite lookup_insert_eq. simpl. apply Hirm.
      * rewrite lookup_insert_ne by exact Hne. apply Hirm.
Qed.

Lemma earlier_sum_ranks (irm : gmap Z Z)
    (l : list (id_type * (Earlier.Value * option SetResFunc))) (ranks : list Z) :
  Forall2 (λ v r, default 0 (irm !! v.1) = r) l ranks ->
  foldr (λ v acc, Earlier.memref_sz (default 0 (irm !! v.1)) + acc) 0 l
  = foldr (λ r acc, Earlier.memref_sz r + acc) 0 ranks.
Proof.
  induction 1 as [|v r l ranks Hr _ IH]; [reflexivity|].
  simpl. rewrite Hr, IH. reflexivity.
Qed.

(** X27. In the earlier text [deliver] walks exactly what [handleResult]
    reported.  [handleResult] takes the rank of each entry of [_ivm] from
    the shape of its ptensor type, records it in [_irm], adds one result to
    the function and leaves [_ivm] as it is; the size it returns is the sum
    of [memref_sz(rank)] over the entries, reduced to 64 bits, which is the
    sum of [3 + 2 * rank] when no rank is above 2^30 - 2.  A [deliver] on
    the same manager calls, for the j-th entry, its callback with the
    recorded rank and the memref that starts where the memrefs of the
    entries before it end, and stops at the reported size.  It gets that
    far only if every entry has a delivery callback. *)
Theorem earlier_deliver_walks_the_reported_size b dm osz b' dm'
    output sz events pos dm'' :
  NoDup (Earlier._ivm dm).*1 ->
  Earlier.handleResult b dm = Ok (osz, b', dm') ->
  Earlier.deliver dm' output sz = inr (events, pos, dm'') ->
  exists ranks,
    Forall2 (λ v r, exists rtensor onDevice dist,
               Earlier.getType v.2.1
               = Some (Earlier.PTensorType rtensor onDevice dist) /\
               r = Z.of_nat (length (Earlier.getShape rtensor)))
      (Earlier._ivm dm) ranks /\
    osz = to_uint64 (foldr (λ r acc, Earlier.memref_sz r + acc) 0 ranks) /\
    (Forall (λ r, r <= 2 ^ 30 - 2) ranks ->
     osz = to_uint64 (foldr (λ r acc, 3 + 2 * r + acc) 0 ranks)) /\
    pos = osz /\
    Earlier._ivm dm' = Earlier._ivm dm /\
    length (Earlier.fn_results (Earlier._func dm'))
    = (length (Earlier.fn_results (Earlier._func dm))
       + length (Earlier._ivm dm))%nat /\
    length events = length (Earlier._ivm dm) /\
    forall j v r,
      Earlier._ivm dm !! j = Some v -> ranks !! j = Some r ->
      Earlier._irm dm' !! v.1 = Some r /\
      exists cb,
        v.2.2 = Some cb /\
        events !! j
        = Some (Earlier.SetRes cb r
                  (memref_at r output
                     (to_uint64
                        (foldr (λ r acc, Earlier.memref_sz r + acc) 0
                           (take j ranks))))).
Proof.
  intros Hnd Hres Hdel. unfold Earlier.handleResult in Hres.
  apply bind_Ok in Hres as (st & Hloop & Hok).
  apply earlier_handleResult_loop in Hloop as (ranks & HF & Hz & Hlen & Hm & Hn);
    [|simpl; lia].
  specialize (Hn Hnd).
  inversion Hok; subst osz b' dm'; clear Hok. simpl in *.
  unfold Earlier.deliver in Hdel. simpl in Hdel.
  destruct (Earlier.deliver_loop output (Earlier._ivm dm) _) as [e|dst] eqn:Hdl;
    [discriminate|].
  inversion Hdel; subst events pos dm''; clear Hdel.
  apply (earlier_deliver_loop _ (Earlier.hr_irm st)) in Hdl
    as (Hpos & evs & Hev & Hevlen & Hj); [|simpl; lia|reflexivity].
  simpl in *. rewrite Z.add_0_l in Hz, Hpos.
  assert (forall j v, Earlier._ivm dm !! j = Some v ->
            exists cb, v.2.2 = Some cb /\
              evs !! j
              = Some (Earlier.SetRes cb (default 0 (Earlier.hr_irm st !! v.1))
                        (memref_at (default 0 (Earlier.hr_irm st !! v.1)) output
                           (to_uint64
                              (foldr (λ v acc,
                                        Earlier.memref_sz
                                          (default 0 (Earlier.hr_irm st !! v.1)) + acc)
                                 0 (take j (Earlier._ivm dm))))))) as Hj'.
  { intros j v Hv. destruct (Hj j v Hv) as (cb & Hcb & He). exists cb.
    split; [exact Hcb|]. rewrite He, Z.add_0_l. reflexivity. }
  clear Hj.
  assert (Forall2 (λ v r, default 0 (Earlier.hr_irm st !! v.1) = r)
            (Earlier._ivm dm) ranks) as Hrk.
  { apply Forall2_same_length_lookup. split; [eapply Forall2_length, HF|].
    intros j v r Hv Hr. rewrite (Hn j v r Hv Hr). reflexivity. }
  exists ranks. split; [exact HF|]. split; [exact Hz|]. split.
  { intros Hsmall. rewrite Hz. f_equal.
    assert (Forall (λ r, 0 <= r) ranks) as Hnn.
    { clear - HF. induction HF as [|v r l ranks (rt & od & d & _ & ->) _ IH];
        constructor; [lia | exact IH]. }
    clear - Hsmall Hnn. induction ranks as [|r ranks IH]; [reflexivity|].
    apply Forall_cons in Hsmall as [Hr Hsmall].
    apply Forall_cons in Hnn as [Hr0 Hnn]. simpl.
    rewrite IH by assumption.
    rewrite earlier_memref_sz_small by lia. reflexivity. }
  split; [rewrite Hpos, Hz, (earlier_sum_ranks _ _ _ Hrk); reflexivity|].
  split; [reflexivity|]. split; [exact Hlen|].
  split; [rewrite Hev; simpl; exact Hevlen|].
  intros j v r Hv Hr. split; [exact (Hn j v r Hv Hr)|].
  destruct (Hj' j v Hv) as (cb & Hcb & He). exists cb. split; [exact Hcb|].
  rewrite Hev. simpl. rewrite He, (Hn j v r Hv Hr). simpl.
  rewrite (earlier_sum_ranks _ _ _ (Forall2_take _ _ _ j Hrk)). reflexivity.
Qed.

(** * The further statements on sample inputs *)

Lemma sample_ready_calls_run :
  do_calls sample_ready_calls (sample_registry, new_DepManager)
  = Ok (sample_registry, sample_ready_dm1).
Proof. vm_compute. reflexivity. Qed.

Lemma sample_ready_handleResult_run :
  handleResult None sample_builder (store_inputs sample_ready_dm1).2
  = Ok (10, {| block := [ReturnOp [sample_value]]; next_op := 3 |},
        sample_ready_dm3).
Proof. vm_compute. reflexivity. Qed.

Lemma sample_ready_deliver_run :
  deliver sample_ready_dm3 sample_output 10
  = Ok (sample_ready_delivery.1.1, sample_ready_delivery.1.2,
        sample_ready_delivery.2).
Proof. vm_compute. reflexivity. Qed.

Lemma sample_deliver_run :
  deliver sample_dm3 sample_output 50
  = Ok (sample_delivery.1.1, sample_delivery.1.2, sample_delivery.2).
Proof. vm_compute. reflexivity. Qed.

Lemma sample_run_engines :
  run_engines (H := sample_backend) true ["module a"; "module bb"; "module a"]
    new_JitState = Ok sample_jit2.
Proof. vm_compute. reflexivity. Qed.

Lemma sample_uncached_run1 :
  run_engine (H := sample_backend) false new_JitState "module a"
  = Ok (sample_engine, "llvm module a",
        {| engineCache := ∅; engines_built := 1 |}).
Proof. vm_compute. reflexivity. Qed.

Lemma sample_uncached_run2 :
  run_engine (H := sample_backend) false {| engineCache := ∅; engines_built := 1 |}
    "module a"
  = Ok ({| engine_id := 1; engine_module := "llvm module a" |}, "llvm module a",
        {| engineCache := ∅; engines_built := 2 |}).
Proof. vm_compute. reflexivity. Qed.

Lemma sample_earlier_store_inputs_run :
  Earlier.store_inputs sample_earlier_registry sample_earlier_dm
  = inr ([[4096; 4096; 0; 10; 1]; [8192; 8192; 0]], sample_earlier_dm2).
Proof. vm_compute. reflexivity. Qed.

Lemma sample_earlier_dm2_NoDup : NoDup (Earlier._ivm sample_earlier_dm2).*1.
Proof.
  change (NoDup [3; 4]). apply NoDup_cons. split.
  - intros Hin. apply list_elem_of_singleton in Hin. discriminate.
  - apply NoDup_singleton.
Qed.

Lemma sample_earlier_handleResult_run :
  Earlier.handleResult sample_earlier_builder sample_earlier_dm2
  = Ok (12, sample_earlier_result.1.2, sample_earlier_result.2).
Proof. vm_compute. reflexivity. Qed.

Lemma sample_earlier_deliver_run :
  Earlier.deliver sample_earlier_result.2 sample_output 12
  = inr (sample_earlier_delivery.1.1, sample_earlier_delivery.1.2,
         sample_earlier_delivery.2).
Proof. vm_compute. reflexivity. Qed.

Lemma sample_run50_result :
  run (H := sample_backend) false true new_JitState "module a" "jit_main"
    [4096; 4096; 0; 10; 1] 50 = Ok sample_run50.
Proof. vm_compute. reflexivity. Qed.

Lemma sample_deliver50_run :
  deliver sample_dm3 (rr_out sample_run50) 50
  = Ok (sample_delivery50.1.1, sample_delivery50.1.2, sample_delivery50.2).
Proof. vm_compute. reflexivity. Qed.

(** X2 on the two sample futures: a local rank-1 array, and a distributed
    rank-2 array on a GPU. *)
Lemma argument_type_rank_and_distribution_sample :
  argument_type sample_future = Ok (PTensorType [10] (IntegerType 32 Signless) []) /\
  isDist (PTensorType [10] (IntegerType 32 Signless) []) = false /\
  exists t,
    argument_type sample_dist_future = Ok t /\
    getRank t = Ok 2 /\ isDist t = true /\
    exists etyp envs, t = PTensorType [8; 6] etyp envs /\ GPUEnvAttr "GPU" ∈ envs.
Proof.
  split; [reflexivity|].
  assert (argument_type sample_future
          = Ok (PTensorType [10] (IntegerType 32 Signless) [])) as Hlocal
    by reflexivity.
  destruct (argument_type_rank_and_distribution _ _ Hlocal)
    as (_ & _ & _ & _ & _ & Hd & _).
  split; [exact Hd|].
  destruct (argument_type sample_dist_future) as [t|e] eqn:Ht;
    [|vm_compute in Ht; discriminate Ht].
  destruct (argument_type_rank_and_distribution _ _ Ht)
    as (etyp & envs & _ & Hshape & Hr & Hdist & Hgpu).
  exists t. split; [reflexivity|]. split; [exact Hr|]. split; [exact Hdist|].
  exists etyp, envs. split; [exact Hshape|]. apply Hgpu. split; reflexivity.
Defined.

(** X4 on the sample batch: the descriptor of the imported guid 1 is
    returned and the guid leaves [_ivm]; the created guid 3 stays. *)
Lemma store_inputs_erases_the_inputs_sample :
  (1 ∈ (_args sample_dm1).*1) /\ (3 ∉ (_args sample_dm1).*1) /\
  (store_inputs sample_dm1).1 = [4096; 4096; 0; 10; 1] /\
  ivm_find 1 (_ivm (store_inputs sample_dm1).2) = None /\
  ivm_find 3 (_ivm (store_inputs sample_dm1).2) = Some sample_value /\
  _icm (store_inputs sample_dm1).2 !! 3 = Some 30%nat.
Proof.
  assert (1 ∈ (_args sample_dm1).*1) as H1
    by (apply elem_of_cons; left; reflexivity).
  assert (3 ∉ (_args sample_dm1).*1) as H3.
  { intros Hin. apply elem_of_cons in Hin as [Hin|Hin]; [discriminate Hin|].
    apply elem_of_nil in Hin. exact Hin. }
  destruct (store_inputs_erases_the_inputs sample_dm1)
    as (Hres & Hin & Hout & _).
  split; [exact H1|]. split; [exact H3|].
  split; [rewrite Hres; reflexivity|].
  split; [exact (proj1 (Hin 1 H1))|].
  split.
  - refine (eq_trans (proj1 (Hout 3 H3)) _). reflexivity.
  - refine (eq_trans (proj2 (Hout 3 H3)) _). reflexivity.
Defined.

(** X6 on the sample batch: two deliveries, then the ready callback of
    guid 3. *)
Lemma deliver_sends_every_ready_signal_sample :
  deliver sample_dm3 sample_output 50
  = Ok (sample_delivery.1.1, sample_delivery.1.2, sample_delivery.2) /\
  ready_calls_of 3 sample_delivery.1.1 = [31%nat] /\
  ready_calls_of 4 sample_delivery.1.1 = [] /\
  Ready 31%nat 3 ∈ sample_delivery.1.1.
Proof.
  split; [exact sample_deliver_run|].
  destruct (proj2 deliver_sends_every_ready_signal _ _ _ _ _ _ sample_deliver_run)
    as (_ & Hcalls & Hin).
  split; [exact (Hcalls 3)|]. split; [exact (Hcalls 4)|].
  apply (Hin 31%nat 3). apply elem_of_cons. left. reflexivity.
Defined.

(** X7 on the batch with a drop: the callback 31 added before the drop of
    guid 3 is not called, 32 and 33 are, in that order, and so is the
    callback of guid 8, which has no value. *)
Lemma batch_ready_callbacks_sample :
  do_calls sample_ready_calls (sample_registry, new_DepManager)
  = Ok (sample_registry, sample_ready_dm1) /\
  handleResult None sample_builder (store_inputs sample_ready_dm1).2
  = Ok (10, {| block := [ReturnOp [sample_value]]; next_op := 3 |},
        sample_ready_dm3) /\
  deliver sample_ready_dm3 sample_output 10
  = Ok (sample_ready_delivery.1.1, sample_ready_delivery.1.2,
        sample_ready_delivery.2) /\
  ready_calls_of 3 sample_ready_delivery.1.1 = [32%nat; 33%nat] /\
  ready_calls_of 8 sample_ready_delivery.1.1 = [80%nat] /\
  ~ Ready 31%nat 3 ∈ sample_ready_delivery.1.1.
Proof.
  split; [exact sample_ready_calls_run|].
  split; [exact sample_ready_handleResult_run|].
  split; [exact sample_ready_deliver_run|].
  pose proof (λ guid, batch_ready_callbacks _ _ _ _ _ _ _ _ _ _ _ _ _ _ guid
                        sample_ready_calls_run sample_ready_handleResult_run
                        sample_ready_deliver_run) as Hready.
  split; [exact (proj1 (Hready 3))|]. split; [exact (proj1 (Hready 8))|].
  intros Hin. apply (proj2 (Hready 3)) in Hin. vm_compute in Hin.
  apply elem_of_cons in Hin as [Hin|Hin]; [discriminate Hin|].
  apply elem_of_cons in Hin as [Hin|Hin]; [discriminate Hin|].
  apply elem_of_nil in Hin. exact Hin.
Defined.

(** X8 on the sample Registry: right after guid 1 is imported, [deliver]
    fails. *)
Lemma deliver_needs_every_callback_sample :
  exists val dm1,
    getDependent sample_registry new_DepManager 1 = Ok (val, dm1) /\
    deliver dm1 sample_output 0 = Err InvariantViolation.
Proof.
  destruct (getDependent sample_registry new_DepManager 1) as [[val dm1]|e] eqn:Hget;
    [|vm_compute in Hget; discriminate Hget].
  exists val, dm1. split; [reflexivity|].
  exact (proj2 (proj2 deliver_needs_every_callback)
           sample_registry new_DepManager 1 val dm1 sample_output 0
           eq_refl eq_refl Hget).
Defined.

(** X9 on the sample batch: every value is of ptensor type before
    [handleResult], none is after it. *)
Lemma handleResult_needs_ptensor_values_sample :
  Forall (λ kv, is_Some (result_info kv.2)) (_ivm sample_dm2) /\
  (exists r, handleResult None sample_builder sample_dm2 = Ok r) /\
  handleResult None sample_builder3 sample_dm3 = Err NullDereference /\
  exists before kv after,
    _ivm sample_dm3 = before ++ kv :: after /\ kv.2 = NullValue.
Proof.
  destruct handleResult_needs_ptensor_values as (Hiff & _ & Herr).
  assert (Forall (λ kv, is_Some (result_info kv.2)) (_ivm sample_dm2)) as Hall
    by (repeat constructor; eexists; reflexivity).
  assert (handleResult None sample_builder3 sample_dm3 = Err NullDereference)
    as Hfail by reflexivity.
  split; [exact Hall|]. split; [apply Hiff, Hall|]. split; [exact Hfail|].
  destruct (Herr _ _ _ _ Hfail) as (before & kv & after & Hsplit & _ & Hkv).
  exists before, kv, after. split; [exact Hsplit|].
  destruct Hkv as [[Hnull _]|(ty & _ & _ & Hne)]; [exact Hnull | discriminate Hne].
Defined.

(** X10 on the sample batch: after [handleResult] the values of guids 3 and
    4 are null. *)
Lemma handleResult_clears_the_values_sample :
  handleResult None sample_builder (store_inputs sample_dm1).2
  = Ok (50, sample_builder3, sample_dm3) /\
  _ivm sample_dm3 = [(3, NullValue); (4, NullValue)] /\
  getDependent sample_registry sample_dm3 4 = Ok (NullValue, sample_dm3) /\
  handleResult None sample_builder3 sample_dm3 = Err NullDereference.
Proof.
  split; [exact sample_handleResult_run|].
  destruct (handleResult_clears_the_values _ _ _ _ _ _ sample_handleResult_run)
    as (Hv & _ & Hget & Hagain).
  split; [rewrite Hv; reflexivity|]. split.
  - apply Hget. vm_compute. apply elem_of_cons. right.
    apply elem_of_cons. left. reflexivity.
  - apply Hagain. discriminate.
Defined.

(** X12 on the sample batch: 50 reported, 25 words walked. *)
Lemma deliver_walks_half_the_reported_size_sample :
  NoDup (_ivm sample_dm2).*1 /\
  handleResult None sample_builder sample_dm2 = Ok (50, sample_builder3, sample_dm3) /\
  deliver sample_dm3 sample_output 50
  = Ok (sample_delivery.1.1, sample_delivery.1.2, sample_delivery.2) /\
  sample_delivery.1.2 = 25 /\ 50 = 2 * sample_delivery.1.2.
Proof.
  assert (handleResult None sample_builder sample_dm2
          = Ok (50, sample_builder3, sample_dm3)) as Hrun
    by (vm_compute; reflexivity).
  split; [exact sample_dm2_NoDup|]. split; [exact Hrun|].
  split; [exact sample_deliver_run|]. split; [reflexivity|].
  destruct (deliver_walks_half_the_reported_size _ _ _ _ _ _ _ _ _ _ _
              sample_dm2_NoDup Hrun sample_deliver_run) as (_ & _ & Hexact).
  apply Hexact. vm_compute. reflexivity.
Defined.

(** X13 on the sample batch, which returns two arrays. *)
Lemma output_pointer_iff_something_returned_sample :
  handleResult None sample_builder sample_dm2 = Ok (50, sample_builder3, sample_dm3) /\
  2 * result_words (_ivm sample_dm2) < 2 ^ 64 /\
  AddrOfOutput ∈ pack_args 50 [5; 6].
Proof.
  assert (handleResult None sample_builder sample_dm2
          = Ok (50, sample_builder3, sample_dm3)) as Hrun
    by (vm_compute; reflexivity).
  assert (2 * result_words (_ivm sample_dm2) < 2 ^ 64) as Hfit
    by (vm_compute; reflexivity).
  split; [exact Hrun|]. split; [exact Hfit|].
  destruct (output_pointer_iff_something_returned _ _ _ _ _ _ Hrun)
    as (_ & _ & Hiff).
  apply (proj2 (Hiff Hfit)). discriminate.
Defined.

(** X14 on the sample batch: a buffer cut after the 25 words walked, with
    other words behind them, gives the same deliveries. *)
Lemma deliver_reads_below_its_final_position_sample :
  Forall (λ kv, 0 <= (irm_at (_irm sample_dm3) kv.1).1) (_ivm sample_dm3) /\
  deliver sample_dm3 (take 25 sample_output ++ [7; 7; 7]) 50
  = Ok (sample_delivery.1.1, 25, sample_delivery.2).
Proof.
  assert (Forall (λ kv, 0 <= (irm_at (_irm sample_dm3) kv.1).1) (_ivm sample_dm3))
    as Hranks by (repeat constructor; vm_compute; discriminate).
  split; [exact Hranks|].
  apply (deliver_reads_below_its_final_position _ sample_output _ _ _ _ _ Hranks
           sample_deliver_run).
  reflexivity.
Defined.

(** X15 on the sample batch: once the imported guid 1 is dropped it cannot
    be imported again, though [_args] still holds it. *)
Lemma dropped_guid_is_unknown_sample :
  sample_registry !! 1 = Some sample_future /\
  getDependent (DepManager_drop sample_registry sample_dm1 1).1
    (DepManager_drop sample_registry sample_dm1 1).2 1 = Err UnknownGuid /\
  (_args (DepManager_drop sample_registry sample_dm1 1).2).*1 = [1].
Proof.
  split; [reflexivity|].
  split; [exact (proj1 (dropped_guid_is_unknown sample_registry sample_dm1 1))|].
  reflexivity.
Defined.

(** X16 on the sample batch: one import, of guid 1. *)
Lemma batch_imports_each_array_once_sample :
  do_calls sample_calls (sample_registry, new_DepManager)
  = Ok (sample_registry, sample_dm1) /\
  (_args sample_dm1).*1 = [1] /\
  NoDup (_args sample_dm1).*1 /\
  length (fn_args (_func sample_dm1)) = 1%nat.
Proof.
  split; [exact sample_calls_run|]. split; [reflexivity|].
  destruct (batch_imports_each_array_once _ _ _ _ sample_calls_run)
    as (Hnd & Hlen & _).
  split; [exact Hnd|]. rewrite Hlen. reflexivity.
Defined.

(** X17 with the stand-in backend: the same text run twice without the
    cache gets the engines 0 and 1. *)
Lemma uncached_runs_always_compile_sample :
  run_engine (H := sample_backend) false new_JitState "module a"
  = Ok (sample_engine, "llvm module a",
        {| engineCache := ∅; engines_built := 1 |}) /\
  run_engine (H := sample_backend) false {| engineCache := ∅; engines_built := 1 |}
    "module a"
  = Ok ({| engine_id := 1; engine_module := "llvm module a" |}, "llvm module a",
        {| engineCache := ∅; engines_built := 2 |}) /\
  engine_id sample_engine
  <> engine_id {| engine_id := 1; engine_module := "llvm module a" |}.
Proof.
  split; [exact sample_uncached_run1|]. split; [exact sample_uncached_run2|].
  exact (proj1 (proj2 (uncached_runs_always_compile (H := sample_backend)))
           _ _ _ _ _ _ _ _ _ _ sample_uncached_run1 (reaches_refl _)
           sample_uncached_run2).
Defined.

(** X18 with the stand-in digest: three runs, two digests, two engines. *)
Lemma cached_runs_compile_once_per_digest_sample :
  run_engines (H := sample_backend) true ["module a"; "module bb"; "module a"]
    new_JitState = Ok sample_jit2 /\
  engines_built sample_jit2 = 2%nat /\
  engines_built sample_jit2 = size (engineCache sample_jit2) /\
  (engines_built sample_jit2 <= 3)%nat.
Proof.
  split; [exact sample_run_engines|]. split; [reflexivity|].
  destruct (cached_runs_compile_once_per_digest (H := sample_backend) _ _
              sample_run_engines) as (_ & Hsz & _ & Hle).
  split; [exact Hsz | exact Hle].
Defined.

(** X19 with the stand-in backend, where nothing fails. *)
Lemma run_failure_modes_sample :
  exists r,
    run (H := sample_backend) false true new_JitState "module a" "jit_main" [5; 6] 4
    = Ok r /\
    engine_module (rr_engine r) = "llvm module a" /\
    rr_module r = "llvm module a".
Proof.
  exact (run_failure_modes (H := sample_backend) false true new_JitState
           "module a" "jit_main" [5; 6] 4).
Defined.

(** X20 on the sample hosts: level 2 and verbosity 4 are read, timing and
    IR printing are on; a level of 7 is refused. *)
Lemma JIT_ctor_levels_sample :
  JIT_ctor sample_host = inr sample_jit /\
  _jit_opt_level sample_jit = 2 /\
  pm_timing sample_jit = true /\
  JIT_ctor sample_bad_host = inl (BadOptLevel "7").
Proof.
  assert (JIT_ctor sample_host = inr sample_jit) as Hrun
    by (vm_compute; reflexivity).
  split; [exact Hrun|].
  destruct (proj1 JIT_ctor_levels _ _ Hrun) as (_ & _ & _ & _ & Ht & _).
  split; [reflexivity|]. split; [apply Ht; vm_compute; reflexivity|].
  apply (proj2 JIT_ctor_levels sample_bad_host "7"%string 7 0);
    try reflexivity. right. vm_compute. reflexivity.
Defined.

(** X21 on [arange(0, 10, 3)]: four elements, stop value 12. *)
Lemma DeferredArange_count_sample :
  0 <= 0 <= 10 /\ 0 < 3 /\ 10 - 0 + 3 <= 2 ^ 64 /\
  exists n,
    DeferredArange_num 0 10 3 = Some n /\
    (n - 1) * 3 < 10 - 0 <= n * 3 /\
    DeferredArange_num 0 10 3 = Some 4 /\
    DeferredArange_stop 0 4 3 = 12.
Proof.
  assert (0 <= 0 <= 10) as H1 by lia. assert (0 < 3) as H2 by lia.
  assert (10 - 0 + 3 <= 2 ^ 64) as H3 by (vm_compute; discriminate).
  split; [exact H1|]. split; [exact H2|]. split; [exact H3|].
  destruct (proj1 (proj2 (proj2 (DeferredArange_count 0 10 3))) H1 H2 H3)
    as (n & Hn & _ & Hb & _).
  exists n. split; [exact Hn|]. split; [exact Hb|]. split; reflexivity.
Defined.

(** X23 on the sample batch, at its second entry. *)
Lemma handleResult_indices_in_range_sample :
  _ivm sample_dm2 = [(3, sample_value)] ++ (4, sample_dist_value) :: [] /\
  exists st,
    foldM handleResult_step [(3, sample_value)]
      {| hr_ret_values := replicate (length (_ivm sample_dm2)) NullValue;
         hr_func := _func sample_dm2; hr_irm := _irm sample_dm2; hr_sz := 0;
         hr_idx := 0%nat; hr_ivm := [] |} = Ok st /\
    hr_idx st = 1%nat /\ length (hr_ret_values st) = 2%nat /\
    (hr_idx st < length (hr_ret_values st))%nat.
Proof.
  assert (_ivm sample_dm2 = [(3, sample_value)] ++ (4, sample_dist_value) :: [])
    as Hsplit by reflexivity.
  split; [exact Hsplit|].
  destruct (foldM handleResult_step [(3, sample_value)]
              {| hr_ret_values := replicate (length (_ivm sample_dm2)) NullValue;
                 hr_func := _func sample_dm2; hr_irm := _irm sample_dm2;
                 hr_sz := 0; hr_idx := 0%nat; hr_ivm := [] |})
    as [st|e] eqn:Hrun; [|vm_compute in Hrun; discriminate Hrun].
  exists st. split; [reflexivity|].
  destruct (handleResult_indices_in_range sample_dm2 _ _ _ st Hsplit Hrun)
    as (Hidx & Hlt & Hlen & _).
  split; [exact Hidx|]. split; [exact Hlen | exact Hlt].
Defined.

(** X24 on the sample batch: a buffer of 50 words, of which [deliver] reads
    the first 25. *)
Lemma deliver_stays_within_the_run_buffer_sample :
  NoDup (_ivm sample_dm2).*1 /\
  2 * result_words (_ivm sample_dm2) < 2 ^ 64 /\
  handleResult None sample_builder sample_dm2 = Ok (50, sample_builder3, sample_dm3) /\
  run (H := sample_backend) false true new_JitState "module a" "jit_main"
    [4096; 4096; 0; 10; 1] 50 = Ok sample_run50 /\
  length (rr_out sample_run50) = 50%nat /\
  sample_delivery50.1.2 = 25 /\
  deliver sample_dm3 (rr_out sample_run50 ++ [1; 2; 3]) 50
  = Ok (sample_delivery50.1.1, 25, sample_delivery50.2).
Proof.
  assert (handleResult None sample_builder sample_dm2
          = Ok (50, sample_builder3, sample_dm3)) as Hres
    by (vm_compute; reflexivity).
  assert (2 * result_words (_ivm sample_dm2) < 2 ^ 64) as Hfit
    by (vm_compute; reflexivity).
  split; [exact sample_dm2_NoDup|]. split; [exact Hfit|]. split; [exact Hres|].
  split; [exact sample_run50_result|]. split; [reflexivity|].
  split; [reflexivity|].
  destruct (deliver_stays_within_the_run_buffer (H := sample_backend)
              _ _ _ _ _ _ _ _ _ _ _ _ _ _ _ _ _
              sample_dm2_NoDup Hfit Hres sample_run50_result sample_deliver50_run)
    as (_ & _ & _ & Hbeyond).
  exact (Hbeyond [1; 2; 3]).
Defined.

(** X25 on three calls: UINT16 of rank 2 gives a distributed i16 array type
    of two dynamic sizes, the element type [getTType] gives for UINT16;
    FLOAT64 with the rank -1 fails on the size of the shape; the tag
    DTYPE_LAST is refused before the rank is looked at. *)
Lemma earlier_getPTType_same_table_sample :
  Earlier.getPTType UINT16 2
  = inr (Earlier.PTensorType
           (Earlier.mkRankedTensorType [-1; -1] (IntegerType 16 Signless))
           false true) /\
  (exists t, getTType UINT16 [10] [0] [10] [0] "" 0 [0] = Ok t /\
             elementTypeOfType t = Some (IntegerType 16 Signless)) /\
  Earlier.getPTType FLOAT64 (-1) = inl Earlier.size_overflow /\
  (-1 < 0 /\ supported FLOAT64 = true) /\
  Earlier.getPTType DTYPE_LAST (-1) = inl Earlier.unknown_dtype /\
  getTType DTYPE_LAST [10] [0] [10] [0] "" 0 [0] = Err UnknownDtype.
Proof.
  assert (- 2 ^ 31 <= 2 < 2 ^ 31) as H2 by lia.
  assert (- 2 ^ 31 <= -1 < 2 ^ 31) as H1 by lia.
  split; [reflexivity|]. split.
  - pose proof (earlier_getPTType_same_table UINT16 2 H2) as H.
    change (Earlier.getPTType UINT16 2)
      with (@inr Earlier.getPTType_error _
              (Earlier.PTensorType
                 (Earlier.mkRankedTensorType [-1; -1] (IntegerType 16 Signless))
                 false true)) in H.
    destruct H as (_ & _ & _ & _ & _ & _ & Ht).
    exact (Ht [10] [0] [10] [0] ""%string 0 [0]).
  - split; [reflexivity|]. split.
    + exact (earlier_getPTType_same_table FLOAT64 (-1) H1).
    + split; [reflexivity|].
      exact (proj2 (earlier_getPTType_same_table DTYPE_LAST (-1) H1)
               [10] [0] [10] [0] ""%string 0 [0]).
Defined.

(** X26 on the sample manager of the earlier text: ranks 1 and 0, buffers of
    5 and 3 words, 8 in all; a rank of -2 asks for a buffer that cannot be
    allocated. *)
Lemma earlier_arg_size_counts_the_input_words_sample :
  Earlier.store_inputs sample_earlier_registry sample_earlier_dm
  = inr ([[4096; 4096; 0; 10; 1]; [8192; 8192; 0]], sample_earlier_dm2) /\
  Forall (λ a, 0 <= a.2 <= 2 ^ 30 - 2) (Earlier._args sample_earlier_dm) /\
  Earlier.arg_size sample_earlier_dm = 8 /\
  Forall2 (λ buff a, Z.of_nat (length buff) = 3 + 2 * a.2)
    [[4096; 4096; 0; 10; 1]; [8192; 8192; 0]] [(1, 1); (2, 0)] /\
  (Earlier._ivm sample_earlier_dm2).*1 = [3; 4] /\
  Earlier.memref_sz 2 = 7 /\
  2 ^ 64 <= 8 * Earlier.memref_sz (-2).
Proof.
  assert (Forall (λ a : id_type * Z, 0 <= a.2 <= 2 ^ 30 - 2)
            (Earlier._args sample_earlier_dm)) as Hranks
    by (repeat constructor; vm_compute; discriminate).
  destruct earlier_arg_size_counts_the_input_words
    as (Hsmall & Hneg & _ & _ & _ & Hrun).
  split; [exact sample_earlier_store_inputs_run|]. split; [exact Hranks|].
  destruct (Hrun _ _ _ _ sample_earlier_store_inputs_run)
    as (_ & _ & Hsize & Hwords & Hvm & _).
  split; [rewrite Hsize; reflexivity|].
  split; [exact (Hwords Hranks)|].
  split; [rewrite Hvm; reflexivity|].
  split; [apply Hsmall; lia | apply Hneg; lia].
Defined.

(** X27 on the sample manager of the earlier text: 12 words reported for a
    rank-1 and a rank-2 array, 12 words walked, the second memref read from
    word 5 on. *)
Lemma earlier_deliver_walks_the_reported_size_sample :
  NoDup (Earlier._ivm sample_earlier_dm2).*1 /\
  Earlier.handleResult sample_earlier_builder sample_earlier_dm2
  = Ok (12, sample_earlier_result.1.2, sample_earlier_result.2) /\
  Earlier.deliver sample_earlier_result.2 sample_output 12
  = inr (sample_earlier_delivery.1.1, sample_earlier_delivery.1.2,
         sample_earlier_delivery.2) /\
  sample_earlier_delivery.1.2 = 12 /\
  length sample_earlier_delivery.1.1 = 2%nat /\
  sample_earlier_delivery.1.1
  = [Earlier.SetRes 30%nat 1 (mkMemRef 100 101 102 [103] [104]);
     Earlier.SetRes 40%nat 2 (mkMemRef 105 106 107 [108; 109] [110; 111])].
Proof.
  split; [exact sample_earlier_dm2_NoDup|].
  split; [exact sample_earlier_handleResult_run|].
  split; [exact sample_earlier_deliver_run|].
  destruct (earlier_deliver_walks_the_reported_size _ _ _ _ _ _ _ _ _ _
              sample_earlier_dm2_NoDup sample_earlier_handleResult_run
              sample_earlier_deliver_run)
    as (ranks & _ & _ & _ & Hpos & _ & _ & Hlen & _).
  split; [exact Hpos|]. split; [rewrite Hlen|]; reflexivity.
Defined.

